(** * Interest accrual and reimbursement lifecycle of the APR service

    A shallow embedding of the batch engine of the repository:
    - [InterestService] (backend/src/services/interestService.ts),
    - [VaultSupplyService] (vaultSupplyService.ts),
    - [ReimbursementService] (backend/src/services/reimbursementService.ts),
    - the rate lookup [getMarketState] of morphoService.ts,
    over the tables of the SQL migrations.

    Conventions of the model.
    - A table is the list of its rows in physical order; a query without
      ORDER BY returns rows in that order, and ORDER BY is a stable sort.
    - In the services, JavaScript numbers and Postgres DECIMAL values
      are exact rationals ([Q]): a formula stated of a number holds up to
      the rounding of binary64 and of the DECIMAL(p,s) column it is
      stored in. What a snapshot and the reimbursement created for it
      record is one number, rounded once. Where rounding decides a
      discrete fact, the arithmetic is run in binary64 ([Binary64]) and
      the column rounds ([DECIMAL_36_18]).
    - A DECIMAL column reaches the code as its decimal text (the code
      parses every such column with parseFloat); a text is never empty, so
      it is truthy under [||] whatever number it spells.
    - A TIMESTAMP is a number of seconds, a DATE a number of days; one
      invocation of a service method sees one value of the clock.
    - Store statements succeed: the only exceptions are those the code
      raises itself (the rate lookup, the payment stub).
    - The rates the rate source returns are numbers: NaN and the
      infinities are left out. *)

From Stdlib Require Import ZArith QArith Qround Qabs Lqa List Bool Lia String Permutation Sorted.
From Stdlib Require Floats.PrimFloat Floats.FloatOps.
Import ListNotations.
Open Scope Q_scope.

(** ** JavaScript side *)

Inductive completion (A : Type) : Type :=
| Normal (value : A)
| Throw (message : string).
Arguments Normal {A} value.
Arguments Throw {A} message.

(** [Math.max(a, b)] on two numbers. *)
Definition Math_max (a b : Q) : Q := if Qle_bool a b then b else a.

(** [a > 0] and the like, as the boolean test [b < a]. *)
Definition Qlt_bool (a b : Q) : bool := negb (Qle_bool b a).

(** [x.toFixed(6)] for x >= 0, as the number of millionths it prints:
    the nearest one, the larger of two equally near. *)
Definition toFixed6 (x : Q) : Z := Qfloor (x * 1000000 + (1 # 2)).

(** The arithmetic of [processPosition] and [processAllocation] as
    JavaScript runs it, in IEEE 754 binary64: the interest of one day,
    its excess over the cap and the test [interestAboveCap > 0]. It
    serves where rounding decides what the exact model cannot: the
    worked example of the specification, and the excess of a position
    so small that the column rounds it to zero. *)
Module Binary64.
Import PrimFloat FloatOps.

Definition Math_max (a b : float) : float :=
  if (is_nan a || is_nan b)%bool then nan
  else if (a <? b)%float then b else a.

Definition interestAccrued (principal apy : float) : float :=
  (principal * (apy / 365))%float.

Definition interestAboveCap (principal apy cap : float) : float :=
  Math_max 0%float
    (interestAccrued principal apy - principal * (cap / 365))%float.

(** [below <= x < above]: with the two bounds half a millionth under and
    over n millionths, [x.toFixed(6)] prints n millionths. *)
Definition between (below x above : float) : bool :=
  ((below <=? x)%float && (x <? above)%float)%bool.

(** The doubles nearest to 1000, 0.18 and 0.12, and to the bounds half a
    millionth around 0.493151 and 0.164384. *)
Definition example_principal : float := 1000%float.
Definition example_rate : float := 0x1.70a3d70a3d70ap-3%float.
Definition example_cap : float := 0x1.eb851eb851eb8p-4%float.
Definition accrued_below : float := 0x1.f8fc71d606317p-2%float.
Definition accrued_above : float := 0x1.f8fcb4f1e4b45p-2%float.
Definition excess_below : float := 0x1.50a84be40420fp-3%float.
Definition excess_above : float := 0x1.50a8d21bc126ap-3%float.

(** The test [if (interestAboveCap > 0)] of [processPosition]: whether
    [createReimbursement] is called. *)
Definition createsReimbursement (principal apy cap : float) : bool :=
  (0 <? interestAboveCap principal apy cap)%float.

(** The number a finite double stands for, and the weight of the last
    bit of its significand. *)
Definition value (x : float) : Q :=
  match Prim2SF x with
  | SpecFloat.S754_finite s m e => (if s then -1 else 1) * inject_Z (Zpos m) * 2 ^ e
  | _ => 0
  end.

Definition ulp (x : float) : Q :=
  match Prim2SF x with
  | SpecFloat.S754_finite _ _ e => 2 ^ e
  | _ => 0
  end.

(** The decimal [text] and the double [x] read as each other: [text] is
    at most half a unit in the last place away from [x]. [parseFloat]
    turns the text of a DECIMAL column into such a double, the nearest;
    and the text node-postgres sends for a number parameter,
    [String(x)], is such a decimal, the shortest that reads back as
    [x]. *)
Definition reads_as (text : Q) (x : float) : Prop :=
  Qabs (text - value x) <= ulp x / 2.

(** The double nearest to 0.000000000000001, a debt of a thousand units
    of the eighteenth decimal. *)
Definition dust_principal : float := 0x1.203af9ee75616p-50%float.

(** The double that follows [example_cap]. *)
Definition just_above_cap : float := 0x1.eb851eb851eb9p-4%float.
End Binary64.

Definition timestamp := Z.
Definition date := Z.

(** [DATE(t)], [t::date]: the calendar day of a timestamp. *)
Definition DATE (t : timestamp) : date := (t / 86400)%Z.

(** What a DECIMAL(36,18) column keeps of the decimal text of a
    parameter: the text rounded to eighteen decimals, ties away from
    zero; a value that needs more than eighteen digits before the point
    makes the statement fail. *)
Definition DECIMAL_36_18 (text : Q) : option Q :=
  let rounded :=
    if Qle_bool 0 text
    then inject_Z (Qfloor (text * 10 ^ 18 + (1 # 2))) / 10 ^ 18
    else - (inject_Z (Qfloor (- text * 10 ^ 18 + (1 # 2))) / 10 ^ 18) in
  if Qlt_bool (Qabs rounded) (10 ^ 18) then Some rounded else None.

(** ** Generic SQL helpers *)

Section Sql.
Context {A B : Type}.

(** [l JOIN r ON on]. *)
Definition join (on : A -> B -> bool) (l : list A) (r : list B) : list (A * B) :=
  flat_map (fun a => map (fun b => (a, b)) (filter (on a) r)) l.

(** [l LEFT JOIN r ON on]. *)
Definition left_join (on : A -> B -> bool) (l : list A) (r : list B)
  : list (A * option B) :=
  flat_map (fun a => match filter (on a) r with
                     | [] => [(a, None)]
                     | ms => map (fun b => (a, Some b)) ms
                     end) l.

(** ORDER BY as a stable insertion sort: rows with equal keys keep their
    relative order. *)
Fixpoint insert_by (leb : A -> A -> bool) (x : A) (l : list A) : list A :=
  match l with
  | [] => [x]
  | y :: l' => if leb x y then x :: l else y :: insert_by leb x l'
  end.

Definition sort_by (leb : A -> A -> bool) (l : list A) : list A :=
  fold_right (insert_by leb) [] l.
End Sql.

(** ** Persisted schema *)

Inductive PositionStatus := active | closed.
Inductive ReimbursementStatus := pending | completed | failed.

Definition PositionStatus_eqb (a b : PositionStatus) : bool :=
  match a, b with active, active | closed, closed => true | _, _ => false end.

Definition ReimbursementStatus_eqb (a b : ReimbursementStatus) : bool :=
  match a, b with
  | pending, pending | completed, completed | failed, failed => true
  | _, _ => false
  end.

Record Market := {
  m_market_id : string;
  m_name : string;
  m_loan_asset : string;
  m_apr_cap : Q
}.

Record Vault := {
  v_id : Z;
  v_address : string;
  v_name : string
}.

Record Borrower := {
  b_id : Z;
  b_address : string
}.

Record VaultAllocation := {
  va_vault_id : Z;
  va_market_id : string;
  va_supply_assets : Q
}.

Record BorrowerPosition := {
  bp_id : Z;
  bp_borrower_id : option Z;
  bp_vault_id : option Z;
  bp_market_id : string;
  bp_current_debt : Q;
  bp_updated_at : timestamp;
  bp_status : PositionStatus
}.

Record InterestSnapshot := {
  i_position_id : Z;
  i_snapshot_date : date;
  i_current_rate : Q;
  i_capped_rate : Q;
  i_interest_accrued : Q;
  i_interest_above_cap : Q
}.

Record SupplySnapshot := {
  vss_vault_id : Z;
  vss_market_id : string;
  vss_snapshot_date : date;
  vss_supply_amount : Q;
  vss_supply_apy : Q;
  vss_capped_apy : Q;
  vss_interest_earned : Q;
  vss_interest_above_cap : Q;
  vss_loan_asset : string;
  vss_created_at : timestamp
}.

Record Reimbursement := {
  r_id : Z;
  r_position_id : Z;
  r_amount : Q;
  r_period_start : date;
  r_period_end : date;
  r_status : ReimbursementStatus;
  r_tx_hash : option string;
  r_created_at : timestamp;
  r_processed_at : option timestamp
}.

(** The store: every table the engine reads or writes, and the sequence
    behind [reimbursements.id SERIAL]. *)
Record Store := {
  markets : list Market;
  vaults : list Vault;
  borrowers : list Borrower;
  vault_allocations : list VaultAllocation;
  borrower_positions : list BorrowerPosition;
  interest_snapshots : list InterestSnapshot;
  vault_supply_snapshots : list SupplySnapshot;
  reimbursements : list Reimbursement;
  reimbursements_id_seq : Z
}.

Definition with_borrower_positions (t : list BorrowerPosition) (st : Store) : Store :=
  {| markets := markets st; vaults := vaults st; borrowers := borrowers st;
     vault_allocations := vault_allocations st;
     borrower_positions := t;
     interest_snapshots := interest_snapshots st;
     vault_supply_snapshots := vault_supply_snapshots st;
     reimbursements := reimbursements st;
     reimbursements_id_seq := reimbursements_id_seq st |}.

Definition with_interest_snapshots (t : list InterestSnapshot) (st : Store) : Store :=
  {| markets := markets st; vaults := vaults st; borrowers := borrowers st;
     vault_allocations := vault_allocations st;
     borrower_positions := borrower_positions st;
     interest_snapshots := t;
     vault_supply_snapshots := vault_supply_snapshots st;
     reimbursements := reimbursements st;
     reimbursements_id_seq := reimbursements_id_seq st |}.

Definition with_vault_supply_snapshots (t : list SupplySnapshot) (st : Store) : Store :=
  {| markets := markets st; vaults := vaults st; borrowers := borrowers st;
     vault_allocations := vault_allocations st;
     borrower_positions := borrower_positions st;
     interest_snapshots := interest_snapshots st;
     vault_supply_snapshots := t;
     reimbursements := reimbursements st;
     reimbursements_id_seq := reimbursements_id_seq st |}.

Definition with_reimbursements (t : list Reimbursement) (seq : Z) (st : Store) : Store :=
  {| markets := markets st; vaults := vaults st; borrowers := borrowers st;
     vault_allocations := vault_allocations st;
     borrower_positions := borrower_positions st;
     interest_snapshots := interest_snapshots st;
     vault_supply_snapshots := vault_supply_snapshots st;
     reimbursements := t;
     reimbursements_id_seq := seq |}.

(** [INSERT INTO reimbursements (position_id, amount, period_start,
    period_end, status[, created_at])]: the id comes from the sequence,
    [tx_hash] and [processed_at] are NULL, [created_at] is NOW(). *)
Definition insert_reimbursement (now : timestamp) (positionId : Z) (amount : Q)
    (period_start period_end : date) (status : ReimbursementStatus) (st : Store) : Store :=
  with_reimbursements
    (reimbursements st ++
       [{| r_id := reimbursements_id_seq st;
           r_position_id := positionId;
           r_amount := amount;
           r_period_start := period_start;
           r_period_end := period_end;
           r_status := status;
           r_tx_hash := None;
           r_created_at := now;
           r_processed_at := None |}])
    (reimbursements_id_seq st + 1)%Z
    st.

(** The constraints of the schema the proofs rely on: primary keys,
    UNIQUE columns and foreign keys. *)
Record wf_store (st : Store) : Prop := {
  wf_market_ids : NoDup (map m_market_id (markets st));
  wf_vault_ids : NoDup (map v_id (vaults st));
  wf_borrower_ids : NoDup (map b_id (borrowers st));
  wf_allocations : NoDup (map (fun va => (va_vault_id va, va_market_id va)) (vault_allocations st));
  wf_position_ids : NoDup (map bp_id (borrower_positions st));
  wf_reimbursement_ids : NoDup (map r_id (reimbursements st));
  wf_reimbursement_seq :
    forall r, In r (reimbursements st) -> (r_id r < reimbursements_id_seq st)%Z;
  wf_position_market :
    forall bp, In bp (borrower_positions st) ->
               In (bp_market_id bp) (map m_market_id (markets st));
  wf_reimbursement_position :
    forall r, In r (reimbursements st) ->
              In (r_position_id r) (map bp_id (borrower_positions st))
}.

(** ** Rate source (morphoService.ts) *)

Record MarketStateData := {
  borrowApy : Q;
  supplyApy : Q
}.

(** What the GraphQL endpoint answers for a market id. The message of
    [GraphQLErrors] is [data.errors[0]?.message], the empty text when
    there is none. *)
Inductive RateResponse :=
| GraphQLErrors (message : string)      (* [data.errors] is set *)
| NotFound                              (* no [marketByUniqueKey] *)
| MarketWithoutState                    (* the market, with a null [state] *)
| MarketWithState (state : MarketStateData).

Definition RateSource := string -> RateResponse.

(** The object [getMarketState] returns: only its [state] is read. *)
Record MarketData := {
  state : option MarketStateData
}.

(** [message || "Unknown error"]: a missing or empty message is falsy. *)
Definition or_unknown_error (message : string) : string :=
  match message with
  | EmptyString => "Unknown error"
  | _ => message
  end.

Definition getMarketState (rs : RateSource) (marketId : string) : completion MarketData :=
  match rs marketId with
  | GraphQLErrors message => Throw ("GraphQL error: " ++ or_unknown_error message)
  | NotFound => Throw ("No market data for marketId: " ++ marketId)
  | MarketWithoutState => Normal {| state := None |}
  | MarketWithState s => Normal {| state := Some s |}
  end.

(** ** Console *)

Inductive LogEntry :=
| WarnNoMarketDataForPosition (position_id : Z) (market_id : string)
| WarnNoMarketDataForVault (market_name vault_name : string)
| LogReimbursementCreated (position_id : Z) (amount : Q)
| LogAllocation (vault_name market_name : string) (earned above_cap : Q)
| ErrorProcessingPosition (position_id : Z) (message : string)
| ErrorProcessingAllocation (vault_name market_name : string) (message : string)
| LogFound (n : nat)
| LogNothingToProcess
| LogProcessed (processedCount total : nat)
| LogReimbursementsCreated (n : nat)
| LogSummaryTitle                        (* 'Vault Supply Interest Summary:' *)
| LogRule                                (* sixty dashes *)
| LogAllocationsProcessed (n : nat)
| LogToken (loan_asset : string)
| LogTokenInterestEarned (loan_asset : string) (total : Q)
| LogTokenAboveCap (loan_asset : string) (total : Q)
| LogAvgSupplyApy (percent : Q).

(** ** InterestService (interestService.ts) *)

Module InterestService.

(** A row of [getActivePositions]: [bp.*] joined with its market. *)
Definition PositionRow := (BorrowerPosition * Market)%type.

Definition id (position : PositionRow) : Z := bp_id (fst position).
Definition market_id (position : PositionRow) : string := bp_market_id (fst position).
Definition current_debt (position : PositionRow) : Q := bp_current_debt (fst position).

(** SELECT bp.*, m.name, m.apr_cap FROM borrower_positions bp
    JOIN markets m ON bp.market_id = m.market_id
    WHERE bp.status = 'active' ORDER BY bp.id *)
Definition getActivePositions (st : Store) : list PositionRow :=
  sort_by (fun a b => (id a <=? id b)%Z)
    (filter (fun row => PositionStatus_eqb (bp_status (fst row)) active)
       (join (fun bp m => String.eqb (bp_market_id bp) (m_market_id m))
          (borrower_positions st) (markets st))).

(** SELECT apr_cap FROM markets WHERE market_id = $1, then
    [result.rows[0]?.apr_cap || 0.15]: the default is taken when no row
    comes back; the DECIMAL of a row is a non-empty text, hence truthy. *)
Definition getCappedRate (st : Store) (marketId : string) : Q :=
  match filter (fun m => String.eqb (m_market_id m) marketId) (markets st) with
  | [] => 0.15
  | m :: _ => m_apr_cap m
  end.

(** INSERT INTO interest_snapshots (...) VALUES (...): a plain insert. *)
Definition saveInterestSnapshot (data : InterestSnapshot) (st : Store) : Store :=
  with_interest_snapshots (interest_snapshots st ++ [data]) st.

(** INSERT INTO reimbursements (position_id, amount, period_start,
    period_end, status)
    VALUES ($1, $2, CURRENT_DATE - INTERVAL '1 day', CURRENT_DATE, 'pending') *)
Definition createReimbursement (now : timestamp) (positionId : Z) (amount : Q)
    (st : Store) : Store :=
  insert_reimbursement now positionId amount (DATE now - 1)%Z (DATE now) pending st.

(** UPDATE borrower_positions SET current_debt = $1, updated_at = NOW()
    WHERE id = $2 *)
Definition updatePositionDebt (now : timestamp) (positionId : Z) (newDebt : Q)
    (st : Store) : Store :=
  with_borrower_positions
    (map (fun bp =>
            if (bp_id bp =? positionId)%Z
            then {| bp_id := bp_id bp;
                    bp_borrower_id := bp_borrower_id bp;
                    bp_vault_id := bp_vault_id bp;
                    bp_market_id := bp_market_id bp;
                    bp_current_debt := newDebt;
                    bp_updated_at := now;
                    bp_status := bp_status bp |}
            else bp)
       (borrower_positions st))
    st.

(** SELECT COUNT( * ) FROM reimbursements
    WHERE position_id = $1 AND DATE(created_at) = CURRENT_DATE *)
Definition checkRecentReimbursement (now : timestamp) (positionId : Z) (st : Store) : bool :=
  (0 <? Z.of_nat
          (List.length (filter (fun r => (r_position_id r =? positionId)%Z
                                    && (DATE (r_created_at r) =? DATE now)%Z)
                     (reimbursements st))))%Z.

(** The result of one call: how it completed, the store it left and
    what it printed. *)
Record Run (A : Type) := {
  completed_as : completion A;
  store_after : Store;
  console : list LogEntry
}.
Arguments completed_as {A} _.
Arguments store_after {A} _.
Arguments console {A} _.

(** [processPosition]. The snapshot and the reimbursement get the same
    number [interestAboveCap]; the test [interestAboveCap > 0] is on the
    number as computed, before the column rounds it
    ([Binary64.createsReimbursement]). [new Date()] and CURRENT_DATE are
    both the day of [now]. *)
Definition processPosition (rs : RateSource) (now : timestamp)
    (position : PositionRow) (st : Store) : Run unit :=
  match getMarketState rs (market_id position) with
  | Throw message =>
      {| completed_as := Throw message; store_after := st; console := [] |}
  | Normal marketData =>
      match state marketData with
      | None =>
          {| completed_as := Normal tt;
             store_after := st;
             console := [WarnNoMarketDataForPosition (id position) (market_id position)] |}
      | Some marketState =>
          let currentBorrowApy := borrowApy marketState in
          let cappedRate := getCappedRate st (market_id position) in
          let dailyRate := currentBorrowApy / 365 in
          let interestAccrued := current_debt position * dailyRate in
          let cappedDailyRate := cappedRate / 365 in
          let cappedInterest := current_debt position * cappedDailyRate in
          let interestAboveCap := Math_max 0 (interestAccrued - cappedInterest) in
          let st1 :=
            saveInterestSnapshot
              {| i_position_id := id position;
                 i_snapshot_date := DATE now;
                 i_current_rate := currentBorrowApy;
                 i_capped_rate := cappedRate;
                 i_interest_accrued := interestAccrued;
                 i_interest_above_cap := interestAboveCap |} st in
          let st2 :=
            if Qlt_bool 0 interestAboveCap
            then createReimbursement now (id position) interestAboveCap st1
            else st1 in
          let newDebt := current_debt position + interestAccrued in
          {| completed_as := Normal tt;
             store_after := updatePositionDebt now (id position) newDebt st2;
             console :=
               if Qlt_bool 0 interestAboveCap
               then [LogReimbursementCreated (id position) interestAboveCap]
               else [] |}
      end
  end.

(** The loop of [processDailySnapshot] over the rows fetched at the
    start, with its two counters; an exception of [processPosition] is
    caught, printed, and the loop goes on. *)
Fixpoint processPositions (rs : RateSource) (now : timestamp)
    (positions : list PositionRow) (st : Store)
    (processedCount reimbursementsCreated : nat)
    : Store * nat * nat * list LogEntry :=
  match positions with
  | [] => (st, processedCount, reimbursementsCreated, [])
  | position :: rest =>
      let r := processPosition rs now position st in
      match completed_as r with
      | Normal _ =>
          let hasReimbursement := checkRecentReimbursement now (id position) (store_after r) in
          let '(st', p, c, out) :=
            processPositions rs now rest (store_after r) (S processedCount)
              (if hasReimbursement then S reimbursementsCreated else reimbursementsCreated) in
          (st', p, c, console r ++ out)
      | Throw message =>
          let '(st', p, c, out) :=
            processPositions rs now rest (store_after r) processedCount reimbursementsCreated in
          (st', p, c, console r ++ ErrorProcessingPosition (id position) message :: out)
      end
  end.

Definition processDailySnapshot (rs : RateSource) (now : timestamp) (st : Store)
    : Run unit :=
  let positions := getActivePositions st in
  if (List.length positions =? 0)%nat
  then {| completed_as := Normal tt;
          store_after := st;
          console := [LogFound 0; LogNothingToProcess] |}
  else
    let '(st', processedCount, reimbursementsCreated, out) :=
      processPositions rs now positions st 0 0 in
    {| completed_as := Normal tt;
       store_after := st';
       console := LogFound (List.length positions) :: out
                  ++ [LogProcessed processedCount (List.length positions);
                      LogReimbursementsCreated reimbursementsCreated] |}.

End InterestService.

(** ** ReimbursementService, [getStats] *)

Module ReimbursementStats.

Record StatusStats := {
  count : nat;
  totalAmount : Q
}.

Record Stats := {
  pending_stats : StatusStats;
  completed_stats : StatusStats;
  failed_stats : StatusStats
}.

(** SUM(amount) over rows, as Postgres adds them up. *)
Definition SUM (amounts : list Q) : Q := fold_left Qplus amounts 0.

(** SELECT status, COUNT( * ), COALESCE(SUM(amount), 0)
    FROM reimbursements GROUP BY status: one row for each status that
    occurs. *)
Definition group_by_status (st : Store) : list (ReimbursementStatus * nat * Q) :=
  flat_map (fun status =>
              match filter (fun r => ReimbursementStatus_eqb (r_status r) status)
                      (reimbursements st) with
              | [] => []
              | rows => [(status, List.length rows, SUM (map r_amount rows))]
              end)
    [pending; completed; failed].

(** [stats[status] = { count, totalAmount }] *)
Definition set_stats (stats : Stats) (row : ReimbursementStatus * nat * Q) : Stats :=
  let entry := {| count := snd (fst row); totalAmount := snd row |} in
  match fst (fst row) with
  | pending => {| pending_stats := entry;
                  completed_stats := completed_stats stats;
                  failed_stats := failed_stats stats |}
  | completed => {| pending_stats := pending_stats stats;
                    completed_stats := entry;
                    failed_stats := failed_stats stats |}
  | failed => {| pending_stats := pending_stats stats;
                 completed_stats := completed_stats stats;
                 failed_stats := entry |}
  end.

Definition getStats (st : Store) : Stats :=
  fold_left set_stats (group_by_status st)
    {| pending_stats := {| count := 0; totalAmount := 0 |};
       completed_stats := {| count := 0; totalAmount := 0 |};
       failed_stats := {| count := 0; totalAmount := 0 |} |}.
End ReimbursementStats.

(** ** VaultSupplyService, [getTodaySummary] *)

Module SupplySummary.

(** A row of the GROUP BY: one token and the figures of its rows. *)
Record TokenSummary := {
  loan_asset : string;
  allocations_processed : nat;
  total_interest_earned : Q;
  total_above_cap : Q;
  avg_supply_apy : Q
}.

Record Overall := {
  overall_allocations_processed : nat;
  overall_total_interest_earned : Q;
  overall_total_above_cap : Q;
  overall_avg_supply_apy : Q
}.

Record TodaySummary := {
  byToken : list TokenSummary;
  overall : Overall
}.

(** The rows of the day. *)
Definition today (now : timestamp) (st : Store) : list SupplySnapshot :=
  filter (fun row => (vss_snapshot_date row =? DATE now)%Z) (vault_supply_snapshots st).

(** SELECT loan_asset, COUNT( * ), SUM(interest_earned),
           SUM(interest_above_cap), AVG(supply_apy)
    FROM vault_supply_snapshots WHERE DATE(snapshot_date) = CURRENT_DATE
    GROUP BY loan_asset ORDER BY loan_asset *)
Definition by_token (now : timestamp) (st : Store) : list TokenSummary :=
  map (fun token =>
         let rows := filter (fun row => String.eqb (vss_loan_asset row) token)
                       (today now st) in
         {| loan_asset := token;
            allocations_processed := List.length rows;
            total_interest_earned := ReimbursementStats.SUM (map vss_interest_earned rows);
            total_above_cap := ReimbursementStats.SUM (map vss_interest_above_cap rows);
            avg_supply_apy :=
              ReimbursementStats.SUM (map vss_supply_apy rows)
              / inject_Z (Z.of_nat (List.length rows)) |})
    (sort_by String.leb (nodup string_dec (map vss_loan_asset (today now st)))).

(** [rows.length || 1] *)
Definition length_or_1 {A : Type} (rows : list A) : nat :=
  match List.length rows with
  | O => 1
  | n => n
  end.

Definition getTodaySummary (now : timestamp) (st : Store) : TodaySummary :=
  let rows := by_token now st in
  {| byToken := rows;
     overall :=
       {| overall_allocations_processed :=
            fold_left (fun sum r => (sum + allocations_processed r)%nat) rows 0%nat;
          overall_total_interest_earned :=
            fold_left (fun sum r => sum + total_interest_earned r) rows 0;
          overall_total_above_cap :=
            fold_left (fun sum r => sum + total_above_cap r) rows 0;
          overall_avg_supply_apy :=
            fold_left (fun sum r => sum + avg_supply_apy r) rows 0
            / inject_Z (Z.of_nat (length_or_1 rows)) |} |}.
End SupplySummary.

(** ** VaultSupplyService (vaultSupplyService.ts) *)

Module VaultSupplyService.
Import InterestService.

(** A row of [getActiveVaultAllocations]. *)
Definition AllocationRow := (VaultAllocation * Vault * Market)%type.

Definition vault_id (a : AllocationRow) : Z := va_vault_id (fst (fst a)).
Definition market_id (a : AllocationRow) : string := va_market_id (fst (fst a)).
Definition supply_assets (a : AllocationRow) : Q := va_supply_assets (fst (fst a)).
Definition vault_name (a : AllocationRow) : string := v_name (snd (fst a)).
Definition market_name (a : AllocationRow) : string := m_name (snd a).
Definition apr_cap (a : AllocationRow) : Q := m_apr_cap (snd a).
Definition loan_asset (a : AllocationRow) : string := m_loan_asset (snd a).

(** ORDER BY v.name, m.name *)
Definition by_names (a b : AllocationRow) : bool :=
  match String.compare (vault_name a) (vault_name b) with
  | Lt => true
  | Gt => false
  | Eq => String.leb (market_name a) (market_name b)
  end.

(** SELECT ... FROM vault_allocations va
    JOIN vaults v ON v.id = va.vault_id
    JOIN markets m ON m.market_id = va.market_id
    WHERE va.supply_assets > 0 ORDER BY v.name, m.name *)
Definition getActiveVaultAllocations (st : Store) : list AllocationRow :=
  sort_by by_names
    (filter (fun row => Qlt_bool 0 (supply_assets row))
       (join (fun vav m => String.eqb (m_market_id m) (va_market_id (fst vav)))
          (join (fun va v => (v_id v =? va_vault_id va)%Z)
             (vault_allocations st) (vaults st))
          (markets st))).

(** The nine parameters of the INSERT. *)
Record SupplySnapshotData := {
  d_vault_id : Z;
  d_market_id : string;
  d_snapshot_date : date;
  d_supply_amount : Q;
  d_supply_apy : Q;
  d_capped_apy : Q;
  d_interest_earned : Q;
  d_interest_above_cap : Q;
  d_loan_asset : string
}.

(** The conflict target (vault_id, market_id, snapshot_date). *)
Definition conflicts (data : SupplySnapshotData) (row : SupplySnapshot) : bool :=
  (vss_vault_id row =? d_vault_id data)%Z
  && String.eqb (vss_market_id row) (d_market_id data)
  && (vss_snapshot_date row =? d_snapshot_date data)%Z.

(** DO UPDATE SET supply_amount = $4, ..., loan_asset = $9 *)
Definition do_update (data : SupplySnapshotData) (row : SupplySnapshot) : SupplySnapshot :=
  {| vss_vault_id := vss_vault_id row;
     vss_market_id := vss_market_id row;
     vss_snapshot_date := vss_snapshot_date row;
     vss_supply_amount := d_supply_amount data;
     vss_supply_apy := d_supply_apy data;
     vss_capped_apy := d_capped_apy data;
     vss_interest_earned := d_interest_earned data;
     vss_interest_above_cap := d_interest_above_cap data;
     vss_loan_asset := d_loan_asset data;
     vss_created_at := vss_created_at row |}.

(** INSERT INTO vault_supply_snapshots (...) VALUES (...)
    ON CONFLICT (vault_id, market_id, snapshot_date) DO UPDATE SET ... *)
Definition saveSupplySnapshot (now : timestamp) (data : SupplySnapshotData)
    (st : Store) : Store :=
  with_vault_supply_snapshots
    (if existsb (conflicts data) (vault_supply_snapshots st)
     then map (fun row => if conflicts data row then do_update data row else row)
            (vault_supply_snapshots st)
     else vault_supply_snapshots st ++
            [{| vss_vault_id := d_vault_id data;
                vss_market_id := d_market_id data;
                vss_snapshot_date := d_snapshot_date data;
                vss_supply_amount := d_supply_amount data;
                vss_supply_apy := d_supply_apy data;
                vss_capped_apy := d_capped_apy data;
                vss_interest_earned := d_interest_earned data;
                vss_interest_above_cap := d_interest_above_cap data;
                vss_loan_asset := d_loan_asset data;
                vss_created_at := now |}])
    st.

Definition processAllocation (rs : RateSource) (now : timestamp)
    (allocation : AllocationRow) (st : Store) : Run unit :=
  match getMarketState rs (market_id allocation) with
  | Throw message =>
      {| completed_as := Throw message; store_after := st; console := [] |}
  | Normal marketData =>
      match state marketData with
      | None =>
          {| completed_as := Normal tt;
             store_after := st;
             console := [WarnNoMarketDataForVault (market_name allocation)
                           (vault_name allocation)] |}
      | Some marketState =>
          let currentSupplyApy := supplyApy marketState in
          let cappedApy := apr_cap allocation in
          let supplyAmount := supply_assets allocation in
          let dailyRate := currentSupplyApy / 365 in
          let interestEarned := supplyAmount * dailyRate in
          let cappedDailyRate := cappedApy / 365 in
          let cappedInterest := supplyAmount * cappedDailyRate in
          let interestAboveCap := Math_max 0 (interestEarned - cappedInterest) in
          {| completed_as := Normal tt;
             store_after :=
               saveSupplySnapshot now
                 {| d_vault_id := vault_id allocation;
                    d_market_id := market_id allocation;
                    d_snapshot_date := DATE now;
                    d_supply_amount := supplyAmount;
                    d_supply_apy := currentSupplyApy;
                    d_capped_apy := cappedApy;
                    d_interest_earned := interestEarned;
                    d_interest_above_cap := interestAboveCap;
                    d_loan_asset := loan_asset allocation |} st;
             console := [LogAllocation (vault_name allocation) (market_name allocation)
                           interestEarned interestAboveCap] |}
      end
  end.

Fixpoint processAllocations (rs : RateSource) (now : timestamp)
    (allocations : list AllocationRow) (st : Store) (processedCount : nat)
    : Store * nat * list LogEntry :=
  match allocations with
  | [] => (st, processedCount, [])
  | allocation :: rest =>
      let r := processAllocation rs now allocation st in
      match completed_as r with
      | Normal _ =>
          let '(st', p, out) :=
            processAllocations rs now rest (store_after r) (S processedCount) in
          (st', p, console r ++ out)
      | Throw message =>
          let '(st', p, out) :=
            processAllocations rs now rest (store_after r) processedCount in
          (st', p, console r ++
                   ErrorProcessingAllocation (vault_name allocation)
                     (market_name allocation) message :: out)
      end
  end.

(** The summary block printed after the loop: the title between two
    rules, the number of allocations, three lines for each token and the
    average APY in percent. The figures are the numbers handed to
    [toFixed]; [total || "0"] is the total, a non-empty text. *)
Definition summary_lines (summary : SupplySummary.TodaySummary) : list LogEntry :=
  [LogSummaryTitle; LogRule;
   LogAllocationsProcessed
     (SupplySummary.overall_allocations_processed (SupplySummary.overall summary))]
  ++ flat_map (fun token =>
                 [LogToken (SupplySummary.loan_asset token);
                  LogTokenInterestEarned (SupplySummary.loan_asset token)
                    (SupplySummary.total_interest_earned token);
                  LogTokenAboveCap (SupplySummary.loan_asset token)
                    (SupplySummary.total_above_cap token)])
       (SupplySummary.byToken summary)
  ++ [LogAvgSupplyApy
        (SupplySummary.overall_avg_supply_apy (SupplySummary.overall summary) * 100);
      LogRule].

(** With no allocation the method returns before the summary; otherwise
    it reads the summary of the day from the store the loop left and
    prints it after 'Processed p/n'. The banner printed first is left
    out. *)
Definition processDailySupplySnapshots (rs : RateSource) (now : timestamp) (st : Store)
    : Run unit :=
  let allocations := getActiveVaultAllocations st in
  if (List.length allocations =? 0)%nat
  then {| completed_as := Normal tt;
          store_after := st;
          console := [LogFound 0; LogNothingToProcess] |}
  else
    let '(st', processedCount, out) := processAllocations rs now allocations st 0 in
    let summary := SupplySummary.getTodaySummary now st' in
    {| completed_as := Normal tt;
       store_after := st';
       console := LogFound (List.length allocations) :: out
                  ++ LogProcessed processedCount (List.length allocations)
                     :: summary_lines summary |}.

End VaultSupplyService.

(** ** ReimbursementService (reimbursementService.ts), processing methods

    The console output of these methods is not modelled. *)

Module ReimbursementService.

(** A row of the two SELECTs with joins: a snapshot or a reimbursement
    [x] with its position, the position's market and, through the LEFT
    JOINs, its vault and its borrower if any. *)
Definition Joined (X : Type) : Type :=
  (X * BorrowerPosition * Market * option Vault * option Borrower)%type.

Definition subject {X} (row : Joined X) : X := fst (fst (fst (fst row))).
Definition position_of {X} (row : Joined X) : BorrowerPosition := snd (fst (fst (fst row))).
Definition market_of {X} (row : Joined X) : Market := snd (fst (fst row)).
Definition vault_of {X} (row : Joined X) : option Vault := snd (fst row).
Definition borrower_of {X} (row : Joined X) : option Borrower := snd row.

(** x JOIN borrower_positions bp ON bp.id = x.position_id
      JOIN markets m ON m.market_id = bp.market_id
      LEFT JOIN vaults v ON v.id = bp.vault_id
      LEFT JOIN borrowers b ON b.id = bp.borrower_id *)
Definition with_owner {X} (position_id : X -> Z) (xs : list X) (st : Store)
    : list (Joined X) :=
  left_join (fun row b => match bp_borrower_id (snd (fst (fst row))) with
                          | Some i => (b_id b =? i)%Z
                          | None => false
                          end)
    (left_join (fun row v => match bp_vault_id (snd (fst row)) with
                             | Some i => (v_id v =? i)%Z
                             | None => false
                             end)
       (join (fun row m => String.eqb (m_market_id m) (bp_market_id (snd row)))
          (join (fun x bp => (bp_id bp =? position_id x)%Z) xs (borrower_positions st))
          (markets st))
       (vaults st))
    (borrowers st).

(** SELECT i.position_id, i.interest_above_cap, i.snapshot_date, ...
    FROM interest_snapshots i JOIN ... LEFT JOIN ...
    WHERE i.snapshot_date = $1::date AND i.interest_above_cap > 0
      AND bp.status = 'active' *)
Definition positionsNeedingReimbursement (date : timestamp) (st : Store)
    : list (Joined InterestSnapshot) :=
  filter (fun row => (i_snapshot_date (subject row) =? DATE date)%Z
                     && Qlt_bool 0 (i_interest_above_cap (subject row))
                     && PositionStatus_eqb (bp_status (position_of row)) active)
    (with_owner i_position_id (interest_snapshots st) st).

(** SELECT id FROM reimbursements
    WHERE position_id = $1 AND period_start = $2 AND period_end = $2 *)
Definition existing (position_id : Z) (snapshot_date : date) (st : Store)
    : list Reimbursement :=
  filter (fun r => (r_position_id r =? position_id)%Z
                   && (r_period_start r =? snapshot_date)%Z
                   && (r_period_end r =? snapshot_date)%Z)
    (reimbursements st).

(** The loop of [createReimbursementEntries]; every statement runs on
    the store the previous ones left. *)
Fixpoint createEntries (now : timestamp) (rows : list (Joined InterestSnapshot))
    (st : Store) (createdCount : nat) : Store * nat :=
  match rows with
  | [] => (st, createdCount)
  | position :: rest =>
      match existing (i_position_id (subject position))
              (i_snapshot_date (subject position)) st with
      | _ :: _ => createEntries now rest st createdCount
      | [] =>
          createEntries now rest
            (insert_reimbursement now
               (i_position_id (subject position))
               (i_interest_above_cap (subject position))
               (i_snapshot_date (subject position))
               (i_snapshot_date (subject position))
               pending st)
            (S createdCount)
      end
  end.

Definition createReimbursementEntries (now : timestamp) (date : timestamp) (st : Store)
    : completion nat * Store :=
  let '(st', createdCount) :=
    createEntries now (positionsNeedingReimbursement date st) st 0 in
  (Normal createdCount, st').

(** The payment stub [simulatePayment]: it draws random numbers, so its
    outcome is a function of the rank of the call within the batch as
    well as of its arguments; it returns a transaction hash or throws. *)
Definition PaymentStub := nat -> option string -> Q -> completion string.

(** COALESCE(v.address, b.address) *)
Definition recipient_address {X} (row : Joined X) : option string :=
  match vault_of row with
  | Some v => Some (v_address v)
  | None => match borrower_of row with
            | Some b => Some (b_address b)
            | None => None
            end
  end.

(** SELECT ... FROM reimbursements r JOIN ... LEFT JOIN ...
    WHERE r.status = 'pending' ORDER BY r.created_at ASC LIMIT $1,
    for a limit that is not negative. *)
Definition selectPending (limit : Z) (st : Store) : list (Joined Reimbursement) :=
  firstn (Z.to_nat limit)
    (sort_by (fun a b => (r_created_at (subject a) <=? r_created_at (subject b))%Z)
       (filter (fun row => ReimbursementStatus_eqb (r_status (subject row)) pending)
          (with_owner r_position_id (reimbursements st) st))).

(** UPDATE reimbursements SET status = 'completed', tx_hash = $1,
    processed_at = NOW() WHERE id = $2 *)
Definition mark_completed (now : timestamp) (txHash : string) (id : Z) (st : Store) : Store :=
  with_reimbursements
    (map (fun r => if (r_id r =? id)%Z
                   then {| r_id := r_id r;
                           r_position_id := r_position_id r;
                           r_amount := r_amount r;
                           r_period_start := r_period_start r;
                           r_period_end := r_period_end r;
                           r_status := completed;
                           r_tx_hash := Some txHash;
                           r_created_at := r_created_at r;
                           r_processed_at := Some now |}
                   else r)
       (reimbursements st))
    (reimbursements_id_seq st) st.

(** UPDATE reimbursements SET status = 'failed', processed_at = NOW()
    WHERE id = $1 *)
Definition mark_failed (now : timestamp) (id : Z) (st : Store) : Store :=
  with_reimbursements
    (map (fun r => if (r_id r =? id)%Z
                   then {| r_id := r_id r;
                           r_position_id := r_position_id r;
                           r_amount := r_amount r;
                           r_period_start := r_period_start r;
                           r_period_end := r_period_end r;
                           r_status := failed;
                           r_tx_hash := r_tx_hash r;
                           r_created_at := r_created_at r;
                           r_processed_at := Some now |}
                   else r)
       (reimbursements st))
    (reimbursements_id_seq st) st.

(** The object returned, [{ processed, failed, totalAmount }]; its field
    [failed] is [failed_count] here, [failed] being the status.
    [totalAmount] is held as the exact sum of the amounts paid; the code
    adds them up as binary64 numbers, so the number it returns is that
    sum up to rounding, and no property below is stated of it. *)
Record ProcessResult := {
  processed : nat;
  failed_count : nat;
  totalAmount : Q
}.

(** The loop of [processPendingReimbursements]: the inner try/catch
    turns an exception of the payment into the 'failed' update. *)
Fixpoint processSelected (pay : PaymentStub) (now : timestamp)
    (rows : list (Joined Reimbursement)) (call : nat) (st : Store)
    (acc : ProcessResult) : Store * ProcessResult :=
  match rows with
  | [] => (st, acc)
  | reimbursement :: rest =>
      match pay call (recipient_address reimbursement)
              (r_amount (subject reimbursement)) with
      | Normal txHash =>
          processSelected pay now rest (S call)
            (mark_completed now txHash (r_id (subject reimbursement)) st)
            {| processed := S (processed acc);
               failed_count := failed_count acc;
               totalAmount := totalAmount acc + r_amount (subject reimbursement) |}
      | Throw _ =>
          processSelected pay now rest (S call)
            (mark_failed now (r_id (subject reimbursement)) st)
            {| processed := processed acc;
               failed_count := S (failed_count acc);
               totalAmount := totalAmount acc |}
      end
  end.

(** Postgres rejects a negative LIMIT; the outer catch rolls back and
    throws again. *)
Definition processPendingReimbursements (pay : PaymentStub) (now : timestamp)
    (limit : Z) (st : Store) : completion ProcessResult * Store :=
  if (limit <? 0)%Z then (Throw "LIMIT must not be negative", st)
  else
    let '(st', result) :=
      processSelected pay now (selectPending limit st) 0 st
        {| processed := 0; failed_count := 0; totalAmount := 0 |} in
    (Normal result, st').

(** SELECT id FROM reimbursements WHERE status = 'failed'
    ORDER BY created_at DESC LIMIT $1 *)
Definition selectFailed (limit : Z) (st : Store) : list Z :=
  map r_id
    (firstn (Z.to_nat limit)
       (sort_by (fun a b => (r_created_at b <=? r_created_at a)%Z)
          (filter (fun r => ReimbursementStatus_eqb (r_status r) failed)
             (reimbursements st)))).

(** WHERE status = 'failed' AND id IN (...) *)
Definition retried (ids : list Z) (r : Reimbursement) : bool :=
  ReimbursementStatus_eqb (r_status r) failed
  && existsb (fun i => (r_id r =? i)%Z) ids.

(** SET status = 'pending', tx_hash = NULL, processed_at = NULL *)
Definition reset (r : Reimbursement) : Reimbursement :=
  {| r_id := r_id r;
     r_position_id := r_position_id r;
     r_amount := r_amount r;
     r_period_start := r_period_start r;
     r_period_end := r_period_end r;
     r_status := pending;
     r_tx_hash := None;
     r_created_at := r_created_at r;
     r_processed_at := None |}.

(** UPDATE reimbursements SET ... WHERE status = 'failed' AND id IN
    (SELECT ...) RETURNING id; the result is the number of rows
    returned. The method never calls the payment stub. Postgres rejects
    a negative LIMIT when it runs the sub-select, which it does for the
    rows that are failed: with none, the statement updates nothing and
    the method returns 0; otherwise the catch rolls back and throws
    again. *)
Definition retryFailedReimbursements (limit : Z) (st : Store) : completion nat * Store :=
  if (limit <? 0)%Z
  then match filter (fun r => ReimbursementStatus_eqb (r_status r) failed)
               (reimbursements st) with
       | [] => (Normal 0%nat, st)
       | _ :: _ => (Throw "LIMIT must not be negative", st)
       end
  else
    let ids := selectFailed limit st in
    (Normal (List.length (filter (retried ids) (reimbursements st))),
     with_reimbursements
       (map (fun r => if retried ids r then reset r else r) (reimbursements st))
       (reimbursements_id_seq st) st).

End ReimbursementService.

(** ** Vocabulary of the statements *)

Module InterestTerms.
Import InterestService.

(** The snapshot [processPosition] writes for a position whose market
    has a state. *)
Definition snapshot_of (now : timestamp) (st : Store) (position : PositionRow)
    (s : MarketStateData) : InterestSnapshot :=
  {| i_position_id := id position;
     i_snapshot_date := DATE now;
     i_current_rate := borrowApy s;
     i_capped_rate := getCappedRate st (market_id position);
     i_interest_accrued := current_debt position * (borrowApy s / 365);
     i_interest_above_cap :=
       Math_max 0 (current_debt position * (borrowApy s / 365)
                   - current_debt position * (getCappedRate st (market_id position) / 365)) |}.

End InterestTerms.

Module SupplyTerms.
Import VaultSupplyService.

(** The parameters [processAllocation] hands to [saveSupplySnapshot]
    for an allocation whose market has a state. *)
Definition data_of (now : timestamp) (allocation : AllocationRow)
    (s : MarketStateData) : SupplySnapshotData :=
  {| d_vault_id := vault_id allocation;
     d_market_id := market_id allocation;
     d_snapshot_date := DATE now;
     d_supply_amount := supply_assets allocation;
     d_supply_apy := supplyApy s;
     d_capped_apy := apr_cap allocation;
     d_interest_earned := supply_assets allocation * (supplyApy s / 365);
     d_interest_above_cap :=
       Math_max 0 (supply_assets allocation * (supplyApy s / 365)
                   - supply_assets allocation * (apr_cap allocation / 365));
     d_loan_asset := loan_asset allocation |}.

(** [row] is the snapshot of the key of [data] and carries its values. *)
Definition carries (data : SupplySnapshotData) (row : SupplySnapshot) : Prop :=
  vss_supply_amount row = d_supply_amount data
  /\ vss_supply_apy row = d_supply_apy data
  /\ vss_capped_apy row = d_capped_apy data
  /\ vss_interest_earned row = d_interest_earned data
  /\ vss_interest_above_cap row = d_interest_above_cap data
  /\ vss_loan_asset row = d_loan_asset data.

(** The key of [data] has a row in [t], and overwriting the rows of that
    key with [data] changes nothing. *)
Definition settled (data : SupplySnapshotData) (t : list SupplySnapshot) : Prop :=
  (exists row, In row t /\ conflicts data row = true)
  /\ forall row, In row t -> conflicts data row = true -> do_update data row = row.

Definition allocation_key (a : AllocationRow) : Z * string := (vault_id a, market_id a).

(** The columns of UNIQUE(vault_id, market_id, snapshot_date). *)
Definition snapshot_key (row : SupplySnapshot) : Z * string * date :=
  (vss_vault_id row, vss_market_id row, vss_snapshot_date row).

Definition data_key (data : SupplySnapshotData) : Z * string * date :=
  (d_vault_id data, d_market_id data, d_snapshot_date data).
End SupplyTerms.

Module ReimbursementTerms.
Import ReimbursementService.

(** The columns every freshly inserted reimbursement has. *)
Definition fresh (now : timestamp) (r : Reimbursement) : Prop :=
  r_status r = pending /\ r_tx_hash r = None /\ r_processed_at r = None
  /\ r_created_at r = now.

(** [r] pays the excess of a snapshot of [snaps] taken on [day]. *)
Definition pays_snapshot (snaps : list InterestSnapshot) (day : date)
    (r : Reimbursement) : Prop :=
  exists snap, In snap snaps
               /\ i_position_id snap = r_position_id r
               /\ i_snapshot_date snap = day
               /\ i_interest_above_cap snap = r_amount r
               /\ 0 < i_interest_above_cap snap.

(** [r] carries as its amount the excess a snapshot of [snaps], of its
    position and taken on [day], records. *)
Definition carries_excess (snaps : list InterestSnapshot) (day : date)
    (r : Reimbursement) : Prop :=
  exists snap, In snap snaps
               /\ i_position_id snap = r_position_id r
               /\ i_snapshot_date snap = day
               /\ i_interest_above_cap snap = r_amount r.

(** [p] is the id of a stored active position, in a stored market, with
    a stored snapshot of [day] that records a positive excess: what the
    SELECT of [createReimbursementEntries] asks of a row. *)
Definition needs_reimbursement (day : date) (st : Store) (p : Z) : Prop :=
  exists snap bp m,
    In snap (interest_snapshots st) /\ i_position_id snap = p
    /\ i_snapshot_date snap = day /\ 0 < i_interest_above_cap snap
    /\ In bp (borrower_positions st) /\ bp_id bp = p /\ bp_status bp = active
    /\ In m (markets st) /\ m_market_id m = bp_market_id bp.

(** What [processPosition] inserts: the period runs from the day before
    to the day of the snapshot. *)
Definition created_inline (now : timestamp) (snaps : list InterestSnapshot)
    (r : Reimbursement) : Prop :=
  fresh now r
  /\ r_period_start r = (DATE now - 1)%Z /\ r_period_end r = DATE now
  /\ pays_snapshot snaps (DATE now) r.

(** What [createReimbursementEntries] inserts into the store [st] it
    found: the period is the day of the snapshot, and [st] had no
    reimbursement of that position and period. *)
Definition created_entry (now : timestamp) (day : date) (st : Store)
    (r : Reimbursement) : Prop :=
  fresh now r
  /\ r_period_start r = day /\ r_period_end r = day
  /\ pays_snapshot (interest_snapshots st) day r
  /\ existing (r_position_id r) day st = [].

(** The rows a borrower run has added so far to the store [st0] it
    started from. *)
Definition added (now : timestamp) (st0 st : Store) : Prop :=
  exists written created,
    interest_snapshots st = interest_snapshots st0 ++ written
    /\ reimbursements st = reimbursements st0 ++ created
    /\ Forall (fun snap => 0 <= i_interest_above_cap snap) written
    /\ Forall (created_inline now written) created.

Definition period_key (r : Reimbursement) : Z * date := (r_position_id r, r_period_start r).

(** [r'] is [r] set back to pending: no payment reference, no
    processing time, every other column as it was. *)
Definition reset_of (r r' : Reimbursement) : Prop :=
  r_status r' = pending /\ r_tx_hash r' = None /\ r_processed_at r' = None
  /\ r_id r' = r_id r /\ r_position_id r' = r_position_id r
  /\ r_amount r' = r_amount r
  /\ r_period_start r' = r_period_start r /\ r_period_end r' = r_period_end r
  /\ r_created_at r' = r_created_at r.

Definition newest_first (a b : Reimbursement) : bool :=
  (r_created_at b <=? r_created_at a)%Z.

Definition oldest_first (a b : Reimbursement) : bool :=
  (r_created_at a <=? r_created_at b)%Z.

(** The rows the sub-select of the retry picks. *)
Definition chosen (limit : Z) (st : Store) : list Reimbursement :=
  firstn (Z.to_nat limit)
    (sort_by newest_first
       (filter (fun r => ReimbursementStatus_eqb (r_status r) failed)
          (reimbursements st))).

(** The reimbursements [processPendingReimbursements] selects, in the
    order it pays them. *)
Definition picked (limit : Z) (st : Store) : list Reimbursement :=
  firstn (Z.to_nat limit)
    (sort_by oldest_first
       (filter (fun r => ReimbursementStatus_eqb (r_status r) pending)
          (reimbursements st))).

(** [r] after the update of a successful payment. *)
Definition completed_with (now : timestamp) (txHash : string) (r : Reimbursement)
    : Reimbursement :=
  {| r_id := r_id r;
     r_position_id := r_position_id r;
     r_amount := r_amount r;
     r_period_start := r_period_start r;
     r_period_end := r_period_end r;
     r_status := completed;
     r_tx_hash := Some txHash;
     r_created_at := r_created_at r;
     r_processed_at := Some now |}.

(** [r] after the update of a payment that threw. *)
Definition failed_at (now : timestamp) (r : Reimbursement) : Reimbursement :=
  {| r_id := r_id r;
     r_position_id := r_position_id r;
     r_amount := r_amount r;
     r_period_start := r_period_start r;
     r_period_end := r_period_end r;
     r_status := failed;
     r_tx_hash := r_tx_hash r;
     r_created_at := r_created_at r;
     r_processed_at := Some now |}.

(** Whether the payment of [row], made as call number [call],
    returns. *)
Definition succeeds (pay : PaymentStub) (call : nat) (row : Joined Reimbursement) : bool :=
  match pay call (recipient_address row) (r_amount (subject row)) with
  | Normal _ => true
  | Throw _ => false
  end.

(** How many payments of a batch starting at call number [call]
    return. *)
Fixpoint successes (pay : PaymentStub) (call : nat) (rows : list (Joined Reimbursement))
    : nat :=
  match rows with
  | [] => 0
  | row :: rest => (if succeeds pay call row then 1 else 0) + successes pay (S call) rest
  end.

(** The store after the payment of one row. *)
Definition paid (pay : PaymentStub) (now : timestamp) (call : nat)
    (row : Joined Reimbursement) (st : Store) : Store :=
  match pay call (recipient_address row) (r_amount (subject row)) with
  | Normal txHash => mark_completed now txHash (r_id (subject row)) st
  | Throw _ => mark_failed now (r_id (subject row)) st
  end.

(** Only the reimbursements and their sequence differ. *)
Definition same_but_reimbursements (st st' : Store) : Prop :=
  markets st' = markets st /\ vaults st' = vaults st /\ borrowers st' = borrowers st
  /\ vault_allocations st' = vault_allocations st
  /\ borrower_positions st' = borrower_positions st
  /\ interest_snapshots st' = interest_snapshots st
  /\ vault_supply_snapshots st' = vault_supply_snapshots st.
End ReimbursementTerms.

Module RunTerms.
Definition count_of (x : Store * nat * nat * list LogEntry) : nat := snd (fst (fst x)).
Definition output_of (x : Store * nat * nat * list LogEntry) : list LogEntry := snd x.

(** The rate source has no market of that id. *)
Definition not_found (rs : RateSource) (market_id : string) : bool :=
  match rs market_id with NotFound => true | _ => false end.

(** The position [bp] after [UPDATE ... SET current_debt = d,
    updated_at = NOW()]. *)
Definition with_debt (now : timestamp) (d : Q) (bp : BorrowerPosition) : BorrowerPosition :=
  {| bp_id := bp_id bp;
     bp_borrower_id := bp_borrower_id bp;
     bp_vault_id := bp_vault_id bp;
     bp_market_id := bp_market_id bp;
     bp_current_debt := d;
     bp_updated_at := now;
     bp_status := bp_status bp |}.

Definition final_store (x : Store * nat * nat * list LogEntry) : Store :=
  fst (fst (fst x)).
End RunTerms.

(** ** Sample data *)

Module Sample.
Import InterestService VaultSupplyService.
Open Scope string_scope.

Definition market (market_id : string) (cap : Q) : Market :=
  {| m_market_id := market_id; m_name := market_id;
     m_loan_asset := "USDC"; m_apr_cap := cap |}.

Definition position (i : Z) (market_id : string) (debt : Q) : BorrowerPosition :=
  {| bp_id := i; bp_borrower_id := Some i; bp_vault_id := None;
     bp_market_id := market_id; bp_current_debt := debt;
     bp_updated_at := 0%Z; bp_status := active |}.

Definition borrower (i : Z) : Borrower := {| b_id := i; b_address := "0xb" |}.

(** Noon of day 20000. *)
Definition noon : timestamp := (20000 * 86400 + 43200)%Z.
Definition evening : timestamp := (20000 * 86400 + 72000)%Z.

(** Every market is observed at the same two rates. *)
Definition rates (borrow supply : Q) : RateSource :=
  fun _ => MarketWithState {| borrowApy := borrow; supplyApy := supply |}.

(** One market capped at 12%, one borrower owing 1000, one vault
    supplying 1000. *)
Definition wsteth : Market := market "wstETH/WETH" 0.12.
Definition alice : InterestService.PositionRow := (position 1 "wstETH/WETH" 1000, wsteth).
Definition compound : Vault := {| v_id := 1; v_address := "0xF5C8"; v_name := "Compound WETH" |}.
Definition allocation : VaultSupplyService.AllocationRow :=
  ({| va_vault_id := 1; va_market_id := "wstETH/WETH"; va_supply_assets := 1000 |},
   compound, wsteth).

Definition one_market : Store :=
  {| markets := [wsteth]; vaults := [compound]; borrowers := [borrower 1];
     vault_allocations := [fst (fst allocation)];
     borrower_positions := [fst alice]; interest_snapshots := [];
     vault_supply_snapshots := []; reimbursements := [];
     reimbursements_id_seq := 1%Z |}.

(** The store a first borrower run leaves at noon: one snapshot with a
    positive excess, and the reimbursement created inline. *)
Definition after_noon_run : Store :=
  store_after (processDailySnapshot (rates 0.18 0.18) noon one_market).

(** A market with a negative cap and a borrower owing 1000 in it. *)
Definition subsidised : Market := market "WPOL/USDC" (-0.05).
Definition bob : InterestService.PositionRow := (position 2 "WPOL/USDC" 1000, subsidised).
Definition negative_cap : Store :=
  {| markets := [subsidised]; vaults := []; borrowers := [borrower 2];
     vault_allocations := []; borrower_positions := [fst bob];
     interest_snapshots := []; vault_supply_snapshots := [];
     reimbursements := []; reimbursements_id_seq := 1%Z |}.

(** Three markets with one borrower each; the rate source knows the
    first two only. *)
Definition three_markets : Store :=
  {| markets := [market "wstETH/WETH" 0.12; market "WBTC/USDC" 0.10;
                 market "WPOL/USDC" 0.15];
     vaults := []; borrowers := [borrower 1; borrower 2; borrower 3];
     vault_allocations := [];
     borrower_positions := [position 1 "wstETH/WETH" 1000; position 2 "WBTC/USDC" 500;
                            position 3 "WPOL/USDC" 200];
     interest_snapshots := []; vault_supply_snapshots := [];
     reimbursements := []; reimbursements_id_seq := 1%Z |}.

Definition third_missing : RateSource :=
  fun market_id =>
    if String.eqb market_id "WPOL/USDC" then NotFound
    else MarketWithState {| borrowApy := 0.18; supplyApy := 0.16 |}.

(** The third market comes back without a state. *)
Definition third_without_state : RateSource :=
  fun market_id =>
    if String.eqb market_id "WPOL/USDC" then MarketWithoutState
    else MarketWithState {| borrowApy := 0.18; supplyApy := 0.16 |}.

(** Two failed reimbursements: the first was created on day 19990 and
    failed on day 19993, the second was created on day 19991 and failed
    that same day. *)
Definition old_failed_last : Reimbursement :=
  {| r_id := 1; r_position_id := 1; r_amount := 0.5;
     r_period_start := 19990%Z; r_period_end := 19990%Z; r_status := failed;
     r_tx_hash := None;
     r_created_at := (19990 * 86400)%Z;
     r_processed_at := Some (19993 * 86400)%Z |}.
Definition new_failed_first : Reimbursement :=
  {| r_id := 2; r_position_id := 1; r_amount := 0.25;
     r_period_start := 19991%Z; r_period_end := 19991%Z; r_status := failed;
     r_tx_hash := None;
     r_created_at := (19991 * 86400)%Z;
     r_processed_at := Some (19991 * 86400 + 3600)%Z |}.
Definition two_failed : Store :=
  {| markets := [wsteth]; vaults := [compound]; borrowers := [borrower 1];
     vault_allocations := []; borrower_positions := [fst alice];
     interest_snapshots := []; vault_supply_snapshots := [];
     reimbursements := [old_failed_last; new_failed_first];
     reimbursements_id_seq := 3%Z |}.

(** Two borrowers of one market, each with a snapshot of day 20000 that
    shows an excess, and no reimbursement yet; and a payment stub that
    always throws. *)
Definition two_excesses : Store :=
  {| markets := [wsteth]; vaults := []; borrowers := [borrower 1; borrower 2];
     vault_allocations := [];
     borrower_positions := [position 1 "wstETH/WETH" 1000; position 2 "wstETH/WETH" 500];
     interest_snapshots :=
       [{| i_position_id := 1; i_snapshot_date := 20000%Z; i_current_rate := 0.18;
           i_capped_rate := 0.12; i_interest_accrued := 0.493151;
           i_interest_above_cap := 0.164384 |};
        {| i_position_id := 2; i_snapshot_date := 20000%Z; i_current_rate := 0.18;
           i_capped_rate := 0.12; i_interest_accrued := 0.246575;
           i_interest_above_cap := 0.082192 |}];
     vault_supply_snapshots := []; reimbursements := [];
     reimbursements_id_seq := 1%Z |}.

Definition always_fails : ReimbursementService.PaymentStub :=
  fun _ _ _ => Throw "Simulated payment failure".

(** Twelve pending reimbursements of one position, created one second
    apart, and a payment stub whose seventh call throws. *)
Definition pending_reimbursement (i : Z) : Reimbursement :=
  {| r_id := i; r_position_id := 1; r_amount := 0.5;
     r_period_start := (19980 + i)%Z; r_period_end := (19980 + i)%Z;
     r_status := pending; r_tx_hash := None;
     r_created_at := (1000 + i)%Z; r_processed_at := None |}.

Definition twelve_pending : Store :=
  {| markets := [wsteth]; vaults := [compound]; borrowers := [borrower 1];
     vault_allocations := []; borrower_positions := [fst alice];
     interest_snapshots := []; vault_supply_snapshots := [];
     reimbursements :=
       map pending_reimbursement [1; 2; 3; 4; 5; 6; 7; 8; 9; 10; 11; 12]%Z;
     reimbursements_id_seq := 13%Z |}.

Definition reference (call : nat) : string :=
  "0x" ++ String (Ascii.ascii_of_nat (97 + call)) "".

Definition seventh_fails : ReimbursementService.PaymentStub :=
  fun call _ _ =>
    if (call =? 6)%nat then Throw "Simulated payment failure"
    else Normal (reference call).
End Sample.

(** ** SchedulerService (schedulerService.ts) *)

Module SchedulerService.
Import InterestService VaultSupplyService.

(** [runDailyInterestProcess]: the vault run, then the borrower run on
    the store it left; whatever is thrown is caught and printed, so the
    job itself always returns. Each run reads the clock and asks the
    rate source itself: [supply_rs], [supply_now] are what the vault run
    gets, [debt_rs], [debt_now] what the borrower run gets. The two
    summaries read at the end only query the store; they and the banner
    lines are left out of the console. *)
Definition runDailyInterestProcess (supply_rs : RateSource) (supply_now : timestamp)
    (debt_rs : RateSource) (debt_now : timestamp) (st : Store) : Run unit :=
  let supply := processDailySupplySnapshots supply_rs supply_now st in
  match completed_as supply with
  | Throw _ =>
      {| completed_as := Normal tt;
         store_after := store_after supply;
         console := console supply |}
  | Normal _ =>
      let debt := processDailySnapshot debt_rs debt_now (store_after supply) in
      {| completed_as := Normal tt;
         store_after := store_after debt;
         console := console supply ++ console debt |}
  end.

(** [getNextRunTime]: the copy of now moved to the next day of the month
    ([setUTCDate(getUTCDate() + 1)]) and to 00:00:00.000 UTC
    ([setUTCHours(0, 0, 0, 0)]), in milliseconds since the epoch. *)
Definition getNextRunTime (now_ms : Z) : Z :=
  let tomorrow := (now_ms + 86400000)%Z in
  (tomorrow - tomorrow mod 86400000)%Z.
End SchedulerService.

(** ** APRCalculator (utils/aprCalculations.ts) *)

Module APRCalculator.

(** Simple interest: (Principal * Rate * Time) / 365. *)
Definition calculateDailyInterest (principal aprRate days : Q) : Q :=
  (principal * aprRate * days) / 365.

Definition calculateReimbursement (principal actualRate cappedRate days : Q) : Q :=
  if Qle_bool actualRate cappedRate then 0
  else
    let actualInterest := calculateDailyInterest principal actualRate days in
    let cappedInterest := calculateDailyInterest principal cappedRate days in
    actualInterest - cappedInterest.
End APRCalculator.

(** ** InterestService, [getTodaySummary] *)

Module InterestSummary.
Import InterestService.

(** The row returned; SUM and AVG are NULL over no row. *)
Record TodaySummary := {
  positions_processed : nat;
  total_interest : option Q;
  total_reimbursable : option Q;
  avg_rate : option Q
}.

Definition SUM_or_NULL (column : list Q) : option Q :=
  match column with
  | [] => None
  | _ => Some (ReimbursementStats.SUM column)
  end.

Definition AVG (column : list Q) : option Q :=
  match column with
  | [] => None
  | _ => Some (ReimbursementStats.SUM column / inject_Z (Z.of_nat (List.length column)))
  end.

(** SELECT COUNT(DISTINCT position_id), SUM(interest_accrued),
           SUM(interest_above_cap), AVG(current_rate)
    FROM interest_snapshots WHERE DATE(snapshot_date) = CURRENT_DATE *)
Definition getTodaySummary (now : timestamp) (st : Store) : TodaySummary :=
  let today := filter (fun snap => (i_snapshot_date snap =? DATE now)%Z)
                 (interest_snapshots st) in
  {| positions_processed := List.length (nodup Z.eq_dec (map i_position_id today));
     total_interest := SUM_or_NULL (map i_interest_accrued today);
     total_reimbursable := SUM_or_NULL (map i_interest_above_cap today);
     avg_rate := AVG (map i_current_rate today) |}.

End InterestSummary.

(** ** Sequences of service calls *)

Module Operations.
Import InterestService VaultSupplyService ReimbursementService.

(** One call of a method that writes the store, with its arguments and
    what its collaborators answer during the call. *)
Inductive Operation :=
| DailySupplySnapshots (rs : RateSource) (now : timestamp)
| DailySnapshot (rs : RateSource) (now : timestamp)
| CreateReimbursementEntries (now : timestamp) (date : timestamp)
| ProcessPendingReimbursements (pay : PaymentStub) (now : timestamp) (limit : Z)
| RetryFailedReimbursements (limit : Z).

(** The store a call leaves. *)
Definition perform (op : Operation) (st : Store) : Store :=
  match op with
  | DailySupplySnapshots rs now => store_after (processDailySupplySnapshots rs now st)
  | DailySnapshot rs now => store_after (processDailySnapshot rs now st)
  | CreateReimbursementEntries now date => snd (createReimbursementEntries now date st)
  | ProcessPendingReimbursements pay now limit =>
      snd (processPendingReimbursements pay now limit st)
  | RetryFailedReimbursements limit => snd (retryFailedReimbursements limit st)
  end.

Definition perform_all (ops : list Operation) (st : Store) : Store :=
  fold_left (fun st op => perform op st) ops st.

(** The reimbursement is the same obligation: only its status, payment
    reference and processing time may differ. *)
Definition same_obligation (r r' : Reimbursement) : Prop :=
  r_id r' = r_id r /\ r_position_id r' = r_position_id r
  /\ r_amount r' = r_amount r
  /\ r_period_start r' = r_period_start r /\ r_period_end r' = r_period_end r
  /\ r_created_at r' = r_created_at r.

(** The changes of status one call can make. *)
Definition transition (a b : ReimbursementStatus) : Prop :=
  match a, b with
  | pending, _ => True
  | failed, failed | failed, pending => True
  | completed, completed => True
  | _, _ => False
  end.

(** What every call keeps of the store [st] it starts from: the
    reference tables, the ids and markets of the positions, and the
    reimbursements, each still the same obligation at its place; what it
    adds comes after, under fresh ids of the sequence, for stored
    positions. *)
Definition evolves (st st' : Store) : Prop :=
  markets st' = markets st /\ vaults st' = vaults st /\ borrowers st' = borrowers st
  /\ vault_allocations st' = vault_allocations st
  /\ map bp_id (borrower_positions st') = map bp_id (borrower_positions st)
  /\ map bp_market_id (borrower_positions st') = map bp_market_id (borrower_positions st)
  /\ (reimbursements_id_seq st <= reimbursements_id_seq st')%Z
  /\ exists kept created,
       reimbursements st' = kept ++ created
       /\ Forall2 same_obligation (reimbursements st) kept
       /\ NoDup (map r_id created)
       /\ forall r, In r created ->
            (reimbursements_id_seq st <= r_id r < reimbursements_id_seq st')%Z
            /\ In (r_position_id r) (map bp_id (borrower_positions st)).

(** What one call can do to a stored reimbursement: a completed one
    stays as it is; a failed one stays or is set back to pending; a
    pending one stays, fails or is completed. *)
Definition one_call_change (r r' : Reimbursement) : Prop :=
  match r_status r with
  | completed => r' = r
  | failed => r' = r \/ r' = reset r
  | pending =>
      r' = r
      \/ exists now,
           r' = ReimbursementTerms.failed_at now r
           \/ exists txHash, r' = ReimbursementTerms.completed_with now txHash r
  end.

(** The number of reimbursements in a status. *)
Definition count_in (status : ReimbursementStatus) (t : list Reimbursement) : nat :=
  List.length (filter (fun r => ReimbursementStatus_eqb (r_status r) status) t).

(** The sum of the amounts of the reimbursements in a status. *)
Definition total_in (status : ReimbursementStatus) (t : list Reimbursement) : Q :=
  ReimbursementStats.SUM
    (map r_amount (filter (fun r => ReimbursementStatus_eqb (r_status r) status) t)).
End Operations.

(** ** A borrower run in one pass *)

Module BatchTerms.
Import InterestService InterestTerms.

(** The snapshots of the rows whose market comes back with a state,
    each computed from the row as it was fetched and the caps of [st]. *)
Definition snapshots_for (rs : RateSource) (now : timestamp) (st : Store)
    (rows : list PositionRow) : list InterestSnapshot :=
  flat_map (fun position =>
              match rs (market_id position) with
              | MarketWithState s => [snapshot_of now st position s]
              | _ => []
              end)
    rows.


(** Whether [getMarketState] throws for a market: the endpoint answers
    with errors or without the market. *)
Definition throws (rs : RateSource) (market_id : string) : bool :=
  match rs market_id with
  | GraphQLErrors _ | NotFound => true
  | _ => false
  end.

(** The counter [reimbursementsCreated] the loop returns. *)
Definition reported_of (x : Store * nat * nat * list LogEntry) : nat := snd (fst x).

(** The reimbursement [createReimbursement] inserts for a snapshot,
    under the id [i]. *)
Definition inline_reimbursement (now : timestamp) (i : Z) (snap : InterestSnapshot)
    : Reimbursement :=
  {| r_id := i;
     r_position_id := i_position_id snap;
     r_amount := i_interest_above_cap snap;
     r_period_start := (DATE now - 1)%Z;
     r_period_end := DATE now;
     r_status := pending;
     r_tx_hash := None;
     r_created_at := now;
     r_processed_at := None |}.

(** One reimbursement for each snapshot with a positive excess, in the
    order of the snapshots, under consecutive ids from [i]. *)
Fixpoint reimbursements_for (now : timestamp) (i : Z) (snaps : list InterestSnapshot)
    : list Reimbursement :=
  match snaps with
  | [] => []
  | snap :: rest =>
      if Qlt_bool 0 (i_interest_above_cap snap)
      then inline_reimbursement now i snap :: reimbursements_for now (i + 1) rest
      else reimbursements_for now i rest
  end.
End BatchTerms.

(** ** MorphoService (morphoService.ts), [getBorrowerPositions] *)

Module MorphoService.
Open Scope string_scope.

(** An item of [marketPositions.items]: the numbers arrive as decimal
    strings and are read with [BigInt]. *)
Record MarketPosition := {
  user_address : string;
  borrowShares : Z;
  market_uniqueKey : string;
  loanAsset_symbol : string;
  collateralAsset_symbol : string;
  state_borrowAssets : Z;
  state_borrowShares : Z
}.

(** What the GraphQL endpoint answers. *)
Inductive PositionsResponse :=
| PositionsErrors (first_message : option string)   (* [data.errors] is set *)
| NoMarketPositions                                 (* no [data.marketPositions] *)
| MarketPositions (items : list MarketPosition).

(** An object of the array returned. [borrowedAmount] is held as the
    integer [ethers.formatEther] prints with eighteen decimals; the
    string '0' of the other branch is that integer zero. *)
Record BorrowerInfo := {
  address : string;
  info_borrowShares : Z;
  borrowedAmount : Z;
  loanAsset : string;
  collateralAsset : string;
  marketId : string
}.

(** (borrowShares * totalBorrowAssets) / totalBorrowShares on BigInt:
    the division truncates. *)
Definition borrowed (position : MarketPosition) : Z :=
  let totalBorrowShares := state_borrowShares position in
  let totalBorrowAssets := state_borrowAssets position in
  if (0 <? totalBorrowShares)%Z
  then Z.quot (borrowShares position * totalBorrowAssets) totalBorrowShares
  else 0%Z.

Definition getBorrowerPositions (response : PositionsResponse)
    : completion (list BorrowerInfo) :=
  match response with
  | PositionsErrors first_message =>
      Throw ("GraphQL error: " ++ match first_message with
                                   | Some message => or_unknown_error message
                                   | None => "Unknown error"
                                   end)
  | NoMarketPositions => Normal []
  | MarketPositions items =>
      let borrowers := filter (fun position => (0 <? borrowShares position)%Z) items in
      Normal (map (fun position =>
                     {| address := user_address position;
                        info_borrowShares := borrowShares position;
                        borrowedAmount := borrowed position;
                        loanAsset := loanAsset_symbol position;
                        collateralAsset := collateralAsset_symbol position;
                        marketId := market_uniqueKey position |})
                borrowers)
  end.

(** The sum of a column. *)
Definition total (column : list Z) : Z := fold_right Z.add 0%Z column.
End MorphoService.

(** ** MorphoService, [syncVaultAllocations]

    Run at every start of the server. The columns [supply_assets_usd]
    and [last_updated] of [vault_allocations] are not kept by the store
    and are left out. *)

Module MorphoSync.
Open Scope string_scope.

(** An element of [vaultByAddress.allocations]: the key of its market
    and [parseFloat(supplyAssets)]. *)
Record ApiAllocation := {
  alloc_market : string;
  alloc_supplyAssets : Q
}.

(** What the GraphQL endpoint answers for the address of a vault. *)
Inductive AllocationsResponse :=
| AllocationsErrors                                  (* [data.errors] is set *)
| NoVaultByAddress                                   (* no [data.vaultByAddress] *)
| VaultAllocations (allocations : list ApiAllocation).

Definition AllocationSource := string -> AllocationsResponse.

Definition getVaultAllocations (api : AllocationSource) (vaultAddress : string)
    : completion (list ApiAllocation) :=
  match api vaultAddress with
  | AllocationsErrors => Throw "GraphQL errors"
  | NoVaultByAddress => Normal []
  | VaultAllocations allocations => Normal allocations
  end.

Definition with_vault_allocations (t : list VaultAllocation) (st : Store) : Store :=
  {| markets := markets st; vaults := vaults st; borrowers := borrowers st;
     vault_allocations := t;
     borrower_positions := borrower_positions st;
     interest_snapshots := interest_snapshots st;
     vault_supply_snapshots := vault_supply_snapshots st;
     reimbursements := reimbursements st;
     reimbursements_id_seq := reimbursements_id_seq st |}.

(** The conflict target (vault_id, market_id). *)
Definition same_allocation (vault_id : Z) (market_id : string) (va : VaultAllocation) : bool :=
  (va_vault_id va =? vault_id)%Z && String.eqb (va_market_id va) market_id.

(** INSERT INTO vault_allocations (vault_id, market_id, supply_assets,
    supply_assets_usd) VALUES ($1, $2, $3, $4)
    ON CONFLICT (vault_id, market_id) DO UPDATE SET supply_assets = $3, ...
    The statement is taken to succeed: a supply of 10^18 or more does
    not fit DECIMAL(36,18), the statement would fail and the catch of
    the vault would skip the rest of its allocations. *)
Definition upsert_allocation (vault_id : Z) (market_id : string) (supplyAssets : Q)
    (st : Store) : Store :=
  with_vault_allocations
    (if existsb (same_allocation vault_id market_id) (vault_allocations st)
     then map (fun va => if same_allocation vault_id market_id va
                         then {| va_vault_id := va_vault_id va;
                                 va_market_id := va_market_id va;
                                 va_supply_assets := supplyAssets |}
                         else va)
            (vault_allocations st)
     else vault_allocations st ++
            [{| va_vault_id := vault_id;
                va_market_id := market_id;
                va_supply_assets := supplyAssets |}])
    st.

(** The body of the loop over the vaults: an exception of
    [getVaultAllocations] is caught and the next vault is taken. *)
Definition syncVault (api : AllocationSource) (trackedMarketIds : list string)
    (st : Store) (vault : Vault) : Store :=
  match getVaultAllocations api (v_address vault) with
  | Throw _ => st
  | Normal allocations =>
      let relevantAllocations :=
        filter (fun alloc => existsb (String.eqb (alloc_market alloc)) trackedMarketIds)
          allocations in
      fold_left (fun st alloc =>
                   upsert_allocation (v_id vault) (alloc_market alloc)
                     (alloc_supplyAssets alloc) st)
        relevantAllocations st
  end.

Definition syncVaultAllocations (api : AllocationSource) (st : Store) : Store :=
  let vaults := vaults st in
  let trackedMarketIds := map m_market_id (markets st) in
  fold_left (syncVault api trackedMarketIds) vaults st.

(** The columns of UNIQUE(vault_id, market_id). *)
Definition allocation_key (va : VaultAllocation) : Z * string :=
  (va_vault_id va, va_market_id va).

(** The row carries what the endpoint reported for its vault and
    market. *)
Definition reported (api : AllocationSource) (st : Store) (va : VaultAllocation) : Prop :=
  exists vault allocations alloc,
    In vault (vaults st) /\ v_id vault = va_vault_id va
    /\ api (v_address vault) = VaultAllocations allocations
    /\ In alloc allocations /\ alloc_market alloc = va_market_id va
    /\ In (va_market_id va) (map m_market_id (markets st))
    /\ va_supply_assets va = alloc_supplyAssets alloc.
End MorphoSync.

(** ** Runs day after day *)

Module CompoundingTerms.
Import Operations.

(** The borrower runs of a list of (rate source, clock) pairs, in
    order. *)
Definition daily_runs (days : list (RateSource * timestamp)) : list Operation :=
  map (fun day => DailySnapshot (fst day) (snd day)) days.

(** The factor by which a debt grows over these runs in a market
    observed with a state at each of them. *)
Fixpoint growth (market_id : string) (days : list (RateSource * timestamp)) : Q :=
  match days with
  | [] => 1
  | day :: rest =>
      match fst day market_id with
      | MarketWithState s => (1 + borrowApy s / 365) * growth market_id rest
      | _ => growth market_id rest
      end
  end.
End CompoundingTerms.

(** * Properties *)

(** ** Numbers *)

Lemma Math_max_cases (a b : Q) :
  (a <= b /\ Math_max a b = b) \/ (b < a /\ Math_max a b = a).
Proof.
  unfold Math_max. destruct (Qle_bool a b) eqn:E.
  - left. split; [now apply Qle_bool_iff | reflexivity].
  - right. split; [| reflexivity].
    apply Qnot_le_lt. intro H. apply Qle_bool_iff in H. congruence.
Qed.

Lemma Math_max_0_nonneg (x : Q) : 0 <= Math_max 0 x.
Proof.
  destruct (Math_max_cases 0 x) as [[H ->] | [_ ->]]; [exact H | apply Qle_refl].
Qed.

Lemma Math_max_0_of_nonneg (x : Q) : 0 <= x -> Math_max 0 x = x.
Proof.
  intro H. destruct (Math_max_cases 0 x) as [[_ E] | [L _]]; [exact E |].
  exfalso. exact (Qlt_not_le _ _ L H).
Qed.

Lemma Math_max_0_of_nonpos (x : Q) : x <= 0 -> Math_max 0 x == 0.
Proof.
  intro H. destruct (Math_max_cases 0 x) as [[L ->] | [_ ->]].
  - now apply Qle_antisym.
  - reflexivity.
Qed.

Lemma Qlt_bool_iff (a b : Q) : Qlt_bool a b = true <-> a < b.
Proof.
  unfold Qlt_bool. rewrite negb_true_iff. split.
  - intro E. apply Qnot_le_lt. intro H. apply Qle_bool_iff in H. congruence.
  - intro L. destruct (Qle_bool b a) eqn:E; [| reflexivity].
    apply Qle_bool_iff in E. exfalso. exact (Qlt_not_le _ _ L E).
Qed.

(** ** Keys and joins *)

Section Keys.
Context {A K : Type} (key : A -> K) (eqb : K -> K -> bool).
Hypothesis eqb_spec : forall x y, eqb x y = true <-> x = y.

Lemma filter_key_absent (k : K) (l : list A) :
  ~ In k (map key l) -> filter (fun a => eqb (key a) k) l = [].
Proof.
  induction l as [| a l IH]; simpl; intro H; [reflexivity |].
  destruct (eqb (key a) k) eqn:E.
  - apply eqb_spec in E. tauto.
  - apply IH. tauto.
Qed.

(** Under a uniqueness constraint a lookup by key returns the row. *)
Lemma filter_key_unique (a : A) (l : list A) :
  NoDup (map key l) -> In a l -> filter (fun x => eqb (key x) (key a)) l = [a].
Proof.
  induction l as [| b l IH]; simpl; intros ND HIn; [contradiction |].
  inversion ND as [| ? ? Hb ND']; subst.
  destruct HIn as [-> | HIn].
  - replace (eqb (key a) (key a)) with true by (symmetry; now apply eqb_spec).
    f_equal. now apply filter_key_absent.
  - destruct (eqb (key b) (key a)) eqn:E.
    + apply eqb_spec in E. exfalso. apply Hb. rewrite E. now apply in_map.
    + now apply IH.
Qed.
End Keys.

Lemma String_eqb_iff (x y : string) : String.eqb x y = true <-> x = y.
Proof. apply String.eqb_eq. Qed.

Lemma Z_eqb_iff (x y : Z) : (x =? y)%Z = true <-> x = y.
Proof. apply Z.eqb_eq. Qed.

(** ** The snapshot a borrower position gets *)

Module InterestFacts.
Import InterestService InterestTerms.

Lemma getCappedRate_market (st : Store) (m : Market) :
  NoDup (map m_market_id (markets st)) -> In m (markets st) ->
  getCappedRate st (m_market_id m) = m_apr_cap m.
Proof.
  intros ND HIn. unfold getCappedRate.
  now rewrite (filter_key_unique m_market_id String.eqb String_eqb_iff m _ ND HIn).
Qed.

Lemma processPosition_completes rs now position st s :
  rs (market_id position) = MarketWithState s ->
  completed_as (processPosition rs now position st) = Normal tt.
Proof. intro H. unfold processPosition, getMarketState. now rewrite H. Qed.

Lemma processPosition_snapshots rs now position st s :
  rs (market_id position) = MarketWithState s ->
  interest_snapshots (store_after (processPosition rs now position st))
  = interest_snapshots st ++ [snapshot_of now st position s].
Proof.
  intro H. unfold processPosition, getMarketState. rewrite H. cbn [state store_after].
  unfold updatePositionDebt, with_borrower_positions. cbn [interest_snapshots].
  destruct (Qlt_bool 0 _); reflexivity.
Qed.

Lemma processPosition_snapshots_skipped rs now position st :
  (forall s, rs (market_id position) <> MarketWithState s) ->
  store_after (processPosition rs now position st) = st.
Proof.
  intro H. unfold processPosition, getMarketState.
  destruct (rs (market_id position)) eqn:E; try reflexivity.
  now elim (H state0).
Qed.

(** The reimbursements [processPosition] leaves: one more row exactly
    when the interest above cap is positive. *)
Lemma processPosition_reimbursements rs now position st s :
  rs (market_id position) = MarketWithState s ->
  reimbursements (store_after (processPosition rs now position st))
  = reimbursements st ++
      (if Qlt_bool 0 (i_interest_above_cap (snapshot_of now st position s))
       then [{| r_id := reimbursements_id_seq st;
                r_position_id := id position;
                r_amount := i_interest_above_cap (snapshot_of now st position s);
                r_period_start := (DATE now - 1)%Z;
                r_period_end := DATE now;
                r_status := pending;
                r_tx_hash := None;
                r_created_at := now;
                r_processed_at := None |}]
       else []).
Proof.
  intro H. unfold processPosition, getMarketState. rewrite H. cbn [state store_after].
  unfold updatePositionDebt, with_borrower_positions. cbn [reimbursements].
  cbn [snapshot_of i_interest_above_cap].
  destruct (Qlt_bool 0 _); cbn; [reflexivity | now rewrite app_nil_r].
Qed.

End InterestFacts.

(** ** The snapshot a vault allocation gets *)

Module SupplyFacts.
Import InterestService VaultSupplyService SupplyTerms.

Lemma conflicts_iff data row :
  conflicts data row = true <->
  vss_vault_id row = d_vault_id data
  /\ vss_market_id row = d_market_id data
  /\ vss_snapshot_date row = d_snapshot_date data.
Proof.
  unfold conflicts. rewrite !andb_true_iff, !Z.eqb_eq, String.eqb_eq. tauto.
Qed.

Lemma conflicts_do_update data data' row :
  conflicts data (do_update data' row) = conflicts data row.
Proof. reflexivity. Qed.

Lemma carries_do_update data row : carries data (do_update data row).
Proof. repeat split. Qed.

(** After the upsert the key of [data] has a row, and every row of that
    key carries [data]. *)
Lemma saveSupplySnapshot_recorded now data st :
  let t := vault_supply_snapshots (saveSupplySnapshot now data st) in
  (exists row, In row t /\ conflicts data row = true)
  /\ (forall row, In row t -> conflicts data row = true -> carries data row).
Proof.
  cbn. destruct (existsb (conflicts data) (vault_supply_snapshots st)) eqn:E.
  - split.
    + apply existsb_exists in E. destruct E as [row [HIn Hc]].
      exists (do_update data row). split.
      * apply in_map_iff. exists row. now rewrite Hc.
      * now rewrite conflicts_do_update.
    + intros row HIn Hc. apply in_map_iff in HIn. destruct HIn as [row0 [<- HIn]].
      destruct (conflicts data row0) eqn:E0.
      * apply carries_do_update.
      * congruence.
  - split.
    + eexists. split; [apply in_or_app; right; left; reflexivity |].
      apply conflicts_iff. repeat split.
    + intros row HIn Hc. apply in_app_or in HIn. destruct HIn as [HIn | [<- | []]].
      * exfalso. assert (existsb (conflicts data) (vault_supply_snapshots st) = true)
          by (apply existsb_exists; eauto). congruence.
      * repeat split.
Qed.

Lemma processAllocation_store rs now allocation st s :
  rs (market_id allocation) = MarketWithState s ->
  store_after (processAllocation rs now allocation st)
  = saveSupplySnapshot now (data_of now allocation s) st.
Proof. intro H. unfold processAllocation, getMarketState. now rewrite H. Qed.

End SupplyFacts.

(** ** Accrual and excess over the cap *)

Module Accrual.
Import InterestService VaultSupplyService InterestTerms SupplyTerms.
Import InterestFacts SupplyFacts.

Lemma accrued_formula (p r : Q) : p * (r / 365) == p * r / 365.
Proof. field. Qed.

Lemma excess_formula (p r c : Q) : p * (r / 365) - p * (c / 365) == p * (r - c) / 365.
Proof. field. Qed.

(** C6. With market ids unique (the UNIQUE constraint of [markets]), a
    position of principal [p] in a market of cap [c], observed at the
    annual rate [r], gets the snapshot with interest accrued p*r/365 and
    interest above cap max(0, p*(r-c)/365); so does a vault allocation,
    in the row of its (vault, market, day); and p = 1000, r = 0.18,
    c = 0.12 give 0.493151 and 0.164384 to six decimals. *)
Theorem snapshot_records_accrual_and_excess :
  (forall rs now st position m s,
      NoDup (map m_market_id (markets st)) ->
      In m (markets st) ->
      m_market_id m = InterestService.market_id position ->
      rs (InterestService.market_id position) = MarketWithState s ->
      let p := current_debt position in
      let r := borrowApy s in
      let c := m_apr_cap m in
      exists snap,
        interest_snapshots (store_after (processPosition rs now position st))
        = interest_snapshots st ++ [snap]
        /\ i_position_id snap = id position
        /\ i_snapshot_date snap = DATE now
        /\ i_interest_accrued snap == p * r / 365
        /\ (0 <= p * (r - c) / 365 -> i_interest_above_cap snap == p * (r - c) / 365)
        /\ (p * (r - c) / 365 <= 0 -> i_interest_above_cap snap == 0))
  /\ (forall rs now st allocation s,
      rs (VaultSupplyService.market_id allocation) = MarketWithState s ->
      let p := supply_assets allocation in
      let r := supplyApy s in
      let c := apr_cap allocation in
      let t := vault_supply_snapshots (store_after (processAllocation rs now allocation st)) in
      (exists row, In row t
                   /\ vss_vault_id row = vault_id allocation
                   /\ vss_market_id row = VaultSupplyService.market_id allocation
                   /\ vss_snapshot_date row = DATE now)
      /\ (forall row, In row t ->
            vss_vault_id row = vault_id allocation ->
            vss_market_id row = VaultSupplyService.market_id allocation ->
            vss_snapshot_date row = DATE now ->
            vss_interest_earned row == p * r / 365
            /\ (0 <= p * (r - c) / 365 -> vss_interest_above_cap row == p * (r - c) / 365)
            /\ (p * (r - c) / 365 <= 0 -> vss_interest_above_cap row == 0)))
  /\ (exists snap,
        interest_snapshots
          (store_after (processPosition (Sample.rates 0.18 0.18) Sample.noon
                          Sample.alice Sample.one_market)) = [snap]
        /\ toFixed6 (i_interest_accrued snap) = 493151%Z
        /\ toFixed6 (i_interest_above_cap snap) = 164384%Z)
  /\ (exists row,
        vault_supply_snapshots
          (store_after (processAllocation (Sample.rates 0.18 0.18) Sample.noon
                          Sample.allocation Sample.one_market)) = [row]
        /\ toFixed6 (vss_interest_earned row) = 493151%Z
        /\ toFixed6 (vss_interest_above_cap row) = 164384%Z).
Proof.
  split; [| split; [| split]].
  - intros rs now st position m s ND HIn Hm Hs p r c.
    exists (snapshot_of now st position s).
    split; [now apply processPosition_snapshots |].
    cbn [snapshot_of i_position_id i_snapshot_date i_interest_accrued i_interest_above_cap].
    rewrite <- Hm, (getCappedRate_market st m ND HIn).
    fold p r c.
    split; [reflexivity |]. split; [reflexivity |].
    split; [apply accrued_formula |].
    split; intro H.
    + rewrite Math_max_0_of_nonneg; [apply excess_formula |].
      now rewrite excess_formula.
    + apply Math_max_0_of_nonpos. now rewrite excess_formula.
  - intros rs now st allocation s Hs p r c t.
    subst t. rewrite (processAllocation_store _ _ _ _ _ Hs).
    destruct (saveSupplySnapshot_recorded now (data_of now allocation s) st)
      as [[row [HIn Hc]] Hall].
    split.
    + exists row. split; [exact HIn |]. now apply conflicts_iff in Hc.
    + intros row' HIn' Hv Hm Hd.
      assert (Hc' : conflicts (data_of now allocation s) row' = true)
        by (apply conflicts_iff; cbn; auto).
      destruct (Hall row' HIn' Hc') as (_ & _ & _ & He & Ha & _).
      rewrite He, Ha. cbn [data_of d_interest_earned d_interest_above_cap].
      fold p r c.
      split; [apply accrued_formula |].
      split; intro H.
      * rewrite Math_max_0_of_nonneg; [apply excess_formula |].
        now rewrite excess_formula.
      * apply Math_max_0_of_nonpos. now rewrite excess_formula.
  - eexists. split; [vm_compute; reflexivity |]. split; vm_compute; reflexivity.
  - eexists. split; [vm_compute; reflexivity |]. split; vm_compute; reflexivity.
Qed.

(** The worked example of C6 in binary64: 1000 at 18% under a cap of 12%
    gives an interest accrued between 0.4931505 and 0.4931515 and an
    interest above cap between 0.1643835 and 0.1643845, so [toFixed(6)]
    prints 0.493151 and 0.164384 as in the exact model. *)
Lemma worked_example_in_binary64 :
  Binary64.between Binary64.accrued_below
    (Binary64.interestAccrued Binary64.example_principal Binary64.example_rate)
    Binary64.accrued_above = true
  /\ Binary64.between Binary64.excess_below
       (Binary64.interestAboveCap Binary64.example_principal Binary64.example_rate
          Binary64.example_cap)
       Binary64.excess_above = true.
Proof. split; vm_compute; reflexivity. Qed.

Lemma snapshot_records_accrual_and_excess_witness :
  exists snap,
    interest_snapshots
      (store_after (processPosition (Sample.rates 0.18 0.16) Sample.noon
                      Sample.alice Sample.one_market))
    = interest_snapshots Sample.one_market ++ [snap]
    /\ i_position_id snap = id Sample.alice
    /\ i_snapshot_date snap = DATE Sample.noon
    /\ i_interest_accrued snap == 1000 * 0.18 / 365
    /\ (0 <= 1000 * (0.18 - 0.12) / 365 ->
        i_interest_above_cap snap == 1000 * (0.18 - 0.12) / 365)
    /\ (1000 * (0.18 - 0.12) / 365 <= 0 -> i_interest_above_cap snap == 0).
Proof.
  apply (proj1 snapshot_records_accrual_and_excess
           (Sample.rates 0.18 0.16) Sample.noon Sample.one_market Sample.alice
           Sample.wsteth {| borrowApy := 0.18; supplyApy := 0.16 |}).
  - repeat constructor. simpl. tauto.
  - left. reflexivity.
  - reflexivity.
  - reflexivity.
Defined.

End Accrual.

(** ** What a run leaves in the store *)

Module RunFacts.
Import InterestService VaultSupplyService InterestTerms SupplyTerms RunTerms.
Import InterestFacts SupplyFacts.

(** A relation between the store at the start of the loop and the
    current one that every [processPosition] keeps holds at the end. *)
Lemma processPositions_invariant_in (rs : RateSource) (now : timestamp)
    (positions : list PositionRow) (P : Store -> Prop) :
  (forall st position, In position positions ->
                       P st -> P (store_after (processPosition rs now position st))) ->
  forall st p c,
    P st -> P (final_store (processPositions rs now positions st p c)).
Proof.
  induction positions as [| position rest IH]; intros Hstep st p c HP.
  - exact HP.
  - assert (Hrest : forall st position, In position rest ->
                      P st -> P (store_after (processPosition rs now position st)))
      by (intros st0 q Hq; apply Hstep; now right).
    assert (Hhere := Hstep st position (or_introl eq_refl) HP).
    cbn [processPositions].
    destruct (completed_as (processPosition rs now position st)).
    + specialize (IH Hrest (store_after (processPosition rs now position st)) (S p)
                    (if checkRecentReimbursement now (id position)
                          (store_after (processPosition rs now position st))
                     then S c else c) Hhere).
      destruct (processPositions rs now rest _ _ _) as [[[st' p'] c'] out]. exact IH.
    + specialize (IH Hrest (store_after (processPosition rs now position st)) p c Hhere).
      destruct (processPositions rs now rest _ _ _) as [[[st' p'] c'] out]. exact IH.
Qed.

Lemma processPositions_invariant (rs : RateSource) (now : timestamp)
    (P : Store -> Prop) :
  (forall st position, P st -> P (store_after (processPosition rs now position st))) ->
  forall positions st p c,
    P st -> P (final_store (processPositions rs now positions st p c)).
Proof.
  intros Hstep positions. apply processPositions_invariant_in. auto.
Qed.

Lemma processDailySnapshot_invariant (rs : RateSource) (now : timestamp)
    (P : Store -> Prop) :
  (forall st position, P st -> P (store_after (processPosition rs now position st))) ->
  forall st, P st -> P (store_after (processDailySnapshot rs now st)).
Proof.
  intros Hstep st HP. unfold processDailySnapshot.
  destruct (List.length (getActivePositions st) =? 0)%nat; [exact HP |].
  pose proof (processPositions_invariant rs now P Hstep (getActivePositions st) st 0 0 HP) as H.
  destruct (processPositions rs now (getActivePositions st) st 0 0) as [[[st' p'] c'] out].
  exact H.
Qed.

Lemma processAllocations_invariant (rs : RateSource) (now : timestamp)
    (P : Store -> Prop) :
  (forall st allocation, P st -> P (store_after (processAllocation rs now allocation st))) ->
  forall allocations st p,
    P st -> P (fst (fst (processAllocations rs now allocations st p))).
Proof.
  intros Hstep allocations. induction allocations as [| allocation rest IH]; intros st p HP.
  - exact HP.
  - cbn [processAllocations].
    destruct (completed_as (processAllocation rs now allocation st)).
    + specialize (IH (store_after (processAllocation rs now allocation st)) (S p)
                    (Hstep _ _ HP)).
      destruct (processAllocations rs now rest _ _) as [[st' p'] out]. exact IH.
    + specialize (IH (store_after (processAllocation rs now allocation st)) p
                    (Hstep _ _ HP)).
      destruct (processAllocations rs now rest _ _) as [[st' p'] out]. exact IH.
Qed.

Lemma processDailySupplySnapshots_invariant (rs : RateSource) (now : timestamp)
    (P : Store -> Prop) :
  (forall st allocation, P st -> P (store_after (processAllocation rs now allocation st))) ->
  forall st, P st -> P (store_after (processDailySupplySnapshots rs now st)).
Proof.
  intros Hstep st HP. unfold processDailySupplySnapshots.
  destruct (List.length (getActiveVaultAllocations st) =? 0)%nat; [exact HP |].
  pose proof (processAllocations_invariant rs now P Hstep
                (getActiveVaultAllocations st) st 0 HP) as H.
  destruct (processAllocations rs now (getActiveVaultAllocations st) st 0)
    as [[st' p'] out].
  exact H.
Qed.

(** [processPosition] either leaves the store alone or has a state. *)
Lemma processPosition_cases rs now position st :
  store_after (processPosition rs now position st) = st
  \/ exists s, rs (InterestService.market_id position) = MarketWithState s.
Proof.
  destruct (rs (InterestService.market_id position)) eqn:E; eauto.
  all: left; apply processPosition_snapshots_skipped; congruence.
Qed.

Lemma processAllocation_cases rs now allocation st :
  store_after (processAllocation rs now allocation st) = st
  \/ exists s, rs (VaultSupplyService.market_id allocation) = MarketWithState s.
Proof.
  unfold processAllocation, getMarketState.
  destruct (rs (VaultSupplyService.market_id allocation)) eqn:E; eauto.
Qed.

(** The tables [processPosition] never writes. *)
Lemma processPosition_frame rs now position st :
  let st' := store_after (processPosition rs now position st) in
  markets st' = markets st /\ vaults st' = vaults st /\ borrowers st' = borrowers st
  /\ vault_allocations st' = vault_allocations st
  /\ vault_supply_snapshots st' = vault_supply_snapshots st.
Proof.
  cbn zeta. unfold processPosition, getMarketState.
  destruct (rs (InterestService.market_id position)); cbn; try tauto.
  destruct (Qlt_bool 0 _); cbn; tauto.
Qed.

(** The tables [processAllocation] never writes: all but the supply
    snapshots. *)
Lemma processAllocation_frame rs now allocation st :
  let st' := store_after (processAllocation rs now allocation st) in
  markets st' = markets st /\ vaults st' = vaults st /\ borrowers st' = borrowers st
  /\ vault_allocations st' = vault_allocations st
  /\ borrower_positions st' = borrower_positions st
  /\ interest_snapshots st' = interest_snapshots st
  /\ reimbursements st' = reimbursements st
  /\ reimbursements_id_seq st' = reimbursements_id_seq st.
Proof.
  cbn zeta. unfold processAllocation, getMarketState.
  destruct (rs (VaultSupplyService.market_id allocation)); cbn; tauto.
Qed.

End RunFacts.

(** ** Rows the snapshot engine writes *)

Module WrittenRows.
Import InterestService VaultSupplyService InterestTerms SupplyTerms ReimbursementTerms.
Import InterestFacts SupplyFacts RunFacts.

Lemma pays_snapshot_more snaps more day r :
  pays_snapshot snaps day r -> pays_snapshot (snaps ++ more) day r.
Proof.
  intros [snap [HIn H]]. exists snap. split; [apply in_or_app; now left | exact H].
Qed.

Lemma created_inline_more now snaps more r :
  created_inline now snaps r -> created_inline now (snaps ++ more) r.
Proof.
  intros (Hf & Hs & He & Hp). repeat split; try apply Hf; auto using pays_snapshot_more.
Qed.

Lemma added_refl now st : added now st st.
Proof. exists [], []. rewrite !app_nil_r. repeat split; constructor. Qed.

Lemma added_step rs now st0 st position :
  added now st0 st -> added now st0 (store_after (processPosition rs now position st)).
Proof.
  intros (written & created & Hw & Hc & Fw & Fc).
  destruct (processPosition_cases rs now position st) as [-> | [s Hs]].
  - exists written, created. auto.
  - set (snap := snapshot_of now st position s).
    exists (written ++ [snap]).
    exists (created ++
              if Qlt_bool 0 (i_interest_above_cap snap)
              then [{| r_id := reimbursements_id_seq st;
                       r_position_id := id position;
                       r_amount := i_interest_above_cap snap;
                       r_period_start := (DATE now - 1)%Z;
                       r_period_end := DATE now;
                       r_status := pending;
                       r_tx_hash := None;
                       r_created_at := now;
                       r_processed_at := None |}]
              else []).
    split; [| split; [| split]].
    + rewrite (processPosition_snapshots _ _ _ _ _ Hs), Hw. now rewrite <- app_assoc.
    + rewrite (processPosition_reimbursements _ _ _ _ _ Hs), Hc. now rewrite <- app_assoc.
    + apply Forall_app. split; [exact Fw |]. constructor; [| constructor].
      apply Math_max_0_nonneg.
    + apply Forall_app. split.
      * eapply Forall_impl; [| exact Fc]. intros r. apply created_inline_more.
      * destruct (Qlt_bool 0 (i_interest_above_cap snap)) eqn:E; constructor; [| constructor].
        repeat split. exists snap. split; [apply in_or_app; right; now left |].
        repeat split. now apply Qlt_bool_iff.
Qed.

Lemma processDailySnapshot_added rs now st :
  added now st (store_after (processDailySnapshot rs now st)).
Proof.
  apply processDailySnapshot_invariant; [| apply added_refl].
  intros st' position. apply added_step.
Qed.

End WrittenRows.

(** ** Creating reimbursement entries *)

Module CreateFacts.
Import ReimbursementService ReimbursementTerms.

Lemma same_but_reimbursements_refl st : same_but_reimbursements st st.
Proof. repeat split. Qed.

Lemma insert_reimbursement_same now p a s e status st :
  same_but_reimbursements st (insert_reimbursement now p a s e status st).
Proof. repeat split. Qed.

Lemma same_but_reimbursements_trans st1 st2 st3 :
  same_but_reimbursements st1 st2 -> same_but_reimbursements st2 st3 ->
  same_but_reimbursements st1 st3.
Proof.
  unfold same_but_reimbursements. intros H1 H2.
  decompose [and] H1. decompose [and] H2. repeat split; congruence.
Qed.

(** The SELECT of [createReimbursementEntries] does not read the
    reimbursements. *)
Lemma positionsNeedingReimbursement_same date st st' :
  same_but_reimbursements st st' ->
  positionsNeedingReimbursement date st' = positionsNeedingReimbursement date st.
Proof.
  intros (Hm & Hv & Hb & _ & Hp & Hi & _).
  unfold positionsNeedingReimbursement, with_owner. now rewrite Hm, Hv, Hb, Hp, Hi.
Qed.

Lemma existing_app p d st st' more :
  reimbursements st' = reimbursements st ++ more ->
  existing p d st' = existing p d st
                     ++ filter (fun r => (r_position_id r =? p)%Z
                                         && (r_period_start r =? d)%Z
                                         && (r_period_end r =? d)%Z) more.
Proof. intro H. unfold existing. now rewrite H, filter_app. Qed.

Lemma existing_kept p d st st' more :
  reimbursements st' = reimbursements st ++ more ->
  existing p d st <> [] -> existing p d st' <> [].
Proof.
  intros H Hne. rewrite (existing_app p d st st' more H).
  destruct (existing p d st); [congruence | discriminate].
Qed.

Lemma existing_none_before p d st st' more :
  reimbursements st' = reimbursements st ++ more ->
  existing p d st' = [] -> existing p d st = [].
Proof.
  intros H Hnil. rewrite (existing_app p d st st' more H) in Hnil.
  now apply app_eq_nil in Hnil.
Qed.

(** A row just inserted for (p, d, d) is found by the existence check
    of the same pair and of no other. *)
Lemma existing_after_insert now p a d st :
  existing p d (insert_reimbursement now p a d d pending st) <> [].
Proof.
  unfold existing, insert_reimbursement. cbn [reimbursements with_reimbursements].
  rewrite filter_app. cbn. rewrite !Z.eqb_refl. cbn.
  intro H. apply app_eq_nil in H. destruct H; discriminate.
Qed.

(** The loop: what it inserts, what it counts, and that afterwards the
    existence check succeeds for every row it went through. *)
Lemma createEntries_spec now rows :
  forall st n,
    exists created,
      let st' := fst (createEntries now rows st n) in
      reimbursements st' = reimbursements st ++ created
      /\ snd (createEntries now rows st n) = (n + List.length created)%nat
      /\ same_but_reimbursements st st'
      /\ Forall (fun r =>
                   fresh now r
                   /\ r_period_end r = r_period_start r
                   /\ existing (r_position_id r) (r_period_start r) st = []
                   /\ exists row, In row rows
                                  /\ i_position_id (subject row) = r_position_id r
                                  /\ i_snapshot_date (subject row) = r_period_start r
                                  /\ i_interest_above_cap (subject row) = r_amount r)
           created
      /\ NoDup (map period_key created)
      /\ (forall row, In row rows ->
            existing (i_position_id (subject row)) (i_snapshot_date (subject row)) st' <> []).
Proof.
  induction rows as [| row rest IH]; intros st n.
  - exists []. cbn. rewrite app_nil_r, Nat.add_0_r.
    repeat split; try constructor. intros row [].
  - cbn [createEntries].
    set (p := i_position_id (subject row)).
    set (d := i_snapshot_date (subject row)).
    set (a := i_interest_above_cap (subject row)).
    destruct (existing p d st) as [| r0 found] eqn:E.
    + destruct (IH (insert_reimbursement now p a d d pending st) (S n))
        as (created & Hr & Hn & Hs & Hf & Hnd & Hex).
      cbn zeta in *.
      set (res := createEntries now rest (insert_reimbursement now p a d d pending st) (S n)) in *.
      set (r := {| r_id := reimbursements_id_seq st; r_position_id := p; r_amount := a;
                   r_period_start := d; r_period_end := d; r_status := pending;
                   r_tx_hash := None; r_created_at := now; r_processed_at := None |}).
      assert (Hr' : reimbursements (fst res) = reimbursements st ++ r :: created).
      { rewrite Hr. cbn. now rewrite <- app_assoc. }
      exists (r :: created). split; [exact Hr' |]. split; [| split; [| split; [| split]]].
      * rewrite Hn. cbn. lia.
      * eapply same_but_reimbursements_trans; [| exact Hs].
        apply insert_reimbursement_same.
      * constructor.
        -- repeat split; [exact E |]. exists row. split; [now left | repeat split].
        -- eapply Forall_impl; [| exact Hf]. cbn beta.
           intros r' (Hfr & Hpe & Hnone & row' & HIn & Hrow).
           repeat split; try apply Hfr; auto.
           ++ eapply existing_none_before; [| exact Hnone]. reflexivity.
           ++ exists row'. split; [now right | exact Hrow].
      * cbn [map]. constructor; [| exact Hnd].
        intro HIn. apply in_map_iff in HIn. destruct HIn as [r' [Hk HIn]].
        rewrite Forall_forall in Hf. destruct (Hf r' HIn) as (_ & _ & Hnone & _).
        unfold period_key in Hk. cbn in Hk. inversion Hk as [[Hp Hd]].
        rewrite Hp, Hd in Hnone.
        exact (existing_after_insert now p a d st Hnone).
      * intros row' [<- | HIn]; [| now apply Hex].
        eapply existing_kept; [exact Hr |]. apply existing_after_insert.
    + destruct (IH st n) as (created & Hr & Hn & Hs & Hf & Hnd & Hex).
      exists created. cbn zeta in *.
      split; [exact Hr |]. split; [exact Hn |]. split; [exact Hs |].
      split; [| split; [exact Hnd |]].
      * eapply Forall_impl; [| exact Hf]. cbn beta.
        intros r' (Hfr & Hpe & Hnone & row' & HIn & Hrow).
        repeat split; try apply Hfr; auto. exists row'. split; [now right | exact Hrow].
      * intros row' [<- | HIn]; [| now apply Hex].
        eapply existing_kept; [exact Hr |]. fold p d. rewrite E. discriminate.
Qed.

(** When the existence check succeeds for every row the loop inserts
    nothing. *)
Lemma createEntries_nothing_new now rows :
  forall st n,
    (forall row, In row rows ->
       existing (i_position_id (subject row)) (i_snapshot_date (subject row)) st <> []) ->
    createEntries now rows st n = (st, n).
Proof.
  induction rows as [| row rest IH]; intros st n H; [reflexivity |].
  cbn [createEntries].
  destruct (existing _ _ st) eqn:E.
  - exfalso. apply (H row); [now left | exact E].
  - apply IH. intros row' HIn. apply H. now right.
Qed.

(** The rows selected come from snapshots of the day with a positive
    excess. *)
Lemma positionsNeedingReimbursement_row date st row :
  In row (positionsNeedingReimbursement date st) ->
  In (subject row) (interest_snapshots st)
  /\ i_snapshot_date (subject row) = DATE date
  /\ 0 < i_interest_above_cap (subject row).
Proof.
  unfold positionsNeedingReimbursement. rewrite filter_In, !andb_true_iff.
  intros [HIn [[Hd Ha] _]]. split; [| split].
  - unfold with_owner, left_join, join in HIn.
    repeat (apply in_flat_map in HIn; destruct HIn as [? [HIn ?]]).
    repeat match goal with
           | H : In _ (match ?l with [] => _ | _ => _ end) |- _ =>
               destruct l; cbn [map In] in H
           | H : _ \/ _ |- _ => destruct H
           | H : In _ (map _ _) |- _ =>
               apply in_map_iff in H; destruct H as [? [? ?]]
           | H : False |- _ => contradiction
           end; subst; exact HIn.
  - now apply Z.eqb_eq.
  - now apply Qlt_bool_iff.
Qed.

End CreateFacts.

(** ** Signs of the amounts written *)

Module Signs.
Import InterestService VaultSupplyService ReimbursementService.
Import InterestTerms SupplyTerms ReimbursementTerms.
Import InterestFacts SupplyFacts RunFacts WrittenRows CreateFacts.

Lemma saveSupplySnapshot_rows now data st row :
  In row (vault_supply_snapshots (saveSupplySnapshot now data st)) ->
  In row (vault_supply_snapshots st)
  \/ vss_interest_above_cap row = d_interest_above_cap data.
Proof.
  cbn. destruct (existsb (conflicts data) (vault_supply_snapshots st)).
  - intro HIn. apply in_map_iff in HIn. destruct HIn as [row0 [<- HIn]].
    destruct (conflicts data row0); [now right | now left].
  - intro HIn. apply in_app_or in HIn. destruct HIn as [HIn | [<- | []]]; auto.
Qed.

Lemma processAllocation_rows rs now allocation st row :
  In row (vault_supply_snapshots (store_after (processAllocation rs now allocation st))) ->
  In row (vault_supply_snapshots st) \/ 0 <= vss_interest_above_cap row.
Proof.
  destruct (processAllocation_cases rs now allocation st) as [-> | [s Hs]]; [now left |].
  rewrite (processAllocation_store _ _ _ _ _ Hs). intro HIn.
  destruct (saveSupplySnapshot_rows _ _ _ _ HIn) as [H | ->]; [now left | right].
  apply Math_max_0_nonneg.
Qed.

(** The snapshots a borrower run appends and the rows a vault run
    inserts or overwrites have an interest above cap that is not
    negative. *)
Lemma written_excess_is_never_negative :
  (forall rs now st,
      exists written,
        interest_snapshots (store_after (processDailySnapshot rs now st))
        = interest_snapshots st ++ written
        /\ (forall snap, In snap written -> 0 <= i_interest_above_cap snap))
  /\ (forall rs now st row,
        In row (vault_supply_snapshots (store_after (processDailySupplySnapshots rs now st))) ->
        In row (vault_supply_snapshots st) \/ 0 <= vss_interest_above_cap row).
Proof.
  split.
  - intros rs now st.
    destruct (processDailySnapshot_added rs now st) as (written & created & Hw & _ & Fw & _).
    exists written. rewrite Forall_forall in Fw. auto.
  - intros rs now st.
    apply (processDailySupplySnapshots_invariant rs now
             (fun st' => forall row, In row (vault_supply_snapshots st') ->
                                     In row (vault_supply_snapshots st)
                                     \/ 0 <= vss_interest_above_cap row)).
    + intros st' allocation IH row HIn.
      destruct (processAllocation_rows _ _ _ _ _ HIn) as [H | H]; auto.
    + intros row HIn. now left.
Qed.

(** [createReimbursementEntries] tests the stored column and copies it:
    the amounts it inserts are positive. *)
Lemma entries_have_positive_amounts now date st :
  exists created,
    reimbursements (snd (createReimbursementEntries now date st))
    = reimbursements st ++ created
    /\ (forall r, In r created -> 0 < r_amount r).
Proof.
  unfold createReimbursementEntries.
  destruct (createEntries_spec now (positionsNeedingReimbursement date st) st 0)
    as (created & Hr & _ & _ & Hf & _).
  destruct (createEntries now (positionsNeedingReimbursement date st) st 0) as [st' n].
  exists created. split; [exact Hr |].
  rewrite Forall_forall in Hf. intros r HIn.
  destruct (Hf r HIn) as (_ & _ & _ & row & Hrow & _ & _ & <-).
  now apply (positionsNeedingReimbursement_row date st row).
Qed.

(** A decimal under half a unit of the eighteenth decimal is stored
    as zero. *)
Lemma small_is_stored_as_zero (text : Q) :
  0 <= text -> text < 5 # 10000000000000000000 ->
  exists amount, DECIMAL_36_18 text = Some amount /\ amount == 0.
Proof.
  intros H0 H1. unfold DECIMAL_36_18.
  rewrite (proj2 (Qle_bool_iff 0 text) H0).
  assert (E : Qfloor (text * 10 ^ 18 + (1 # 2)) = 0%Z).
  { assert (Hscale : 10 ^ 18 == 1000000000000000000) by reflexivity.
    assert (Hlo : (0 <= Qfloor (text * 10 ^ 18 + (1 # 2)))%Z).
    { change 0%Z with (Qfloor 0). apply Qfloor_resp_le.
      assert (0 <= text * 10 ^ 18) by (apply Qmult_le_0_compat; [exact H0 | discriminate]).
      lra. }
    assert (Hhi : (Qfloor (text * 10 ^ 18 + (1 # 2)) < 1)%Z).
    { apply Z.lt_nge. intro Hge.
      assert (Hq : inject_Z 1 <= inject_Z (Qfloor (text * 10 ^ 18 + (1 # 2))))
        by (rewrite <- Zle_Qle; exact Hge).
      pose proof (Qfloor_le (text * 10 ^ 18 + (1 # 2))) as Hf.
      assert (Hsmall : text * 10 ^ 18 < 1 # 2) by (rewrite Hscale; lra).
      change (inject_Z 1) with 1 in Hq. lra. }
    lia. }
  rewrite E. eexists. split; reflexivity.
Qed.

(** C10 fails on the inline path. Take a position that owes
    0.000000000000001 in a market capped at 12% and observed at 18%. The
    three doubles are those [parseFloat] reads; in binary64 the excess
    of the day is positive, about 1.6e-19, so the test
    [interestAboveCap > 0] of [processPosition] passes and
    [createReimbursement] is called with it; 1.6438356164383555e-19 is
    a decimal that reads as that double; and every decimal that does,
    whatever digits the driver sends, is kept by the DECIMAL(36,18)
    column [amount] as 0. *)
Theorem dust_excess_is_reimbursed_with_amount_zero :
  Binary64.reads_as 0.000000000000001 Binary64.dust_principal
  /\ Binary64.reads_as 0.18 Binary64.example_rate
  /\ Binary64.reads_as 0.12 Binary64.example_cap
  /\ Binary64.createsReimbursement Binary64.dust_principal Binary64.example_rate
       Binary64.example_cap = true
  /\ Binary64.reads_as 0.00000000000000000016438356164383555
       (Binary64.interestAboveCap Binary64.dust_principal Binary64.example_rate
          Binary64.example_cap)
  /\ forall text,
       Binary64.reads_as text
         (Binary64.interestAboveCap Binary64.dust_principal Binary64.example_rate
            Binary64.example_cap) ->
       exists amount, DECIMAL_36_18 text = Some amount /\ amount == 0.
Proof.
  split; [| split; [| split; [| split; [| split]]]].
  - unfold Binary64.reads_as. vm_compute. discriminate.
  - unfold Binary64.reads_as. vm_compute. discriminate.
  - unfold Binary64.reads_as. vm_compute. discriminate.
  - vm_compute. reflexivity.
  - unfold Binary64.reads_as. vm_compute. discriminate.
  - intros text H. unfold Binary64.reads_as in H.
    set (v := Binary64.value _) in H. set (u := Binary64.ulp _) in H.
    assert (Hv : v == 6828226005744428 # 41538374868278621028243970633760768)
      by (vm_compute; reflexivity).
    assert (Hu : u / 2 == 1 # 83076749736557242056487941267521536)
      by (vm_compute; reflexivity).
    apply Qabs_Qle_condition in H. destruct H as [Hlo Hhi].
    rewrite Hv, Hu in Hlo, Hhi.
    apply small_is_stored_as_zero; lra.
Qed.

End Signs.

(** ** The two creation paths *)

Module Creation.
Import InterestService ReimbursementService.
Import InterestTerms ReimbursementTerms.
Import InterestFacts RunFacts WrittenRows CreateFacts.

Lemma NoDup_positions_of_one_day (day : date) (l : list Reimbursement) :
  (forall r, In r l -> r_period_start r = day) ->
  NoDup (map period_key l) -> NoDup (map r_position_id l).
Proof.
  induction l as [| r l IH]; cbn; intros Hday ND; [constructor |].
  inversion ND as [| ? ? Hnotin ND']; subst. constructor.
  - intro HIn. apply Hnotin. apply in_map_iff in HIn. destruct HIn as [r' [Hp HIn]].
    apply in_map_iff. exists r'. split; [| exact HIn].
    unfold period_key. rewrite Hp, (Hday r' (or_intror HIn)), (Hday r (or_introl eq_refl)).
    reflexivity.
  - apply IH; auto.
Qed.

(** What one call of [createReimbursementEntries] inserts. *)
Lemma createReimbursementEntries_created now date st :
  exists created,
    reimbursements (snd (createReimbursementEntries now date st))
    = reimbursements st ++ created
    /\ fst (createReimbursementEntries now date st) = Normal (List.length created)
    /\ same_but_reimbursements st (snd (createReimbursementEntries now date st))
    /\ NoDup (map r_position_id created)
    /\ (forall r, In r created -> created_entry now (DATE date) st r)
    /\ (forall row, In row (positionsNeedingReimbursement date st) ->
          existing (i_position_id (subject row)) (DATE date)
            (snd (createReimbursementEntries now date st)) <> []).
Proof.
  unfold createReimbursementEntries.
  destruct (createEntries_spec now (positionsNeedingReimbursement date st) st 0)
    as (created & Hr & Hn & Hs & Hf & Hnd & Hex).
  destruct (createEntries now (positionsNeedingReimbursement date st) st 0) as [st' n].
  cbn [fst snd] in *. subst n. rewrite Forall_forall in Hf.
  assert (Hall : forall r, In r created -> created_entry now (DATE date) st r).
  { intros r HIn.
    destruct (Hf r HIn) as (Hfr & Hpe & Hnone & row & Hrow & Hp & Hd & Ha).
    destruct (positionsNeedingReimbursement_row date st row Hrow) as (Hsnap & Hday & Hpos).
    assert (Hstart : r_period_start r = DATE date) by congruence.
    unfold created_entry. rewrite Hpe, Hstart. rewrite Hstart in Hnone.
    repeat split; try apply Hfr; auto.
    exists (subject row). repeat split; auto. }
  exists created.
  split; [exact Hr |]. split; [reflexivity |]. split; [exact Hs |].
  split; [| split; [exact Hall |]].
  - apply (NoDup_positions_of_one_day (DATE date)); [| exact Hnd].
    intros r HIn. apply (Hall r HIn).
  - intros row Hrow.
    destruct (positionsNeedingReimbursement_row date st row Hrow) as (_ & <- & _).
    now apply Hex.
Qed.

End Creation.

Module CreationPaths.
Import InterestService ReimbursementService.
Import InterestTerms ReimbursementTerms.
Import InterestFacts RunFacts WrittenRows CreateFacts Creation.

(** C2, as stated, fails on the inline path: the reimbursement the
    borrower run creates for the snapshot of day 20000 has
    [period_start] the day before, not the snapshot day. *)
Lemma inline_reimbursement_period_is_not_the_snapshot_day :
  ~ (forall r,
       In r (reimbursements
               (store_after (processDailySnapshot (Sample.rates 0.18 0.18) Sample.noon
                               Sample.one_market))) ->
       r_period_start r = DATE Sample.noon /\ r_period_end r = DATE Sample.noon).
Proof.
  intro H.
  assert (Hex : exists r,
             In r (reimbursements
                     (store_after (processDailySnapshot (Sample.rates 0.18 0.18)
                                     Sample.noon Sample.one_market)))
             /\ r_period_start r = 19999%Z).
  { eexists. split; [vm_compute; left; reflexivity | reflexivity]. }
  destruct Hex as [r [HIn Hs]]. destruct (H r HIn) as [Hs' _].
  rewrite Hs in Hs'. vm_compute in Hs'. discriminate.
Qed.

End CreationPaths.

(** ** Caps that are zero or negative *)

Module NonPositiveCap.
Import InterestService InterestTerms InterestFacts.

(** C3, as stated, fails for a negative cap: with apr_cap = -5%, a debt
    of 1000 and a rate of 10%, the interest above cap recorded is not
    the interest accrued (it is 1000 * 0.15 / 365 against
    1000 * 0.10 / 365). *)
Lemma negative_cap_excess_is_not_the_accrued_interest :
  exists snap,
    interest_snapshots
      (store_after (processPosition (Sample.rates 0.10 0.10) Sample.noon
                      Sample.bob Sample.negative_cap)) = [snap]
    /\ getCappedRate Sample.negative_cap (market_id Sample.bob) <= 0
    /\ ~ i_interest_above_cap snap == i_interest_accrued snap.
Proof.
  eexists. split; [vm_compute; reflexivity |]. split.
  - vm_compute. discriminate.
  - vm_compute. discriminate.
Qed.

Lemma excess_under_nonpositive_cap (p r c : Q) :
  c <= 0 -> 0 <= p -> 0 <= r -> 0 <= p * (r / 365) - p * (c / 365).
Proof.
  intros Hc Hp Hr.
  assert (E : p * (r / 365) - p * (c / 365) == (p * r + p * (- c)) * (1 # 365)) by field.
  rewrite E.
  assert (0 <= p * r) by (apply Qmult_le_0_compat; assumption).
  assert (0 <= p * (- c)) by (apply Qmult_le_0_compat; [assumption | lra]).
  lra.
Qed.

(** C3, amended. For a market whose stored cap [c] is zero or negative
    and a position in it with a debt [p] >= 0 observed at a rate >= 0,
    the interest above cap recorded is the interest accrued minus
    p*c/365: never less than the interest accrued, and equal to it when
    the cap is zero. *)
Theorem nonpositive_cap_counts_all_interest_and_more :
  forall rs now st position m s,
    NoDup (map m_market_id (markets st)) ->
    In m (markets st) ->
    m_market_id m = market_id position ->
    rs (market_id position) = MarketWithState s ->
    m_apr_cap m <= 0 ->
    0 <= current_debt position ->
    0 <= borrowApy s ->
    exists snap,
      interest_snapshots (store_after (processPosition rs now position st))
      = interest_snapshots st ++ [snap]
      /\ i_position_id snap = id position
      /\ i_interest_above_cap snap
         == i_interest_accrued snap - current_debt position * m_apr_cap m / 365
      /\ i_interest_accrued snap <= i_interest_above_cap snap
      /\ (m_apr_cap m == 0 -> i_interest_above_cap snap == i_interest_accrued snap).
Proof.
  intros rs now st position m s ND HIn Hm Hs Hc Hp Hr.
  exists (snapshot_of now st position s).
  split; [now apply processPosition_snapshots |].
  cbn [snapshot_of i_position_id i_interest_accrued i_interest_above_cap].
  rewrite <- Hm, (getCappedRate_market st m ND HIn).
  pose proof (excess_under_nonpositive_cap _ _ _ Hc Hp Hr) as Hx.
  rewrite (Math_max_0_of_nonneg _ Hx).
  split; [reflexivity |]. split; [field |]. split.
  - assert (0 <= current_debt position * (- m_apr_cap m))
      by (apply Qmult_le_0_compat; [assumption | lra]).
    assert (E : current_debt position * (m_apr_cap m / 365)
                == - (current_debt position * (- m_apr_cap m)) * (1 # 365)) by field.
    rewrite E. lra.
  - intro H0. rewrite H0. field.
Qed.

Lemma nonpositive_cap_counts_all_interest_and_more_witness :
  exists snap,
    interest_snapshots
      (store_after (processPosition (Sample.rates 0.10 0.10) Sample.noon
                      Sample.bob Sample.negative_cap))
    = interest_snapshots Sample.negative_cap ++ [snap]
    /\ i_position_id snap = id Sample.bob
    /\ i_interest_above_cap snap
       == i_interest_accrued snap
          - current_debt Sample.bob * m_apr_cap Sample.subsidised / 365
    /\ i_interest_accrued snap <= i_interest_above_cap snap
    /\ (m_apr_cap Sample.subsidised == 0 ->
        i_interest_above_cap snap == i_interest_accrued snap).
Proof.
  apply (nonpositive_cap_counts_all_interest_and_more
           (Sample.rates 0.10 0.10) Sample.noon Sample.negative_cap Sample.bob
           Sample.subsidised {| borrowApy := 0.10; supplyApy := 0.10 |}).
  - repeat constructor. simpl. tauto.
  - left. reflexivity.
  - reflexivity.
  - reflexivity.
  - vm_compute. discriminate.
  - vm_compute. discriminate.
  - vm_compute. discriminate.
Defined.

End NonPositiveCap.

(** ** Sorting and joining keep the rows *)

Section SortFacts.
Context {A : Type} (leb : A -> A -> bool).

Lemma insert_by_perm (x : A) (l : list A) : Permutation (insert_by leb x l) (x :: l).
Proof.
  induction l as [| y l IH]; cbn; [reflexivity |].
  destruct (leb x y); [reflexivity |].
  rewrite IH. apply perm_swap.
Qed.

Lemma sort_by_perm (l : list A) : Permutation (sort_by leb l) l.
Proof.
  induction l as [| x l IH]; cbn; [reflexivity |].
  fold (sort_by leb l). rewrite insert_by_perm. now constructor.
Qed.

Lemma sort_by_In (l : list A) (x : A) : In x (sort_by leb l) <-> In x l.
Proof.
  split; apply Permutation_in; [| symmetry]; apply sort_by_perm.
Qed.

Lemma sort_by_length (l : list A) : List.length (sort_by leb l) = List.length l.
Proof. apply Permutation_length, sort_by_perm. Qed.

Lemma sort_by_NoDup_map {K : Type} (key : A -> K) (l : list A) :
  NoDup (map key l) -> NoDup (map key (sort_by leb l)).
Proof.
  apply Permutation_NoDup. apply Permutation_map. symmetry. apply sort_by_perm.
Qed.
End SortFacts.

Section JoinFacts.
Context {A B : Type} (on : A -> B -> bool).

Lemma join_In (l : list A) (r : list B) (a : A) (b : B) :
  In (a, b) (join on l r) <-> In a l /\ In b r /\ on a b = true.
Proof.
  unfold join. rewrite in_flat_map. split.
  - intros [a' [Ha HIn]]. apply in_map_iff in HIn. destruct HIn as [b' [E Hb]].
    inversion E; subst. apply filter_In in Hb. tauto.
  - intros (Ha & Hb & Hon). exists a. split; [exact Ha |].
    apply in_map_iff. exists b. split; [reflexivity |]. now apply filter_In.
Qed.

(** Rows that match at most one row on the right do not multiply. *)
Lemma join_NoDup_left {K : Type} (key : A -> K) (l : list A) (r : list B) :
  (forall a, In a l -> (List.length (filter (on a) r) <= 1)%nat) ->
  NoDup (map key l) -> NoDup (map (fun row => key (fst row)) (join on l r)).
Proof.
  induction l as [| a l IH]; intros Hone ND; [constructor |].
  inversion ND as [| ? ? Hnotin ND']; subst.
  unfold join. cbn [flat_map]. rewrite map_app. fold (join on l r).
  assert (IH' := IH (fun a' H => Hone a' (or_intror H)) ND').
  specialize (Hone a (or_introl eq_refl)).
  destruct (filter (on a) r) as [| b [| b' more]]; cbn in Hone |- *; [exact IH' | | lia].
  constructor; [| exact IH'].
  intro HIn. apply in_map_iff in HIn. destruct HIn as [[a' b'] [Hk HIn]].
  apply join_In in HIn. cbn in Hk. apply Hnotin. rewrite <- Hk.
  apply in_map. tauto.
Qed.
End JoinFacts.

Section KeyLookup.
Context {A K : Type} (key : A -> K) (eqb : K -> K -> bool).
Hypothesis eqb_spec : forall x y, eqb x y = true <-> x = y.

Lemma filter_key_at_most_one (k : K) (l : list A) :
  NoDup (map key l) -> (List.length (filter (fun a => eqb (key a) k) l) <= 1)%nat.
Proof.
  intro ND. destruct (filter (fun a => eqb (key a) k) l) as [| a rest] eqn:E; [cbn; lia |].
  assert (Ha : In a l /\ eqb (key a) k = true).
  { apply (proj1 (filter_In (fun a => eqb (key a) k) a l)). rewrite E. now left. }
  destruct Ha as [Ha Hk]. apply eqb_spec in Hk. subst k.
  rewrite (filter_key_unique key eqb eqb_spec a l ND Ha) in E.
  inversion E. cbn. lia.
Qed.
End KeyLookup.

(** ** Compounding of the debt *)

Module Compounding.
Import InterestService VaultSupplyService InterestTerms RunTerms.
Import InterestFacts RunFacts.

Lemma PositionStatus_eqb_iff a b : PositionStatus_eqb a b = true <-> a = b.
Proof. destruct a, b; cbn; split; congruence. Qed.

Lemma getActivePositions_In st row :
  In row (getActivePositions st) <->
  In (fst row) (borrower_positions st) /\ In (snd row) (markets st)
  /\ bp_market_id (fst row) = m_market_id (snd row)
  /\ bp_status (fst row) = active.
Proof.
  unfold getActivePositions. rewrite sort_by_In, filter_In.
  destruct row as [bp m]. unfold PositionRow.
  rewrite join_In, PositionStatus_eqb_iff, String.eqb_eq.
  cbn [fst snd]. tauto.
Qed.

Lemma getActivePositions_NoDup st :
  NoDup (map bp_id (borrower_positions st)) ->
  NoDup (map m_market_id (markets st)) ->
  NoDup (map id (getActivePositions st)).
Proof.
  intros NDp NDm. unfold getActivePositions.
  apply (sort_by_NoDup_map _ id).
  assert (ND : NoDup (map (fun row : PositionRow => bp_id (fst row))
                        (join (fun bp m => String.eqb (bp_market_id bp) (m_market_id m))
                           (borrower_positions st) (markets st)))).
  { apply join_NoDup_left; [| exact NDp]. intros bp _.
    rewrite (filter_ext _ (fun m => String.eqb (m_market_id m) (bp_market_id bp)))
      by (intro m; apply String.eqb_sym).
    apply (filter_key_at_most_one m_market_id String.eqb String_eqb_iff). exact NDm. }
  revert ND. generalize (join (fun bp m => String.eqb (bp_market_id bp) (m_market_id m))
                           (borrower_positions st) (markets st)).
  intro l. induction l as [| row l IH]; cbn; intro ND; [constructor |].
  inversion ND as [| ? ? Hnotin ND']; subst.
  destruct (PositionStatus_eqb (bp_status (fst row)) active); [| now apply IH].
  cbn. constructor; [| now apply IH].
  intro HIn. apply Hnotin. apply in_map_iff in HIn. destruct HIn as [row' [E HIn]].
  apply filter_In in HIn. apply in_map_iff. exists row'. tauto.
Qed.

Lemma processPosition_positions rs now position st s :
  rs (InterestService.market_id position) = MarketWithState s ->
  borrower_positions (store_after (processPosition rs now position st))
  = map (fun bp =>
           if (bp_id bp =? id position)%Z
           then with_debt now
                  (current_debt position + current_debt position * (borrowApy s / 365)) bp
           else bp)
      (borrower_positions st).
Proof.
  intro H. unfold processPosition, getMarketState. rewrite H. cbn [state store_after].
  unfold updatePositionDebt. cbn [borrower_positions with_borrower_positions].
  destruct (Qlt_bool 0 _); reflexivity.
Qed.

(** A snapshot once written stays. *)
Lemma processPosition_keeps_snapshots rs now position st snap :
  In snap (interest_snapshots st) ->
  In snap (interest_snapshots (store_after (processPosition rs now position st))).
Proof.
  intro HIn. destruct (processPosition_cases rs now position st) as [-> | [s Hs]]; [exact HIn |].
  rewrite (processPosition_snapshots _ _ _ _ _ Hs). apply in_or_app. now left.
Qed.

(** A position none of the rows is about keeps its row. *)
Lemma processPosition_other rs now position st bp :
  id position <> bp_id bp ->
  In bp (borrower_positions st) ->
  In bp (borrower_positions (store_after (processPosition rs now position st))).
Proof.
  intros Hne HIn.
  destruct (processPosition_cases rs now position st) as [-> | [s Hs]]; [exact HIn |].
  rewrite (processPosition_positions _ _ _ _ _ Hs). apply in_map_iff. exists bp.
  split; [| exact HIn].
  destruct (bp_id bp =? id position)%Z eqn:E; [| reflexivity].
  apply Z.eqb_eq in E. congruence.
Qed.

Lemma processPositions_others rs now rows bp :
  (forall row, In row rows -> id row <> bp_id bp) ->
  forall st p c,
    In bp (borrower_positions st) ->
    In bp (borrower_positions (final_store (processPositions rs now rows st p c))).
Proof.
  intros Hne st p c.
  apply (processPositions_invariant_in rs now rows
           (fun st' => In bp (borrower_positions st'))).
  intros st' position Hrow. apply processPosition_other. now apply Hne.
Qed.

Lemma final_store_cons rs now position rest st p c :
  exists p' c',
    final_store (processPositions rs now (position :: rest) st p c)
    = final_store (processPositions rs now rest
                     (store_after (processPosition rs now position st)) p' c').
Proof.
  cbn [processPositions].
  destruct (completed_as (processPosition rs now position st)).
  - exists (S p), (if checkRecentReimbursement now (id position)
                          (store_after (processPosition rs now position st))
                     then S c else c).
    destruct (processPositions rs now rest _ (S p) _) as [[[st' p'] c'] out]. reflexivity.
  - exists p, c.
    destruct (processPositions rs now rest _ p c) as [[[st' p'] c'] out]. reflexivity.
Qed.

Lemma NoDup_map_inj {A K : Type} (key : A -> K) (l : list A) (x y : A) :
  NoDup (map key l) -> In x l -> In y l -> key x = key y -> x = y.
Proof.
  induction l as [| a l IH]; cbn; intros ND Hx Hy E; [contradiction |].
  inversion ND as [| ? ? Hnotin ND']; subst.
  destruct Hx as [-> | Hx], Hy as [-> | Hy]; auto.
  - exfalso. apply Hnotin. rewrite E. now apply in_map.
  - exfalso. apply Hnotin. rewrite <- E. now apply in_map.
Qed.

(** The row of a position is rewritten once, from the debt its row had
    when the run fetched it. *)
Lemma processPositions_compounds rs now rows :
  NoDup (map id rows) ->
  forall st p c bp row s,
    In row rows -> id row = bp_id bp ->
    rs (InterestService.market_id row) = MarketWithState s ->
    In bp (borrower_positions st) ->
    let st' := final_store (processPositions rs now rows st p c) in
    In (with_debt now (current_debt row + current_debt row * (borrowApy s / 365)) bp)
      (borrower_positions st')
    /\ exists snap,
         In snap (interest_snapshots st')
         /\ i_position_id snap = id row
         /\ i_snapshot_date snap = DATE now
         /\ i_interest_accrued snap = current_debt row * (borrowApy s / 365).
Proof.
  induction rows as [| row0 rest IH]; intros ND st p c bp row s Hrow Hid Hs Hbp; [contradiction |].
  inversion ND as [| ? ? Hnotin ND']; subst.
  destruct (final_store_cons rs now row0 rest st p c) as (p' & c' & E).
  cbn zeta. rewrite E. clear E.
  destruct Hrow as [-> | Hrow].
  - split.
    + apply processPositions_others.
      * intros row' Hrow' E'. apply Hnotin. cbn [bp_id with_debt] in E'.
        rewrite Hid, <- E'. now apply in_map.
      * rewrite (processPosition_positions _ _ _ _ _ Hs). apply in_map_iff.
        exists bp. split; [| exact Hbp].
        rewrite Hid, Z.eqb_refl. reflexivity.
    + exists (snapshot_of now st row s). split; [| repeat split].
      apply (processPositions_invariant rs now
               (fun st' => In (snapshot_of now st row s) (interest_snapshots st'))).
      * intros st' position. apply processPosition_keeps_snapshots.
      * rewrite (processPosition_snapshots _ _ _ _ _ Hs). apply in_or_app. right. now left.
  - apply (IH ND'); auto.
    apply processPosition_other; [| exact Hbp].
    intro E'. apply Hnotin. rewrite E', <- Hid. now apply in_map.
Qed.

(** A position whose market has no state keeps its row. *)
Lemma processPositions_skips rs now rows bp :
  (forall row, In row rows -> id row = bp_id bp ->
               forall s, rs (InterestService.market_id row) <> MarketWithState s) ->
  forall st p c,
    In bp (borrower_positions st) ->
    In bp (borrower_positions (final_store (processPositions rs now rows st p c))).
Proof.
  intros Hskip st p c.
  apply (processPositions_invariant_in rs now rows
           (fun st' => In bp (borrower_positions st'))).
  intros st' position Hrow HIn.
  destruct (Z.eq_dec (id position) (bp_id bp)) as [E | Hne].
  - rewrite processPosition_snapshots_skipped; [exact HIn |]. now apply Hskip.
  - now apply processPosition_other.
Qed.

Lemma processPosition_ids rs now position st :
  map bp_id (borrower_positions (store_after (processPosition rs now position st)))
  = map bp_id (borrower_positions st).
Proof.
  destruct (processPosition_cases rs now position st) as [-> | [s Hs]]; [reflexivity |].
  rewrite (processPosition_positions _ _ _ _ _ Hs), map_map. apply map_ext.
  intro bp. now destruct (bp_id bp =? id position)%Z.
Qed.

End Compounding.

Module DebtUpdate.
Import InterestService VaultSupplyService InterestTerms RunTerms.
Import InterestFacts RunFacts Compounding.

Lemma processDailySnapshot_store rs now st :
  store_after (processDailySnapshot rs now st)
  = final_store (processPositions rs now (getActivePositions st) st 0 0).
Proof.
  unfold processDailySnapshot.
  destruct (getActivePositions st) as [| row rows] eqn:E; [reflexivity |].
  cbn [List.length Nat.eqb].
  destruct (processPositions rs now (row :: rows) st 0 0) as [[[st' p'] c'] out].
  reflexivity.
Qed.

(** C8. With position ids and market ids unique, a borrower run leaves
    the same positions; a position it processes (active, its market
    stored and observed with a state) ends with its debt at the start
    plus the interest accrued of the snapshot written for it, which is
    that debt times r/365; any other position keeps its row. The run
    leaves the vault allocations as they were, and so does a vault run. *)
Theorem debt_compounds_once_from_the_balance_at_start :
  (forall rs now st,
      NoDup (map bp_id (borrower_positions st)) ->
      NoDup (map m_market_id (markets st)) ->
      let st' := store_after (processDailySnapshot rs now st) in
      map bp_id (borrower_positions st') = map bp_id (borrower_positions st)
      /\ (forall bp s,
            In bp (borrower_positions st) ->
            bp_status bp = active ->
            In (bp_market_id bp) (map m_market_id (markets st)) ->
            rs (bp_market_id bp) = MarketWithState s ->
            exists bp' snap,
              In bp' (borrower_positions st')
              /\ bp_id bp' = bp_id bp
              /\ In snap (interest_snapshots st')
              /\ i_position_id snap = bp_id bp
              /\ i_snapshot_date snap = DATE now
              /\ i_interest_accrued snap == bp_current_debt bp * borrowApy s / 365
              /\ bp_current_debt bp' = bp_current_debt bp + i_interest_accrued snap)
      /\ (forall bp,
            In bp (borrower_positions st) ->
            bp_status bp <> active
            \/ ~ In (bp_market_id bp) (map m_market_id (markets st))
            \/ (forall s, rs (bp_market_id bp) <> MarketWithState s) ->
            In bp (borrower_positions st')))
  /\ (forall rs now st,
        vault_allocations (store_after (processDailySnapshot rs now st))
        = vault_allocations st)
  /\ (forall rs now st,
        vault_allocations (store_after (processDailySupplySnapshots rs now st))
        = vault_allocations st).
Proof.
  split; [| split].
  - intros rs now st NDp NDm st'. subst st'.
    rewrite processDailySnapshot_store. split; [| split].
    + apply (processPositions_invariant rs now
               (fun st' => map bp_id (borrower_positions st')
                           = map bp_id (borrower_positions st))); [| reflexivity].
      intros st' position H. now rewrite processPosition_ids.
    + intros bp s Hbp Hact Hm Hs.
      apply in_map_iff in Hm. destruct Hm as [m [Hm HIn]].
      assert (Hrow : In (bp, m) (getActivePositions st))
        by (apply getActivePositions_In; cbn; auto).
      destruct (processPositions_compounds rs now (getActivePositions st)
                  (getActivePositions_NoDup st NDp NDm) st 0%nat 0%nat bp (bp, m) s
                  Hrow eq_refl Hs Hbp) as [Hbp' (snap & Hsnap & Hp & Hd & Ha)].
      eexists. exists snap. split; [exact Hbp' |].
      cbn [with_debt bp_id bp_current_debt]. repeat split; auto.
      * rewrite Ha. unfold current_debt. cbn [fst]. field.
      * now rewrite Ha.
    + intros bp Hbp Hnot. apply processPositions_skips; [| exact Hbp].
      intros row Hrow Hid s Hs.
      apply getActivePositions_In in Hrow. destruct Hrow as (Hfst & Hsnd & Hmk & Hact).
      assert (E : fst row = bp) by exact (NoDup_map_inj bp_id _ _ _ NDp Hfst Hbp Hid).
      subst bp. destruct Hnot as [Hn | [Hn | Hn]].
      * contradiction.
      * apply Hn. rewrite Hmk. now apply in_map.
      * exact (Hn s Hs).
  - intros rs now st.
    apply (processDailySnapshot_invariant rs now
             (fun st' => vault_allocations st' = vault_allocations st)); [| reflexivity].
    intros st' position H.
    destruct (processPosition_frame rs now position st') as (_ & _ & _ & E & _).
    now rewrite E.
  - intros rs now st.
    apply (processDailySupplySnapshots_invariant rs now
             (fun st' => vault_allocations st' = vault_allocations st)); [| reflexivity].
    intros st' allocation H.
    destruct (processAllocation_frame rs now allocation st') as (_ & _ & _ & E & _).
    now rewrite E.
Qed.

Lemma debt_compounds_once_from_the_balance_at_start_witness :
  let st' := store_after (processDailySnapshot (Sample.rates 0.18 0.18) Sample.noon
                            Sample.one_market) in
  map bp_id (borrower_positions st') = map bp_id (borrower_positions Sample.one_market)
  /\ (forall bp s,
        In bp (borrower_positions Sample.one_market) ->
        bp_status bp = active ->
        In (bp_market_id bp) (map m_market_id (markets Sample.one_market)) ->
        Sample.rates 0.18 0.18 (bp_market_id bp) = MarketWithState s ->
        exists bp' snap,
          In bp' (borrower_positions st')
          /\ bp_id bp' = bp_id bp
          /\ In snap (interest_snapshots st')
          /\ i_position_id snap = bp_id bp
          /\ i_snapshot_date snap = DATE Sample.noon
          /\ i_interest_accrued snap == bp_current_debt bp * borrowApy s / 365
          /\ bp_current_debt bp' = bp_current_debt bp + i_interest_accrued snap)
  /\ (forall bp,
        In bp (borrower_positions Sample.one_market) ->
        bp_status bp <> active
        \/ ~ In (bp_market_id bp) (map m_market_id (markets Sample.one_market))
        \/ (forall s, Sample.rates 0.18 0.18 (bp_market_id bp) <> MarketWithState s) ->
        In bp (borrower_positions st')).
Proof.
  apply (proj1 debt_compounds_once_from_the_balance_at_start
           (Sample.rates 0.18 0.18) Sample.noon Sample.one_market).
  - repeat constructor. simpl. tauto.
  - repeat constructor. simpl. tauto.
Defined.

End DebtUpdate.

(** ** A market the rate source does not know *)

Module MissingMarket.
Import InterestService InterestTerms RunTerms InterestFacts RunFacts.

Lemma processPosition_completion rs now position st :
  completed_as (processPosition rs now position st)
  = match getMarketState rs (market_id position) with
    | Throw message => Throw message
    | Normal _ => Normal tt
    end.
Proof.
  unfold processPosition. destruct (getMarketState rs (market_id position)) as [md | msg].
  - now destruct (state md).
  - reflexivity.
Qed.

Lemma getMarketState_not_found rs market_id :
  (forall message, rs market_id <> GraphQLErrors message) ->
  getMarketState rs market_id
  = (if not_found rs market_id
     then Throw ("No market data for marketId: " ++ market_id)
     else getMarketState rs market_id)
  /\ (not_found rs market_id = false -> exists md, getMarketState rs market_id = Normal md).
Proof.
  intro H. unfold getMarketState, not_found.
  destruct (rs market_id) eqn:E; split; try reflexivity; intros; eauto; try discriminate.
  now elim (H message).
Qed.

(** The counter goes up once for every position whose lookup does not
    throw, and every one that throws leaves its error line. *)
Lemma processPositions_counts rs now rows :
  (forall row, In row rows -> forall message, rs (market_id row) <> GraphQLErrors message) ->
  forall st p c,
    count_of (processPositions rs now rows st p c)
    = (p + List.length (filter (fun row => negb (not_found rs (market_id row))) rows))%nat
    /\ forall row, In row rows -> not_found rs (market_id row) = true ->
         In (ErrorProcessingPosition (id row)
               ("No market data for marketId: " ++ market_id row))
           (output_of (processPositions rs now rows st p c)).
Proof.
  induction rows as [| row0 rest IH]; intros Hno st p c.
  - cbn. split; [lia | contradiction].
  - assert (Hrest : forall row, In row rest ->
                      forall message, rs (market_id row) <> GraphQLErrors message)
      by (intros row Hrow; apply Hno; now right).
    destruct (getMarketState_not_found rs (market_id row0) (Hno row0 (or_introl eq_refl)))
      as [Hget Hok].
    cbn [processPositions filter]. rewrite processPosition_completion.
    destruct (not_found rs (market_id row0)) eqn:E.
    + rewrite Hget. cbn [negb].
      destruct (IH Hrest (store_after (processPosition rs now row0 st)) p c) as [Hc Hl].
      destruct (processPositions rs now rest _ p c) as [[[st' p'] c'] out].
      unfold count_of, output_of in *. cbn [fst snd] in *.
      split; [exact Hc |].
      intros row [<- | Hrow] Hnf.
      * apply in_or_app. right. now left.
      * apply in_or_app. right. right. now apply Hl.
    + destruct (Hok eq_refl) as [md ->]. cbn [negb List.length].
      destruct (IH Hrest (store_after (processPosition rs now row0 st)) (S p)
                  (if checkRecentReimbursement now (id row0)
                        (store_after (processPosition rs now row0 st))
                   then S c else c)) as [Hc Hl].
      destruct (processPositions rs now rest _ (S p) _) as [[[st' p'] c'] out].
      unfold count_of, output_of in *. cbn [fst snd] in *.
      split; [rewrite Hc; lia |].
      intros row [<- | Hrow] Hnf; [congruence |].
      apply in_or_app. right. now apply Hl.
Qed.

Lemma filter_negb_length {A : Type} (f : A -> bool) (l : list A) :
  (List.length (filter (fun x => negb (f x)) l) + List.length (filter f l))%nat
  = List.length l.
Proof.
  induction l as [| x l IH]; cbn; [reflexivity |].
  destruct (f x); cbn; lia.
Qed.

(** C5. Three active positions, the market of exactly one of them
    unknown to the rate source (and no GraphQL error for the others):
    the borrower run completes normally, prints that it processed 2 of
    3 positions, and prints the error line of the position it left out. *)
Theorem batch_survives_a_missing_market :
  forall rs now st,
    List.length (getActivePositions st) = 3%nat ->
    List.length (filter (fun row => not_found rs (market_id row))
                   (getActivePositions st)) = 1%nat ->
    (forall row, In row (getActivePositions st) ->
                 forall message, rs (market_id row) <> GraphQLErrors message) ->
    let run := processDailySnapshot rs now st in
    completed_as run = Normal tt
    /\ In (LogProcessed 2 3) (console run)
    /\ forall row, In row (getActivePositions st) ->
         rs (market_id row) = NotFound ->
         In (ErrorProcessingPosition (id row)
               ("No market data for marketId: " ++ market_id row))
           (console run).
Proof.
  intros rs now st H3 H1 Hno run. subst run. unfold processDailySnapshot.
  cbn zeta. rewrite !H3. cbn [Nat.eqb].
  destruct (processPositions_counts rs now (getActivePositions st) Hno st 0 0) as [Hc Hl].
  pose proof (filter_negb_length (fun row => not_found rs (market_id row))
                (getActivePositions st)) as Hsum.
  rewrite H1, H3 in Hsum.
  destruct (processPositions rs now (getActivePositions st) st 0 0)
    as [[[st' p'] c'] out].
  unfold count_of, output_of in *. cbn [fst snd] in *.
  assert (Hp : p' = 2%nat) by lia. clear Hc Hsum. subst p'.
  cbn [completed_as console]. split; [reflexivity |]. split.
  - right. apply in_or_app. right. now left.
  - intros row Hrow Hnf. right. apply in_or_app. left.
    apply Hl; [exact Hrow |]. unfold not_found. now rewrite Hnf.
Qed.

Lemma batch_survives_a_missing_market_witness :
  let run := processDailySnapshot Sample.third_missing Sample.noon Sample.three_markets in
  completed_as run = Normal tt
  /\ In (LogProcessed 2 3) (console run)
  /\ forall row, In row (getActivePositions Sample.three_markets) ->
       Sample.third_missing (market_id row) = NotFound ->
       In (ErrorProcessingPosition (id row)
             ("No market data for marketId: " ++ market_id row))
         (console run).
Proof.
  apply (batch_survives_a_missing_market Sample.third_missing Sample.noon
           Sample.three_markets).
  - reflexivity.
  - reflexivity.
  - intros row Hrow message. unfold Sample.third_missing.
    destruct (String.eqb (market_id row) "WPOL/USDC"); discriminate.
Defined.

(** The other way of having no data: a market that comes back without a
    state takes the warning path of [processPosition], which returns
    normally, so the position is counted as processed. *)
Lemma market_without_state_counts_as_processed :
  console (processDailySnapshot Sample.third_without_state Sample.noon Sample.three_markets)
  = [LogFound 3;
     LogReimbursementCreated 1 (1000 * (0.18 / 365) - 1000 * (0.12 / 365));
     LogReimbursementCreated 2 (500 * (0.18 / 365) - 500 * (0.10 / 365));
     WarnNoMarketDataForPosition 3 "WPOL/USDC";
     LogProcessed 3 3;
     LogReimbursementsCreated 2].
Proof. vm_compute. reflexivity. Qed.

End MissingMarket.

(** ** ORDER BY ... LIMIT *)

Section SortedFacts.
Context {A : Type} (leb : A -> A -> bool).
Hypothesis leb_total : forall a b, leb a b = true \/ leb b a = true.
Hypothesis leb_trans : forall a b c, leb a b = true -> leb b c = true -> leb a c = true.

Lemma insert_by_sorted (x : A) (l : list A) :
  StronglySorted (fun a b => leb a b = true) l ->
  StronglySorted (fun a b => leb a b = true) (insert_by leb x l).
Proof.
  induction l as [| y l IH]; cbn; intro S.
  - repeat constructor.
  - apply StronglySorted_inv in S. destruct S as [S Hy].
    destruct (leb x y) eqn:E.
    + constructor; [now constructor |].
      constructor; [exact E |].
      eapply Forall_impl; [| exact Hy]. intros z Hz. exact (leb_trans _ _ _ E Hz).
    + constructor; [now apply IH |].
      assert (Hyx : leb y x = true) by (destruct (leb_total x y); [congruence | assumption]).
      rewrite Forall_forall in *. intros z Hz.
      apply (Permutation_in _ (insert_by_perm leb x l)) in Hz.
      destruct Hz as [<- | Hz]; auto.
Qed.

Lemma sort_by_sorted (l : list A) :
  StronglySorted (fun a b => leb a b = true) (sort_by leb l).
Proof.
  induction l as [| x l IH]; cbn; [constructor |].
  now apply insert_by_sorted.
Qed.

(** What LIMIT keeps goes before what it drops. *)
Lemma sorted_firstn_skipn (l : list A) :
  StronglySorted (fun a b => leb a b = true) l ->
  forall n a b, In a (firstn n l) -> In b (skipn n l) -> leb a b = true.
Proof.
  induction 1 as [| x l S IH Hx]; intros n a b Ha Hb.
  - destruct n; contradiction.
  - destruct n as [| n]; [contradiction |]. cbn in Ha, Hb.
    destruct Ha as [<- | Ha].
    + rewrite Forall_forall in Hx. apply Hx.
      rewrite <- (firstn_skipn n l). apply in_or_app. now right.
    + now apply (IH n).
Qed.
End SortedFacts.

Lemma NoDup_firstn {A : Type} (n : nat) (l : list A) : NoDup l -> NoDup (firstn n l).
Proof.
  intro ND. rewrite <- (firstn_skipn n l) in ND. now apply NoDup_app_remove_r in ND.
Qed.

Lemma In_firstn {A : Type} (n : nat) (l : list A) (x : A) : In x (firstn n l) -> In x l.
Proof.
  intro H. rewrite <- (firstn_skipn n l). apply in_or_app. now left.
Qed.

Lemma NoDup_of_map {A K : Type} (key : A -> K) (l : list A) :
  NoDup (map key l) -> NoDup l.
Proof.
  induction l as [| a l IH]; cbn; intro ND; [constructor |].
  inversion ND as [| ? ? Hnotin ND']; subst.
  constructor; [| now apply IH]. intro HIn. apply Hnotin. now apply in_map.
Qed.

(** ** Retrying failed reimbursements *)

Module Retry.
Import ReimbursementService ReimbursementTerms CreateFacts Compounding.

Lemma ReimbursementStatus_eqb_iff a b : ReimbursementStatus_eqb a b = true <-> a = b.
Proof. destruct a, b; cbn; split; congruence. Qed.

Lemma selectFailed_chosen limit st : selectFailed limit st = map r_id (chosen limit st).
Proof. reflexivity. Qed.

Lemma chosen_In limit st r :
  In r (chosen limit st) -> In r (reimbursements st) /\ r_status r = failed.
Proof.
  intro H. apply In_firstn, sort_by_In, filter_In in H.
  now rewrite ReimbursementStatus_eqb_iff in H.
Qed.

Lemma chosen_newest limit st r r' :
  In r (chosen limit st) ->
  In r' (reimbursements st) -> r_status r' = failed -> ~ In r' (chosen limit st) ->
  (r_created_at r' <= r_created_at r)%Z.
Proof.
  intros Hr Hr' Hf Hnot. unfold chosen in *.
  set (sorted := sort_by newest_first
                   (filter (fun r => ReimbursementStatus_eqb (r_status r) failed)
                      (reimbursements st))) in *.
  assert (Hs : In r' sorted).
  { apply sort_by_In, filter_In. now rewrite ReimbursementStatus_eqb_iff. }
  rewrite <- (firstn_skipn (Z.to_nat limit) sorted) in Hs.
  apply in_app_or in Hs. destruct Hs as [Hs | Hs]; [contradiction |].
  apply Z.leb_le.
  apply (sorted_firstn_skipn newest_first) with (l := sorted) (n := Z.to_nat limit); auto.
  apply sort_by_sorted.
  - intros a b. unfold newest_first. rewrite !Z.leb_le. lia.
  - intros a b c. unfold newest_first. rewrite !Z.leb_le. lia.
Qed.

Lemma chosen_NoDup limit st :
  NoDup (map r_id (reimbursements st)) -> NoDup (chosen limit st).
Proof.
  intro ND. apply NoDup_firstn.
  apply (Permutation_NoDup (Permutation_sym (sort_by_perm _ _))).
  apply NoDup_filter. now apply (NoDup_of_map r_id).
Qed.

(** With ids unique the UPDATE hits the chosen rows and no other. *)
Lemma retried_iff limit st r :
  NoDup (map r_id (reimbursements st)) ->
  In r (reimbursements st) ->
  retried (selectFailed limit st) r = true <-> In r (chosen limit st).
Proof.
  intros ND Hr. unfold retried. rewrite andb_true_iff, ReimbursementStatus_eqb_iff.
  rewrite existsb_exists, selectFailed_chosen. split.
  - intros [_ [i [Hi E]]]. apply Z.eqb_eq in E. apply in_map_iff in Hi.
    destruct Hi as [r0 [E0 H0]].
    assert (r0 = r).
    { apply (NoDup_map_inj r_id _ _ _ ND); [now apply (chosen_In limit st) | exact Hr |].
      congruence. }
    now subst r0.
  - intro H. split; [now apply (chosen_In limit st) |].
    exists (r_id r). split; [now apply in_map | apply Z.eqb_refl].
Qed.

Lemma retried_count limit st :
  NoDup (map r_id (reimbursements st)) ->
  List.length (filter (retried (selectFailed limit st)) (reimbursements st))
  = List.length (chosen limit st).
Proof.
  intro ND. apply Permutation_length. apply NoDup_Permutation.
  - apply NoDup_filter. now apply (NoDup_of_map r_id).
  - now apply chosen_NoDup.
  - intro r. rewrite filter_In. split.
    + intros [Hr H]. now apply (retried_iff limit st r ND Hr).
    + intro H. assert (Hr : In r (reimbursements st)) by now apply (chosen_In limit st).
      split; [exact Hr |]. now apply retried_iff.
Qed.

Lemma reset_is_reset_of r : reset_of r (reset r).
Proof. repeat split. Qed.

(** C9, as stated, fails: a retry of limit 1 on two failed
    reimbursements resets the one created last and leaves failed the
    one that failed last (on day 19993, against day 19991); so it is not
    true that whatever is reset failed no earlier than whatever is
    left. *)
Lemma retry_does_not_pick_the_most_recently_failed :
  ~ (forall r r' t t',
       In r (reimbursements Sample.two_failed) ->
       In r' (reimbursements Sample.two_failed) ->
       r_status r = failed -> r_processed_at r = Some t ->
       r_status r' = failed -> r_processed_at r' = Some t' ->
       In (reset r) (reimbursements (snd (retryFailedReimbursements 1 Sample.two_failed))) ->
       In r' (reimbursements (snd (retryFailedReimbursements 1 Sample.two_failed))) ->
       (t' <= t)%Z).
Proof.
  intro H.
  assert (Hle : (19993 * 86400 <= 19991 * 86400 + 3600)%Z).
  { apply (H Sample.new_failed_first Sample.old_failed_last).
    - right. left. reflexivity.
    - left. reflexivity.
    - reflexivity.
    - reflexivity.
    - reflexivity.
    - reflexivity.
    - vm_compute. right. left. reflexivity.
    - vm_compute. left. reflexivity. }
  lia.
Qed.

(** The same from an empty table, by the service's own operations: two
    reimbursements created in one call share their creation time; two
    calls of limit 1 fail them one after the other; the retry of limit 1
    then resets the one that failed first. *)
Lemma retry_after_two_failed_batches :
  let created := snd (createReimbursementEntries Sample.noon Sample.noon Sample.two_excesses) in
  let first := snd (processPendingReimbursements Sample.always_fails
                      (Sample.noon + 100)%Z 1 created) in
  let second := snd (processPendingReimbursements Sample.always_fails
                       (Sample.noon + 200)%Z 1 first) in
  let retried := snd (retryFailedReimbursements 1 second) in
  map (fun r => (r_id r, r_status r, r_processed_at r)) (reimbursements second)
  = [(1%Z, failed, Some (Sample.noon + 100)%Z); (2%Z, failed, Some (Sample.noon + 200)%Z)]
  /\ map (fun r => (r_id r, r_status r, r_processed_at r)) (reimbursements retried)
     = [(1%Z, pending, None); (2%Z, failed, Some (Sample.noon + 200)%Z)].
Proof. split; vm_compute; reflexivity. Qed.

(** C9, amended. With ids unique and a limit N >= 0,
    [retryFailedReimbursements] resets at most N reimbursements (N, or
    all the failed ones if they are fewer); each was failed, and no
    failed one left out was created after one of them (they are taken
    most recently created first); a row reset is pending with no
    payment reference and no processing time and keeps its id,
    position, amount, period and creation time; every other row and
    every other table is unchanged; the value returned is the number
    of rows reset. The method has no access to the payment stub. *)
Theorem retry_resets_the_most_recently_created_failed :
  forall limit st,
    (0 <= limit)%Z ->
    NoDup (map r_id (reimbursements st)) ->
    exists reset_rows,
      let st' := snd (retryFailedReimbursements limit st) in
      fst (retryFailedReimbursements limit st) = Normal (List.length reset_rows)
      /\ (Z.of_nat (List.length reset_rows)
          = Z.min limit
              (Z.of_nat (List.length
                           (filter (fun r => ReimbursementStatus_eqb (r_status r) failed)
                              (reimbursements st)))))
      /\ (forall r, In r reset_rows -> In r (reimbursements st) /\ r_status r = failed)
      /\ (forall r r', In r reset_rows ->
                       In r' (reimbursements st) -> r_status r' = failed ->
                       ~ In r' reset_rows ->
                       (r_created_at r' <= r_created_at r)%Z)
      /\ Forall2 (fun r r' => (In r reset_rows /\ reset_of r r')
                              \/ (~ In r reset_rows /\ r' = r))
           (reimbursements st) (reimbursements st')
      /\ same_but_reimbursements st st'
      /\ reimbursements_id_seq st' = reimbursements_id_seq st.
Proof.
  intros limit st Hlimit ND. exists (chosen limit st).
  unfold retryFailedReimbursements.
  destruct (limit <? 0)%Z eqn:E; [apply Z.ltb_lt in E; lia |].
  cbn [fst snd]. split; [| split; [| split; [| split; [| split; [| split]]]]].
  - now rewrite retried_count.
  - unfold chosen. rewrite length_firstn, sort_by_length. lia.
  - apply chosen_In.
  - apply chosen_newest.
  - cbn [reimbursements with_reimbursements].
    assert (Hall : forall r, In r (reimbursements st) -> In r (reimbursements st)) by auto.
    revert Hall. generalize (reimbursements st) at 1 3 4. intro l.
    induction l as [| r l IH]; intro Hall; cbn [map]; constructor.
    + destruct (retried (selectFailed limit st) r) eqn:Er.
      * left. split; [| apply reset_is_reset_of].
        apply (retried_iff limit st r ND); [apply Hall; now left | exact Er].
      * right. split; [| reflexivity]. intro H.
        apply (retried_iff limit st r ND) in H; [congruence | apply Hall; now left].
    + apply IH. intros r' Hr'. apply Hall. now right.
  - repeat split.
  - reflexivity.
Qed.

Lemma retry_resets_the_most_recently_created_failed_witness :
  exists reset_rows,
    let st' := snd (retryFailedReimbursements 1 Sample.two_failed) in
    fst (retryFailedReimbursements 1 Sample.two_failed) = Normal (List.length reset_rows)
    /\ (Z.of_nat (List.length reset_rows)
        = Z.min 1
            (Z.of_nat (List.length
                         (filter (fun r => ReimbursementStatus_eqb (r_status r) failed)
                            (reimbursements Sample.two_failed)))))
    /\ (forall r, In r reset_rows ->
                  In r (reimbursements Sample.two_failed) /\ r_status r = failed)
    /\ (forall r r', In r reset_rows ->
                     In r' (reimbursements Sample.two_failed) -> r_status r' = failed ->
                     ~ In r' reset_rows ->
                     (r_created_at r' <= r_created_at r)%Z)
    /\ Forall2 (fun r r' => (In r reset_rows /\ reset_of r r')
                            \/ (~ In r reset_rows /\ r' = r))
         (reimbursements Sample.two_failed) (reimbursements st')
    /\ same_but_reimbursements Sample.two_failed st'
    /\ reimbursements_id_seq st' = reimbursements_id_seq Sample.two_failed.
Proof.
  apply (retry_resets_the_most_recently_created_failed 1 Sample.two_failed).
  - lia.
  - repeat constructor; simpl; intuition discriminate.
Defined.

End Retry.

(** ** Joins along foreign keys *)

Section FunctionalJoins.
Context {A B : Type} (on : A -> B -> bool).

(** A row with exactly one partner appears once. *)
Lemma join_one_each (l : list A) (r : list B) :
  (forall a, In a l -> exists b, filter (on a) r = [b]) ->
  map fst (join on l r) = l.
Proof.
  induction l as [| a l IH]; intro H; [reflexivity |].
  unfold join. cbn [flat_map]. fold (join on l r). rewrite map_app.
  destruct (H a (or_introl eq_refl)) as [b ->]. cbn.
  f_equal. apply IH. intros a' Ha'. apply H. now right.
Qed.

(** A row with at most one partner appears once in a LEFT JOIN. *)
Lemma left_join_one_each (l : list A) (r : list B) :
  (forall a, In a l -> (List.length (filter (on a) r) <= 1)%nat) ->
  map fst (left_join on l r) = l.
Proof.
  induction l as [| a l IH]; intro H; [reflexivity |].
  unfold left_join. cbn [flat_map]. fold (left_join on l r). rewrite map_app.
  assert (Ha := H a (or_introl eq_refl)).
  destruct (filter (on a) r) as [| b [| b' more]]; cbn in Ha |- *; try lia.
  - f_equal. apply IH. intros a' Ha'. apply H. now right.
  - f_equal. apply IH. intros a' Ha'. apply H. now right.
Qed.
End FunctionalJoins.

Section MapCommutes.
Context {A B : Type} (g : A -> B).

Lemma filter_map_comm (f : B -> bool) (l : list A) :
  filter f (map g l) = map g (filter (fun a => f (g a)) l).
Proof.
  induction l as [| a l IH]; cbn; [reflexivity |].
  destruct (f (g a)); cbn; now rewrite IH.
Qed.

Lemma insert_by_map (leb : B -> B -> bool) (x : A) (l : list A) :
  insert_by leb (g x) (map g l) = map g (insert_by (fun a b => leb (g a) (g b)) x l).
Proof.
  induction l as [| y l IH]; cbn; [reflexivity |].
  destruct (leb (g x) (g y)); cbn; [reflexivity | now rewrite IH].
Qed.

Lemma sort_by_map (leb : B -> B -> bool) (l : list A) :
  sort_by leb (map g l) = map g (sort_by (fun a b => leb (g a) (g b)) l).
Proof.
  induction l as [| x l IH]; cbn; [reflexivity |].
  fold (sort_by leb (map g l)). rewrite IH. apply insert_by_map.
Qed.
End MapCommutes.

(** ** Paying pending reimbursements *)

Module Payment.
Import ReimbursementService ReimbursementTerms CreateFacts Compounding Retry.

Lemma with_owner_subjects {X : Type} (position_id : X -> Z) (xs : list X) (st : Store) :
  wf_store st ->
  (forall x, In x xs -> In (position_id x) (map bp_id (borrower_positions st))) ->
  map subject (with_owner position_id xs st) = xs.
Proof.
  intros WF Hfk. unfold with_owner.
  set (J1 := join (fun x bp => (bp_id bp =? position_id x)%Z) xs (borrower_positions st)).
  set (J2 := join (fun (row : X * BorrowerPosition) m =>
                     String.eqb (m_market_id m) (bp_market_id (snd row)))
               J1 (markets st)).
  set (J3 := left_join _ J2 (vaults st)).
  set (J4 := left_join _ J3 (borrowers st)).
  assert (H1 : map fst J1 = xs).
  { apply join_one_each. intros x Hx.
    specialize (Hfk x Hx). apply in_map_iff in Hfk. destruct Hfk as [bp [E Hbp]].
    exists bp. rewrite <- E.
    apply (filter_key_unique bp_id Z.eqb Z_eqb_iff bp _ (wf_position_ids st WF) Hbp). }
  assert (H2 : map fst J2 = J1).
  { apply join_one_each. intros [x bp] Hrow.
    apply join_In in Hrow. destruct Hrow as (_ & Hbp & _).
    pose proof (wf_position_market st WF bp Hbp) as Hm.
    apply in_map_iff in Hm. destruct Hm as [m [E Hm]].
    exists m. cbn [snd]. rewrite <- E.
    apply (filter_key_unique m_market_id String.eqb String_eqb_iff m _
             (wf_market_ids st WF) Hm). }
  assert (H3 : map fst J3 = J2).
  { apply left_join_one_each. intros row _.
    destruct (bp_vault_id (snd (fst row))) as [i |].
    - apply (filter_key_at_most_one v_id Z.eqb Z_eqb_iff i). apply (wf_vault_ids st WF).
    - induction (vaults st); cbn; auto. }
  assert (H4 : map fst J4 = J3).
  { apply left_join_one_each. intros row _.
    destruct (bp_borrower_id (snd (fst (fst row)))) as [i |].
    - apply (filter_key_at_most_one b_id Z.eqb Z_eqb_iff i). apply (wf_borrower_ids st WF).
    - induction (borrowers st); cbn; auto. }
  transitivity (map fst (map fst (map fst (map fst J4)))).
  - now rewrite !map_map.
  - now rewrite H4, H3, H2, H1.
Qed.

(** With the constraints of the schema the SELECT returns, joined to
    their owners, the oldest pending reimbursements. *)
Lemma selectPending_picked limit st :
  wf_store st -> map subject (selectPending limit st) = picked limit st.
Proof.
  intro WF. unfold selectPending, picked.
  rewrite <- firstn_map.
  rewrite <- (sort_by_map subject oldest_first).
  rewrite <- (filter_map_comm subject
                (fun r => ReimbursementStatus_eqb (r_status r) pending)).
  rewrite with_owner_subjects; [reflexivity | exact WF |].
  intros r. apply (wf_reimbursement_position st WF).
Qed.

Lemma picked_In limit st r :
  In r (picked limit st) -> In r (reimbursements st) /\ r_status r = pending.
Proof.
  intro H. apply In_firstn, sort_by_In, filter_In in H.
  now rewrite ReimbursementStatus_eqb_iff in H.
Qed.

Lemma picked_oldest limit st r r' :
  In r (picked limit st) ->
  In r' (reimbursements st) -> r_status r' = pending -> ~ In r' (picked limit st) ->
  (r_created_at r <= r_created_at r')%Z.
Proof.
  intros Hr Hr' Hp Hnot. unfold picked in *.
  set (sorted := sort_by oldest_first
                   (filter (fun r => ReimbursementStatus_eqb (r_status r) pending)
                      (reimbursements st))) in *.
  assert (Hs : In r' sorted).
  { apply sort_by_In, filter_In. now rewrite ReimbursementStatus_eqb_iff. }
  rewrite <- (firstn_skipn (Z.to_nat limit) sorted) in Hs.
  apply in_app_or in Hs. destruct Hs as [Hs | Hs]; [contradiction |].
  apply Z.leb_le.
  apply (sorted_firstn_skipn oldest_first) with (l := sorted) (n := Z.to_nat limit); auto.
  apply sort_by_sorted.
  - intros a b. unfold oldest_first. rewrite !Z.leb_le. lia.
  - intros a b c. unfold oldest_first. rewrite !Z.leb_le. lia.
Qed.

Lemma picked_NoDup limit st :
  NoDup (map r_id (reimbursements st)) -> NoDup (map r_id (picked limit st)).
Proof.
  intro ND. unfold picked. rewrite <- firstn_map. apply NoDup_firstn.
  apply (Permutation_NoDup
           (Permutation_map r_id (Permutation_sym (sort_by_perm oldest_first _)))).
  revert ND. generalize (reimbursements st). intro l.
  induction l as [| r l IH]; cbn; intro ND; [constructor |].
  inversion ND as [| ? ? Hnotin ND']; subst.
  destruct (ReimbursementStatus_eqb (r_status r) pending); [| now apply IH].
  cbn. constructor; [| now apply IH].
  intro HIn. apply Hnotin. apply in_map_iff in HIn. destruct HIn as [r' [E HIn]].
  apply filter_In in HIn. apply in_map_iff. exists r'. tauto.
Qed.

Lemma picked_length limit st :
  (0 <= limit)%Z ->
  Z.of_nat (List.length (picked limit st))
  = Z.min limit
      (Z.of_nat (List.length
                   (filter (fun r => ReimbursementStatus_eqb (r_status r) pending)
                      (reimbursements st)))).
Proof.
  intro H. unfold picked. rewrite length_firstn, sort_by_length. lia.
Qed.

Lemma mark_completed_rows now tx i st :
  reimbursements (mark_completed now tx i st)
  = map (fun r => if (r_id r =? i)%Z then completed_with now tx r else r) (reimbursements st).
Proof. reflexivity. Qed.

Lemma mark_failed_rows now i st :
  reimbursements (mark_failed now i st)
  = map (fun r => if (r_id r =? i)%Z then failed_at now r else r) (reimbursements st).
Proof. reflexivity. Qed.

Lemma processSelected_cons pay now row rest call st acc :
  exists acc',
    processSelected pay now (row :: rest) call st acc
    = processSelected pay now rest (S call) (paid pay now call row st) acc'.
Proof.
  cbn [processSelected]. unfold paid.
  destruct (pay call (recipient_address row) (r_amount (subject row))); eauto.
Qed.

Lemma processSelected_invariant_in pay now rows (P : Store -> Prop) :
  (forall st call row, In row rows -> P st -> P (paid pay now call row st)) ->
  forall call st acc, P st -> P (fst (processSelected pay now rows call st acc)).
Proof.
  induction rows as [| row rest IH]; intros Hstep call st acc HP; [exact HP |].
  destruct (processSelected_cons pay now row rest call st acc) as [acc' ->].
  apply IH.
  - intros st0 call0 row0 Hrow0. apply Hstep. now right.
  - apply Hstep; [now left | exact HP].
Qed.

Lemma paid_other pay now call row st r :
  r_id (subject row) <> r_id r ->
  In r (reimbursements st) -> In r (reimbursements (paid pay now call row st)).
Proof.
  intros Hne HIn. unfold paid.
  destruct (pay call (recipient_address row) (r_amount (subject row))).
  - rewrite mark_completed_rows. apply in_map_iff. exists r. split; [| exact HIn].
    destruct (r_id r =? r_id (subject row))%Z eqn:E; [| reflexivity].
    apply Z.eqb_eq in E. congruence.
  - rewrite mark_failed_rows. apply in_map_iff. exists r. split; [| exact HIn].
    destruct (r_id r =? r_id (subject row))%Z eqn:E; [| reflexivity].
    apply Z.eqb_eq in E. congruence.
Qed.

Lemma paid_ids pay now call row st :
  map r_id (reimbursements (paid pay now call row st)) = map r_id (reimbursements st).
Proof.
  unfold paid. destruct (pay call (recipient_address row) (r_amount (subject row))).
  - rewrite mark_completed_rows, map_map. apply map_ext. intro r.
    now destruct (r_id r =? r_id (subject row))%Z.
  - rewrite mark_failed_rows, map_map. apply map_ext. intro r.
    now destruct (r_id r =? r_id (subject row))%Z.
Qed.

Lemma paid_same pay now call row st :
  same_but_reimbursements st (paid pay now call row st)
  /\ reimbursements_id_seq (paid pay now call row st) = reimbursements_id_seq st.
Proof.
  unfold paid. destruct (pay call (recipient_address row) (r_amount (subject row)));
    repeat split.
Qed.

(** A reimbursement no selected row is about keeps its row. *)
Lemma processSelected_others pay now rows r :
  (forall row, In row rows -> r_id (subject row) <> r_id r) ->
  forall call st acc,
    In r (reimbursements st) ->
    In r (reimbursements (fst (processSelected pay now rows call st acc))).
Proof.
  intros Hne call st acc.
  apply (processSelected_invariant_in pay now rows (fun st' => In r (reimbursements st'))).
  intros st' call' row Hrow. apply paid_other. now apply Hne.
Qed.

(** The row of the i-th selected reimbursement is rewritten once, by
    the outcome of the i-th payment of the batch. *)
Lemma processSelected_effect pay now rows :
  NoDup (map (fun row => r_id (subject row)) rows) ->
  forall call st acc i row r,
    nth_error rows i = Some row ->
    r_id (subject row) = r_id r ->
    In r (reimbursements st) ->
    In (match pay (call + i)%nat (recipient_address row) (r_amount (subject row)) with
        | Normal txHash => completed_with now txHash r
        | Throw _ => failed_at now r
        end)
      (reimbursements (fst (processSelected pay now rows call st acc))).
Proof.
  induction rows as [| row0 rest IH]; intros ND call st acc i row r Hnth Hid Hr.
  - destruct i; discriminate.
  - inversion ND as [| ? ? Hnotin ND']; subst.
    destruct (processSelected_cons pay now row0 rest call st acc) as [acc' ->].
    destruct i as [| i]; cbn [nth_error] in Hnth.
    + inversion Hnth; subst row0. rewrite Nat.add_0_r.
      apply processSelected_others.
      * intros row' Hrow' E. apply Hnotin.
        replace (r_id (subject row)) with (r_id (subject row')).
        -- apply (in_map (fun row => r_id (subject row))). exact Hrow'.
        -- rewrite Hid, E. now destruct (pay call _ _).
      * unfold paid. destruct (pay call (recipient_address row) (r_amount (subject row))).
        -- rewrite mark_completed_rows. apply in_map_iff. exists r.
           split; [| exact Hr]. now rewrite Hid, Z.eqb_refl.
        -- rewrite mark_failed_rows. apply in_map_iff. exists r.
           split; [| exact Hr]. now rewrite Hid, Z.eqb_refl.
    + replace (call + S i)%nat with (S call + i)%nat by lia.
      apply (IH ND'); auto.
      apply paid_other; [| exact Hr].
      intro E. apply Hnotin. rewrite E, <- Hid.
      apply (in_map (fun row => r_id (subject row))). eapply nth_error_In. exact Hnth.
Qed.

Lemma processSelected_counts pay now rows :
  forall call st acc,
    processed (snd (processSelected pay now rows call st acc))
    = (processed acc + successes pay call rows)%nat
    /\ (failed_count (snd (processSelected pay now rows call st acc))
        + successes pay call rows
        = failed_count acc + List.length rows)%nat.
Proof.
  induction rows as [| row rest IH]; intros call st acc.
  - cbn. lia.
  - cbn [processSelected successes List.length]. unfold succeeds.
    destruct (pay call (recipient_address row) (r_amount (subject row))).
    + destruct (IH (S call) (mark_completed now value (r_id (subject row)) st)
                  {| processed := S (processed acc);
                     failed_count := failed_count acc;
                     totalAmount := totalAmount acc + r_amount (subject row) |})
        as [Hp Hf].
      rewrite Hp. cbn [processed failed_count] in *. lia.
    + destruct (IH (S call) (mark_failed now (r_id (subject row)) st)
                  {| processed := processed acc;
                     failed_count := S (failed_count acc);
                     totalAmount := totalAmount acc |})
        as [Hp Hf].
      rewrite Hp. cbn [processed failed_count] in *. lia.
Qed.

(** Counting the payments that return by their call numbers. *)
Lemma successes_by_call pay (ok : nat -> bool) rows :
  forall call,
    (forall c a q, (call <= c < call + List.length rows)%nat ->
                   match pay c a q with Normal _ => true | Throw _ => false end = ok c) ->
    successes pay call rows = List.length (filter ok (seq call (List.length rows))).
Proof.
  induction rows as [| row rest IH]; intros call H; [reflexivity |].
  cbn [successes List.length seq filter]. unfold succeeds.
  rewrite (H call) by (cbn [List.length]; lia).
  rewrite (IH (S call)) by (intros c a q Hc; apply H; cbn [List.length]; lia).
  destruct (ok call); reflexivity.
Qed.

End Payment.

Module ProcessPending.
Import ReimbursementService ReimbursementTerms CreateFacts Compounding Retry Payment.

(** C4, as stated, fails: with limit 10 only ten of the twelve pending
    reimbursements are paid, so a single failure leaves 9 processed,
    not 11. *)
Lemma limit_ten_cannot_process_eleven :
  List.length (filter (fun r => ReimbursementStatus_eqb (r_status r) pending)
                 (reimbursements Sample.twelve_pending)) = 12%nat
  /\ ~ (exists result st',
          processPendingReimbursements Sample.seventh_fails Sample.evening 10
            Sample.twelve_pending = (Normal result, st')
          /\ processed result = 11%nat /\ failed_count result = 1%nat).
Proof.
  split; [reflexivity |].
  intros (result & st' & E & Hp & _).
  vm_compute in E. inversion E; subst. discriminate.
Qed.

(** C4, amended. On a store that satisfies the constraints of the schema
    and holds 12 pending reimbursements, a call with limit 10 whose
    seventh payment throws while the nine others return the references
    [reference 0 .. reference 9] selects the ten oldest (the SELECT
    returns them, joined to their owners, in the order [picked]), returns
    processed = 9 and failed = 1, leaves the seventh selected
    reimbursement failed with no new reference, each of the nine others
    completed with the reference of its own payment, and every
    reimbursement it did not select as it was: the failure undoes none
    of the completions. *)
Theorem one_failure_among_ten_selected :
  forall pay now st reference,
    wf_store st ->
    List.length (filter (fun r => ReimbursementStatus_eqb (r_status r) pending)
                   (reimbursements st)) = 12%nat ->
    (forall a q, exists message, pay 6%nat a q = Throw message) ->
    (forall call a q, (call < 10)%nat -> call <> 6%nat ->
                      pay call a q = Normal (reference call)) ->
    exists result st',
      processPendingReimbursements pay now 10 st = (Normal result, st')
      /\ processed result = 9%nat
      /\ failed_count result = 1%nat
      /\ map subject (selectPending 10 st) = picked 10 st
      /\ List.length (picked 10 st) = 10%nat
      /\ (forall r, In r (picked 10 st) -> In r (reimbursements st) /\ r_status r = pending)
      /\ (forall r r', In r (picked 10 st) ->
                       In r' (reimbursements st) -> r_status r' = pending ->
                       ~ In r' (picked 10 st) ->
                       (r_created_at r <= r_created_at r')%Z)
      /\ map r_id (reimbursements st') = map r_id (reimbursements st)
      /\ (forall r, nth_error (picked 10 st) 6 = Some r ->
                    In (failed_at now r) (reimbursements st'))
      /\ (forall i r, nth_error (picked 10 st) i = Some r -> i <> 6%nat ->
                      In (completed_with now (reference i) r) (reimbursements st'))
      /\ (forall r, In r (reimbursements st) -> ~ In r (picked 10 st) ->
                    In r (reimbursements st'))
      /\ same_but_reimbursements st st'.
Proof.
  intros pay now st reference WF H12 Hfail Hok.
  unfold processPendingReimbursements. cbn [Z.ltb Z.compare].
  pose proof (selectPending_picked 10 st WF) as Hsel.
  pose proof (picked_length 10 st ltac:(lia)) as Hlen. rewrite H12 in Hlen.
  assert (Hlen' : List.length (picked 10 st) = 10%nat) by lia. clear Hlen.
  assert (Hrows : List.length (selectPending 10 st) = 10%nat)
    by (rewrite <- Hlen', <- Hsel; symmetry; apply length_map).
  assert (NDsel : NoDup (map (fun row => r_id (subject row)) (selectPending 10 st))).
  { rewrite <- (map_map subject r_id), Hsel. apply picked_NoDup, (wf_reimbursement_ids st WF). }
  set (start := {| processed := 0; failed_count := 0; totalAmount := 0 |}).
  destruct (processSelected_counts pay now (selectPending 10 st) 0 st start) as [Hp Hf].
  assert (Hsucc : successes pay 0 (selectPending 10 st) = 9%nat).
  { rewrite (successes_by_call pay (fun c => negb (c =? 6)%nat)).
    - rewrite Hrows. reflexivity.
    - intros c a q Hc. rewrite Hrows in Hc.
      destruct (Nat.eq_dec c 6) as [-> | Hne].
      + destruct (Hfail a q) as [message ->]. reflexivity.
      + rewrite (Hok c a q) by lia.
        symmetry. apply negb_true_iff. now apply Nat.eqb_neq. }
  rewrite Hsucc, Hrows in *. cbn [processed failed_count start] in Hp, Hf.
  pose proof (fun r H => processSelected_others pay now (selectPending 10 st) r H
                           0%nat st start) as Hothers.
  pose proof (processSelected_effect pay now (selectPending 10 st) NDsel 0%nat st start)
    as Heffect.
  pose proof (fun P H => processSelected_invariant_in pay now (selectPending 10 st) P H
                           0%nat st start) as Hinv.
  destruct (processSelected pay now (selectPending 10 st) 0 st start) as [st' result].
  cbn [fst snd] in *.
  exists result, st'. split; [reflexivity |]. split; [exact Hp |]. split; [lia |].
  split; [exact Hsel |]. split; [exact Hlen' |]. split; [apply picked_In |]. split; [apply picked_oldest |].
  assert (Hnth : forall i r, nth_error (picked 10 st) i = Some r ->
                   exists row, nth_error (selectPending 10 st) i = Some row
                               /\ subject row = r).
  { intros i r Hi. rewrite <- Hsel, nth_error_map in Hi.
    destruct (nth_error (selectPending 10 st) i) as [row |]; [| discriminate].
    exists row. split; [reflexivity |]. now inversion Hi. }
  split; [| split; [| split; [| split]]].
  - apply (Hinv (fun st0 => map r_id (reimbursements st0) = map r_id (reimbursements st)));
      [| reflexivity].
    intros st0 call row _ H. now rewrite paid_ids.
  - intros r Hr. destruct (Hnth 6%nat r Hr) as (row & Hrow & <-).
    specialize (Heffect 6%nat row (subject row) Hrow eq_refl
                  (proj1 (picked_In 10 st _ (nth_error_In _ _ Hr)))).
    cbn [Nat.add] in Heffect.
    destruct (Hfail (recipient_address row) (r_amount (subject row))) as [message E].
    now rewrite E in Heffect.
  - intros i r Hr Hne. destruct (Hnth i r Hr) as (row & Hrow & <-).
    specialize (Heffect i row (subject row) Hrow eq_refl
                  (proj1 (picked_In 10 st _ (nth_error_In _ _ Hr)))).
    cbn [Nat.add] in Heffect.
    assert (Hi : (i < 10)%nat).
    { rewrite <- Hlen'. apply nth_error_Some. congruence. }
    now rewrite (Hok i _ _ Hi Hne) in Heffect.
  - intros r Hr Hnot. apply Hothers; [| exact Hr].
    intros row Hrow E. apply Hnot.
    assert (Hsub : In (subject row) (picked 10 st))
      by (rewrite <- Hsel; now apply in_map).
    assert (subject row = r).
    { apply (NoDup_map_inj r_id _ _ _ (wf_reimbursement_ids st WF)); auto.
      now apply (picked_In 10 st). }
    now subst r.
  - apply (Hinv (fun st0 => same_but_reimbursements st st0));
      [| apply same_but_reimbursements_refl].
    intros st0 call row _ H.
    eapply same_but_reimbursements_trans; [exact H | apply paid_same].
Qed.

Lemma twelve_pending_wf : wf_store Sample.twelve_pending.
Proof.
  constructor; cbn.
  - repeat constructor; simpl; tauto.
  - repeat constructor; simpl; tauto.
  - repeat constructor; simpl; tauto.
  - constructor.
  - repeat constructor; simpl; tauto.
  - repeat constructor; simpl; intuition discriminate.
  - intros r H. repeat (destruct H as [<- | H]; [cbn; lia |]). contradiction.
  - intros bp [<- | []]. now left.
  - intros r H. repeat (destruct H as [<- | H]; [now left |]). contradiction.
Qed.

Lemma one_failure_among_ten_selected_witness :
  exists result,
    fst (processPendingReimbursements Sample.seventh_fails Sample.evening 10
           Sample.twelve_pending) = Normal result
    /\ processed result = 9%nat
    /\ failed_count result = 1%nat.
Proof.
  destruct (one_failure_among_ten_selected Sample.seventh_fails Sample.evening
              Sample.twelve_pending Sample.reference twelve_pending_wf)
    as (result & st' & E & Hp & Hf & _).
  - reflexivity.
  - intros a q. exists "Simulated payment failure"%string. reflexivity.
  - intros call a q Hlt Hne. unfold Sample.seventh_fails.
    destruct (call =? 6)%nat eqn:E6; [| reflexivity].
    apply Nat.eqb_eq in E6. contradiction.
  - exists result. rewrite E. auto.
Defined.

End ProcessPending.

(** ** Running the snapshot engine twice on one day *)

Module Rerun.
Import InterestService VaultSupplyService.

(** C1, on the borrower side: [saveInterestSnapshot] is a plain INSERT
    into a table without a uniqueness constraint, so a second borrower
    run on the same day leaves two snapshots of the same position and
    day (and the second is computed from the debt the first run
    compounded). *)
Theorem borrower_rerun_inserts_a_second_snapshot :
  let once :=
    store_after (processDailySnapshot (Sample.rates 0.18 0.18) Sample.noon
                   Sample.one_market) in
  let twice :=
    store_after (processDailySnapshot (Sample.rates 0.18 0.18) Sample.evening once) in
  DATE Sample.noon = DATE Sample.evening
  /\ List.length (filter (fun snap => (i_position_id snap =? 1)%Z
                                      && (i_snapshot_date snap =? DATE Sample.noon)%Z)
                    (interest_snapshots once)) = 1%nat
  /\ List.length (filter (fun snap => (i_position_id snap =? 1)%Z
                                      && (i_snapshot_date snap =? DATE Sample.noon)%Z)
                    (interest_snapshots twice)) = 2%nat
  /\ exists first second,
       interest_snapshots twice = [first; second]
       /\ ~ i_interest_accrued first == i_interest_accrued second.
Proof.
  cbn zeta. split; [reflexivity |]. split; [vm_compute; reflexivity |].
  split; [vm_compute; reflexivity |].
  eexists. eexists. split; [vm_compute; reflexivity |].
  vm_compute. discriminate.
Qed.

End Rerun.

Lemma NoDup_map_filter {A K : Type} (key : A -> K) (f : A -> bool) (l : list A) :
  NoDup (map key l) -> NoDup (map key (filter f l)).
Proof.
  induction l as [| a l IH]; cbn; intro ND; [constructor |].
  inversion ND as [| ? ? Hnotin ND']; subst.
  destruct (f a); [| now apply IH].
  cbn. constructor; [| now apply IH].
  intro HIn. apply Hnotin. apply in_map_iff in HIn. destruct HIn as [a' [E HIn]].
  apply filter_In in HIn. apply in_map_iff. exists a'. tauto.
Qed.

Module SupplyRerun.
Import InterestService VaultSupplyService SupplyTerms SupplyFacts RunFacts.

Lemma conflicts_key data row :
  conflicts data row = true <-> snapshot_key row = data_key data.
Proof.
  rewrite conflicts_iff. unfold snapshot_key, data_key. split.
  - intros (-> & -> & ->). reflexivity.
  - intro E. inversion E. auto.
Qed.

Lemma snapshot_key_do_update data row : snapshot_key (do_update data row) = snapshot_key row.
Proof. reflexivity. Qed.

Lemma with_same_vault_supply_snapshots st :
  with_vault_supply_snapshots (vault_supply_snapshots st) st = st.
Proof. now destruct st. Qed.

(** An upsert of values the table already carries changes nothing. *)
Lemma saveSupplySnapshot_settled now data st :
  settled data (vault_supply_snapshots st) -> saveSupplySnapshot now data st = st.
Proof.
  intros [[row [HIn Hc]] Hall]. unfold saveSupplySnapshot.
  replace (existsb (conflicts data) (vault_supply_snapshots st)) with true
    by (symmetry; apply existsb_exists; eauto).
  rewrite <- (with_same_vault_supply_snapshots st) at 3. f_equal.
  rewrite <- (map_id (vault_supply_snapshots st)) at 2.
  apply map_ext_in. intros row' HIn'.
  destruct (conflicts data row') eqn:E; [now apply Hall | reflexivity].
Qed.

Lemma saveSupplySnapshot_settles now data st :
  settled data (vault_supply_snapshots (saveSupplySnapshot now data st)).
Proof.
  cbn. destruct (existsb (conflicts data) (vault_supply_snapshots st)) eqn:E.
  - split.
    + apply existsb_exists in E. destruct E as [row [HIn Hc]].
      exists (do_update data row). split; [| exact Hc].
      apply in_map_iff. exists row. now rewrite Hc.
    + intros row HIn Hc. apply in_map_iff in HIn. destruct HIn as [row0 [<- HIn]].
      destruct (conflicts data row0) eqn:E0; [reflexivity | congruence].
  - split.
    + eexists. split; [apply in_or_app; right; left; reflexivity |].
      apply conflicts_iff. repeat split.
    + intros row HIn Hc. apply in_app_or in HIn. destruct HIn as [HIn | [<- | []]].
      * exfalso. assert (existsb (conflicts data) (vault_supply_snapshots st) = true)
          by (apply existsb_exists; eauto). congruence.
      * reflexivity.
Qed.

(** An upsert under another key leaves a settled key settled. *)
Lemma saveSupplySnapshot_keeps_settled now data other st :
  data_key data <> data_key other ->
  settled data (vault_supply_snapshots st) ->
  settled data (vault_supply_snapshots (saveSupplySnapshot now other st)).
Proof.
  intros Hne [[row [HIn Hc]] Hall].
  assert (Hother : forall row', conflicts data row' = true -> conflicts other row' = false).
  { intros row' H. destruct (conflicts other row') eqn:E; [| reflexivity].
    apply conflicts_key in H, E. congruence. }
  cbn. destruct (existsb (conflicts other) (vault_supply_snapshots st)) eqn:Ex.
  - split.
    + exists row. split; [| exact Hc]. apply in_map_iff. exists row.
      now rewrite (Hother row Hc).
    + intros row' HIn' Hc'. apply in_map_iff in HIn'. destruct HIn' as [row0 [<- HIn0]].
      destruct (conflicts other row0) eqn:E0.
      * rewrite conflicts_do_update in Hc'. rewrite (Hother row0 Hc') in E0. discriminate.
      * now apply Hall.
  - split.
    + exists row. split; [apply in_or_app; now left | exact Hc].
    + intros row' HIn' Hc'. apply in_app_or in HIn'. destruct HIn' as [HIn' | [<- | []]].
      * now apply Hall.
      * exfalso. apply Hne. symmetry. now apply conflicts_key in Hc'.
Qed.

(** The upsert keeps UNIQUE(vault_id, market_id, snapshot_date). *)
Lemma saveSupplySnapshot_unique now data st :
  NoDup (map snapshot_key (vault_supply_snapshots st)) ->
  NoDup (map snapshot_key (vault_supply_snapshots (saveSupplySnapshot now data st))).
Proof.
  intro ND. cbn. destruct (existsb (conflicts data) (vault_supply_snapshots st)) eqn:E.
  - rewrite map_map.
    replace (map _ (vault_supply_snapshots st))
      with (map snapshot_key (vault_supply_snapshots st)); [exact ND |].
    apply map_ext. intro row. now destruct (conflicts data row).
  - rewrite map_app. cbn.
    apply (Permutation_NoDup (Permutation_cons_append _ _)).
    constructor; [| exact ND].
    intro HIn. apply in_map_iff in HIn. destruct HIn as [row [Hk HIn]].
    assert (existsb (conflicts data) (vault_supply_snapshots st) = true).
    { apply existsb_exists. exists row. split; [exact HIn |]. now apply conflicts_key. }
    congruence.
Qed.

Lemma processAllocations_cons rs now allocation rest st p :
  exists p',
    fst (fst (processAllocations rs now (allocation :: rest) st p))
    = fst (fst (processAllocations rs now rest
                  (store_after (processAllocation rs now allocation st)) p')).
Proof.
  cbn [processAllocations].
  destruct (completed_as (processAllocation rs now allocation st)).
  - exists (S p). destruct (processAllocations rs now rest _ (S p)) as [[st' p'] out].
    reflexivity.
  - exists p. destruct (processAllocations rs now rest _ p) as [[st' p'] out].
    reflexivity.
Qed.

Lemma processAllocations_invariant_in rs now allocations (P : Store -> Prop) :
  (forall st allocation, In allocation allocations ->
                         P st -> P (store_after (processAllocation rs now allocation st))) ->
  forall st p, P st -> P (fst (fst (processAllocations rs now allocations st p))).
Proof.
  induction allocations as [| allocation rest IH]; intros Hstep st p HP; [exact HP |].
  destruct (processAllocations_cons rs now allocation rest st p) as [p' ->].
  apply IH.
  - intros st0 a Ha. apply Hstep. now right.
  - apply Hstep; [now left | exact HP].
Qed.

Lemma getActiveVaultAllocations_NoDup st :
  NoDup (map (fun va => (va_vault_id va, va_market_id va)) (vault_allocations st)) ->
  NoDup (map v_id (vaults st)) ->
  NoDup (map m_market_id (markets st)) ->
  NoDup (map allocation_key (getActiveVaultAllocations st)).
Proof.
  intros NDa NDv NDm. unfold getActiveVaultAllocations.
  apply (sort_by_NoDup_map _ allocation_key). apply NoDup_map_filter.
  apply (join_NoDup_left
           (fun (vav : VaultAllocation * Vault) m =>
              String.eqb (m_market_id m) (va_market_id (fst vav)))
           (fun vav => (va_vault_id (fst vav), va_market_id (fst vav)))).
  - intros vav _.
    apply (filter_key_at_most_one m_market_id String.eqb String_eqb_iff). exact NDm.
  - apply (join_NoDup_left (fun va v => (v_id v =? va_vault_id va)%Z)
             (fun va => (va_vault_id va, va_market_id va))); [| exact NDa].
    intros va _. apply (filter_key_at_most_one v_id Z.eqb Z_eqb_iff). exact NDv.
Qed.

(** After a run every allocation it processed has its key settled. *)
Lemma processAllocations_settle rs now rows :
  NoDup (map allocation_key rows) ->
  forall st p a s,
    In a rows -> rs (VaultSupplyService.market_id a) = MarketWithState s ->
    settled (data_of now a s)
      (vault_supply_snapshots (fst (fst (processAllocations rs now rows st p)))).
Proof.
  induction rows as [| a0 rest IH]; intros ND st p a s Ha Hs; [contradiction |].
  inversion ND as [| ? ? Hnotin ND']; subst.
  destruct (processAllocations_cons rs now a0 rest st p) as [p' ->].
  destruct Ha as [-> | Ha]; [| now apply IH].
  apply (processAllocations_invariant_in rs now rest
           (fun st' => settled (data_of now a s) (vault_supply_snapshots st'))).
  - intros st' a' Ha' Hset.
    destruct (processAllocation_cases rs now a' st') as [-> | [s' Hs']]; [exact Hset |].
    rewrite (processAllocation_store _ _ _ _ _ Hs').
    apply saveSupplySnapshot_keeps_settled; [| exact Hset].
    intro E. apply Hnotin. unfold data_key in E. cbn in E. inversion E as [[Hv Hm]].
    apply in_map_iff. exists a'. split; [| exact Ha'].
    unfold allocation_key. now rewrite Hv, Hm.
  - rewrite (processAllocation_store _ _ _ _ _ Hs). apply saveSupplySnapshot_settles.
Qed.

(** A run over allocations whose keys are all settled leaves the store
    as it is. *)
Lemma processAllocations_settled rs now rows :
  forall st p,
    (forall a s, In a rows -> rs (VaultSupplyService.market_id a) = MarketWithState s ->
                 settled (data_of now a s) (vault_supply_snapshots st)) ->
    fst (fst (processAllocations rs now rows st p)) = st.
Proof.
  induction rows as [| a0 rest IH]; intros st p H; [reflexivity |].
  destruct (processAllocations_cons rs now a0 rest st p) as [p' ->].
  assert (E : store_after (processAllocation rs now a0 st) = st).
  { destruct (processAllocation_cases rs now a0 st) as [E | [s Hs]]; [exact E |].
    rewrite (processAllocation_store _ _ _ _ _ Hs).
    apply saveSupplySnapshot_settled. apply H; [now left | exact Hs]. }
  rewrite E. apply IH. intros a s Ha. apply H. now right.
Qed.

Lemma processDailySupplySnapshots_store rs now st :
  store_after (processDailySupplySnapshots rs now st)
  = fst (fst (processAllocations rs now (getActiveVaultAllocations st) st 0)).
Proof.
  unfold processDailySupplySnapshots.
  destruct (getActiveVaultAllocations st) as [| row rows] eqn:E; [reflexivity |].
  cbn [List.length Nat.eqb].
  destruct (processAllocations rs now (row :: rows) st 0) as [[st' p'] out].
  reflexivity.
Qed.

(** The vault side of C1: with the uniqueness constraints of the schema,
    a second vault run on the same day, with the same rates, leaves the
    store exactly as the first run left it; the first run keeps one row
    at most per (vault, market, day), and every allocation it processed
    has its row. *)
Theorem vault_rerun_overwrites_in_place :
  forall rs now1 now2 st,
    NoDup (map (fun va => (va_vault_id va, va_market_id va)) (vault_allocations st)) ->
    NoDup (map v_id (vaults st)) ->
    NoDup (map m_market_id (markets st)) ->
    NoDup (map snapshot_key (vault_supply_snapshots st)) ->
    DATE now1 = DATE now2 ->
    let once := store_after (processDailySupplySnapshots rs now1 st) in
    store_after (processDailySupplySnapshots rs now2 once) = once
    /\ NoDup (map snapshot_key (vault_supply_snapshots once))
    /\ forall a s, In a (getActiveVaultAllocations st) ->
                   rs (VaultSupplyService.market_id a) = MarketWithState s ->
                   exists row, In row (vault_supply_snapshots once)
                               /\ snapshot_key row
                                  = (vault_id a, VaultSupplyService.market_id a, DATE now1).
Proof.
  intros rs now1 now2 st NDa NDv NDm NDs Hday once.
  assert (Hsettled : forall a s, In a (getActiveVaultAllocations st) ->
                       rs (VaultSupplyService.market_id a) = MarketWithState s ->
                       settled (data_of now1 a s) (vault_supply_snapshots once)).
  { intros a s Ha Hs. subst once. rewrite processDailySupplySnapshots_store.
    apply processAllocations_settle; auto.
    now apply getActiveVaultAllocations_NoDup. }
  assert (Hrows : getActiveVaultAllocations once = getActiveVaultAllocations st).
  { assert (H : vault_allocations once = vault_allocations st
                /\ vaults once = vaults st /\ markets once = markets st).
    { subst once.
      apply (processDailySupplySnapshots_invariant rs now1
               (fun st' => vault_allocations st' = vault_allocations st
                           /\ vaults st' = vaults st /\ markets st' = markets st));
        [| auto].
      intros st' a (Ha & Hv & Hm).
      destruct (processAllocation_frame rs now1 a st') as (-> & -> & _ & -> & _). auto. }
    destruct H as (Ha & Hv & Hm).
    unfold getActiveVaultAllocations. now rewrite Ha, Hv, Hm. }
  split; [| split].
  - rewrite processDailySupplySnapshots_store, Hrows.
    apply processAllocations_settled. intros a s Ha Hs.
    replace (data_of now2 a s) with (data_of now1 a s)
      by (unfold data_of; now rewrite Hday).
    now apply Hsettled.
  - subst once.
    apply (processDailySupplySnapshots_invariant rs now1
             (fun st' => NoDup (map snapshot_key (vault_supply_snapshots st'))));
      [| exact NDs].
    intros st' a H.
    destruct (processAllocation_cases rs now1 a st') as [-> | [s Hs]]; [exact H |].
    rewrite (processAllocation_store _ _ _ _ _ Hs). now apply saveSupplySnapshot_unique.
  - intros a s Ha Hs. destruct (Hsettled a s Ha Hs) as [[row [HIn Hc]] _].
    exists row. split; [exact HIn |]. now apply conflicts_key in Hc.
Qed.

Lemma vault_rerun_overwrites_in_place_witness :
  let once :=
    store_after (processDailySupplySnapshots (Sample.rates 0.18 0.18) Sample.noon
                   Sample.one_market) in
  store_after (processDailySupplySnapshots (Sample.rates 0.18 0.18) Sample.evening once)
  = once.
Proof.
  apply (vault_rerun_overwrites_in_place (Sample.rates 0.18 0.18) Sample.noon
           Sample.evening Sample.one_market).
  - repeat constructor. simpl. tauto.
  - repeat constructor. simpl. tauto.
  - repeat constructor. simpl. tauto.
  - constructor.
  - reflexivity.
Defined.

End SupplyRerun.

(** ** What every call keeps *)

Module Lifecycle.
Import InterestService VaultSupplyService ReimbursementService.
Import InterestTerms ReimbursementTerms RunTerms Operations.
Import InterestFacts RunFacts CreateFacts Compounding Payment.

Lemma same_obligation_refl r : same_obligation r r.
Proof. repeat split. Qed.

Lemma same_obligation_trans r1 r2 r3 :
  same_obligation r1 r2 -> same_obligation r2 r3 -> same_obligation r1 r3.
Proof.
  unfold same_obligation. intros H1 H2. decompose [and] H1. decompose [and] H2.
  repeat split; congruence.
Qed.

Lemma Forall2_same_refl (t : list Reimbursement) : Forall2 same_obligation t t.
Proof. induction t; constructor; auto using same_obligation_refl. Qed.

Lemma Forall2_same_map (f : Reimbursement -> Reimbursement) (t : list Reimbursement) :
  (forall r, same_obligation r (f r)) -> Forall2 same_obligation t (map f t).
Proof. intro H. induction t; cbn; constructor; auto. Qed.

Lemma Forall2_same_trans (t1 t2 t3 : list Reimbursement) :
  Forall2 same_obligation t1 t2 -> Forall2 same_obligation t2 t3 ->
  Forall2 same_obligation t1 t3.
Proof.
  intro H. revert t3. induction H as [| r1 r2 t1 t2 Hr H IH]; intros t3 H23.
  - inversion H23. constructor.
  - inversion H23; subst. constructor; [eapply same_obligation_trans; eauto | auto].
Qed.

Lemma Forall2_same_ids (t t' : list Reimbursement) :
  Forall2 same_obligation t t' ->
  map r_id t' = map r_id t /\ map r_position_id t' = map r_position_id t.
Proof.
  induction 1 as [| r r' t t' Hr H [IH1 IH2]]; [split; reflexivity |].
  destruct Hr as (Hi & Hp & _). cbn. now rewrite Hi, Hp, IH1, IH2.
Qed.

Lemma evolves_refl st : evolves st st.
Proof.
  repeat split; try lia. exists (reimbursements st), [].
  rewrite app_nil_r. repeat split; auto using Forall2_same_refl; try constructor.
  all: contradiction.
Qed.

Lemma evolves_trans st1 st2 st3 : evolves st1 st2 -> evolves st2 st3 -> evolves st1 st3.
Proof.
  intros (Hm & Hv & Hb & Ha & Hp & Hpm & Hs & kept1 & created1 & Hr & Hk & Hnd & Hc)
         (Hm' & Hv' & Hb' & Ha' & Hp' & Hpm' & Hs' & kept2 & created2 & Hr' & Hk' & Hnd' & Hc').
  rewrite Hr in Hk'. apply Forall2_app_inv_l in Hk'.
  destruct Hk' as (k2a & k2b & Hka & Hkb & ->).
  destruct (Forall2_same_ids _ _ Hkb) as [Hids Hpos].
  unfold evolves. rewrite Hm', Hv', Hb', Ha', Hp', Hpm'.
  repeat (split; [assumption || lia |]).
  exists k2a, (k2b ++ created2). rewrite app_assoc. split; [exact Hr' |].
  split; [eapply Forall2_same_trans; eauto |]. split.
  - rewrite map_app. apply NoDup_app; [now rewrite Hids | exact Hnd' |].
    intros i Hi Hi'. rewrite Hids in Hi.
    apply in_map_iff in Hi. destruct Hi as [r [<- Hrin]].
    apply in_map_iff in Hi'. destruct Hi' as [r' [E Hrin']].
    destruct (Hc r Hrin) as [? _]. destruct (Hc' r' Hrin') as [? _]. lia.
  - intros r Hin. apply in_app_or in Hin. destruct Hin as [Hin | Hin].
    + assert (Hi : In (r_id r) (map r_id created1)) by (rewrite <- Hids; now apply in_map).
      assert (Hq : In (r_position_id r) (map r_position_id created1))
        by (rewrite <- Hpos; now apply in_map).
      apply in_map_iff in Hi. destruct Hi as [r1 [E1 Hr1]].
      apply in_map_iff in Hq. destruct Hq as [r2 [E2 Hr2]].
      destruct (Hc r1 Hr1) as [? _]. destruct (Hc r2 Hr2) as [_ ?].
      split; [lia | congruence].
    + destruct (Hc' r Hin) as [? ?]. split; [lia |]. now rewrite <- Hp.
Qed.

(** The constraints of the schema survive a change of that kind. *)
Lemma evolves_wf st st' : wf_store st -> evolves st st' -> wf_store st'.
Proof.
  intros WF (Hm & Hv & Hb & Ha & Hp & Hpm & Hs & kept & created & Hr & Hk & Hnd & Hc).
  destruct (Forall2_same_ids _ _ Hk) as [Hids Hpos].
  constructor.
  - rewrite Hm. apply WF.
  - rewrite Hv. apply WF.
  - rewrite Hb. apply WF.
  - rewrite Ha. apply WF.
  - rewrite Hp. apply WF.
  - rewrite Hr, map_app. apply NoDup_app; [rewrite Hids; apply WF | exact Hnd |].
    intros i Hi Hi'. rewrite Hids in Hi.
    apply in_map_iff in Hi. destruct Hi as [r [<- Hrin]].
    apply in_map_iff in Hi'. destruct Hi' as [r' [E Hrin']].
    pose proof (wf_reimbursement_seq st WF r Hrin). destruct (Hc r' Hrin') as [? _]. lia.
  - intros r Hin. rewrite Hr in Hin. apply in_app_or in Hin. destruct Hin as [Hin | Hin].
    + assert (Hi : In (r_id r) (map r_id (reimbursements st)))
        by (rewrite <- Hids; now apply in_map).
      apply in_map_iff in Hi. destruct Hi as [r0 [E0 Hr0]].
      pose proof (wf_reimbursement_seq st WF r0 Hr0). lia.
    + destruct (Hc r Hin) as [? _]. lia.
  - intros bp Hin. rewrite Hm.
    assert (Hq : In (bp_market_id bp) (map bp_market_id (borrower_positions st)))
      by (rewrite <- Hpm; now apply in_map).
    apply in_map_iff in Hq. destruct Hq as [bp0 [<- Hbp0]].
    now apply (wf_position_market st WF).
  - intros r Hin. rewrite Hp. rewrite Hr in Hin. apply in_app_or in Hin.
    destruct Hin as [Hin | Hin].
    + assert (Hq : In (r_position_id r) (map r_position_id (reimbursements st)))
        by (rewrite <- Hpos; now apply in_map).
      apply in_map_iff in Hq. destruct Hq as [r0 [<- Hr0]].
      now apply (wf_reimbursement_position st WF).
    + now destruct (Hc r Hin).
Qed.

(** An UPDATE of the reimbursements that rewrites rows in place. *)
Lemma rewrite_evolves (f : Reimbursement -> Reimbursement) st :
  (forall r, same_obligation r (f r)) ->
  evolves st (with_reimbursements (map f (reimbursements st)) (reimbursements_id_seq st) st).
Proof.
  intro H. repeat split; cbn; try lia.
  exists (map f (reimbursements st)), []. rewrite app_nil_r.
  repeat split; auto using Forall2_same_map; try constructor.
  all: contradiction.
Qed.

Lemma insert_reimbursement_evolves now p a s e status st :
  In p (map bp_id (borrower_positions st)) ->
  evolves st (insert_reimbursement now p a s e status st).
Proof.
  intro Hp. repeat split; cbn; try lia.
  eexists (reimbursements st), [_]. split; [reflexivity |].
  split; [apply Forall2_same_refl |]. split; [repeat constructor; intros [] |].
  intros r [<- | []]. cbn. split; [lia | exact Hp].
Qed.

Lemma processPosition_seq rs now position st s :
  rs (InterestService.market_id position) = MarketWithState s ->
  reimbursements_id_seq (store_after (processPosition rs now position st))
  = (if Qlt_bool 0 (i_interest_above_cap (snapshot_of now st position s))
     then reimbursements_id_seq st + 1
     else reimbursements_id_seq st)%Z.
Proof.
  intro H. unfold processPosition, getMarketState. rewrite H. cbn [state store_after].
  unfold updatePositionDebt. cbn [reimbursements_id_seq with_borrower_positions].
  cbn [snapshot_of i_interest_above_cap].
  destruct (Qlt_bool 0 _); reflexivity.
Qed.

Lemma processPosition_market_ids rs now position st :
  map bp_market_id (borrower_positions (store_after (processPosition rs now position st)))
  = map bp_market_id (borrower_positions st).
Proof.
  destruct (processPosition_cases rs now position st) as [-> | [s Hs]]; [reflexivity |].
  rewrite (processPosition_positions _ _ _ _ _ Hs), map_map. apply map_ext.
  intro bp. now destruct (bp_id bp =? id position)%Z.
Qed.

Lemma processPosition_evolves rs now position st :
  In (id position) (map bp_id (borrower_positions st)) ->
  evolves st (store_after (processPosition rs now position st)).
Proof.
  intro Hp.
  destruct (processPosition_cases rs now position st) as [E | [s Hs]];
    [rewrite E; apply evolves_refl |].
  destruct (processPosition_frame rs now position st) as (Hm & Hv & Hb & Ha & _).
  unfold evolves. rewrite Hm, Hv, Hb, Ha, processPosition_ids, processPosition_market_ids.
  rewrite (processPosition_seq _ _ _ _ _ Hs), (processPosition_reimbursements _ _ _ _ _ Hs).
  repeat (split; [reflexivity |]).
  destruct (Qlt_bool 0 (i_interest_above_cap (snapshot_of now st position s))).
  - split; [lia |]. eexists (reimbursements st), [_]. split; [reflexivity |].
    split; [apply Forall2_same_refl |]. split; [repeat constructor; intros [] |].
    intros r [<- | []]. cbn. split; [lia | exact Hp].
  - split; [lia |]. exists (reimbursements st), []. split; [reflexivity |].
    split; [apply Forall2_same_refl |]. split; [constructor |]. intros r [].
Qed.

Lemma processDailySnapshot_evolves rs now st :
  evolves st (store_after (processDailySnapshot rs now st)).
Proof.
  rewrite DebtUpdate.processDailySnapshot_store.
  apply (processPositions_invariant_in rs now (getActivePositions st) (evolves st));
    [| apply evolves_refl].
  intros st' position Hrow Hev. eapply evolves_trans; [exact Hev |].
  apply processPosition_evolves.
  destruct Hev as (_ & _ & _ & _ & -> & _).
  apply getActivePositions_In in Hrow. destruct Hrow as [Hrow _].
  now apply (in_map bp_id) in Hrow.
Qed.

Lemma processDailySupplySnapshots_evolves rs now st :
  evolves st (store_after (processDailySupplySnapshots rs now st)).
Proof.
  apply (processDailySupplySnapshots_invariant rs now (evolves st)); [| apply evolves_refl].
  intros st' allocation Hev. eapply evolves_trans; [exact Hev |].
  destruct (processAllocation_frame rs now allocation st')
    as (Hm & Hv & Hb & Ha & Hp & _ & Hr & Hs).
  unfold evolves. rewrite Hm, Hv, Hb, Ha, Hp, Hr, Hs.
  repeat (split; [reflexivity || lia |]).
  exists (reimbursements st'), []. rewrite app_nil_r.
  split; [reflexivity |]. split; [apply Forall2_same_refl |]. split; [constructor |].
  intros r [].
Qed.

(** A joined row comes from a row of the left table and a stored
    position of the id it names. *)
Lemma with_owner_In {X : Type} (position_id : X -> Z) (xs : list X) st row :
  In row (with_owner position_id xs st) ->
  In (subject row) xs
  /\ In (position_of row) (borrower_positions st)
  /\ bp_id (position_of row) = position_id (subject row)
  /\ In (market_of row) (markets st)
  /\ m_market_id (market_of row) = bp_market_id (position_of row).
Proof.
  unfold with_owner, left_join. intro HIn.
  apply in_flat_map in HIn. destruct HIn as [r3 [HIn H4]].
  apply in_flat_map in HIn. destruct HIn as [r2 [HIn H3]].
  destruct r2 as [[x bp] m].
  apply join_In in HIn. destruct HIn as (HIn & Hm & Em).
  apply join_In in HIn. destruct HIn as (Hx & Hbp & Ebp).
  apply Z.eqb_eq in Ebp. apply String.eqb_eq in Em. cbn [snd] in Em.
  assert (E3 : fst r3 = (x, bp, m)).
  { destruct (filter _ (vaults st)); cbn [map In] in H3.
    - destruct H3 as [<- | []]. reflexivity.
    - destruct H3 as [<- | H3]; [reflexivity |].
      apply in_map_iff in H3. destruct H3 as [? [<- _]]. reflexivity. }
  assert (E4 : fst row = r3).
  { destruct (filter _ (borrowers st)); cbn [map In] in H4.
    - destruct H4 as [<- | []]. reflexivity.
    - destruct H4 as [<- | H4]; [reflexivity |].
      apply in_map_iff in H4. destruct H4 as [? [<- _]]. reflexivity. }
  unfold subject, position_of, market_of. rewrite E4, E3. cbn. auto.
Qed.

Lemma createEntries_evolves now rows :
  forall st n,
    (forall row, In row rows ->
       In (i_position_id (subject row)) (map bp_id (borrower_positions st))) ->
    evolves st (fst (createEntries now rows st n)).
Proof.
  induction rows as [| row rest IH]; intros st n H; [apply evolves_refl |].
  cbn [createEntries].
  destruct (existing _ _ st).
  - eapply evolves_trans; [apply insert_reimbursement_evolves; apply H; now left |].
    apply IH. intros row' Hrow'. cbn. apply H. now right.
  - apply IH. intros row' Hrow'. apply H. now right.
Qed.

Lemma createReimbursementEntries_evolves now date st :
  evolves st (snd (createReimbursementEntries now date st)).
Proof.
  unfold createReimbursementEntries.
  pose proof (createEntries_evolves now (positionsNeedingReimbursement date st) st 0) as H.
  destruct (createEntries now (positionsNeedingReimbursement date st) st 0) as [st' n].
  apply H. intros row Hrow.
  unfold positionsNeedingReimbursement in Hrow. apply filter_In in Hrow.
  destruct Hrow as [Hrow _]. apply with_owner_In in Hrow.
  destruct Hrow as (_ & Hbp & <- & _). now apply in_map.
Qed.

Lemma paid_evolves pay now call row st : evolves st (paid pay now call row st).
Proof.
  unfold paid. destruct (pay call (recipient_address row) (r_amount (subject row))).
  - apply (rewrite_evolves
             (fun r => if (r_id r =? r_id (subject row))%Z
                       then completed_with now value r else r)).
    intro r. destruct (r_id r =? _)%Z; repeat split.
  - apply (rewrite_evolves
             (fun r => if (r_id r =? r_id (subject row))%Z then failed_at now r else r)).
    intro r. destruct (r_id r =? _)%Z; repeat split.
Qed.

Lemma processPendingReimbursements_evolves pay now limit st :
  evolves st (snd (processPendingReimbursements pay now limit st)).
Proof.
  unfold processPendingReimbursements.
  destruct (limit <? 0)%Z; [apply evolves_refl |].
  pose proof (processSelected_invariant_in pay now (selectPending limit st) (evolves st)) as H.
  specialize (H (fun st' call row _ Hev =>
                   evolves_trans _ _ _ Hev (paid_evolves pay now call row st'))
                0%nat st {| processed := 0; failed_count := 0; totalAmount := 0 |}
                (evolves_refl st)).
  destruct (processSelected pay now (selectPending limit st) 0 st _) as [st' result].
  exact H.
Qed.

Lemma retryFailedReimbursements_evolves limit st :
  evolves st (snd (retryFailedReimbursements limit st)).
Proof.
  unfold retryFailedReimbursements.
  destruct (limit <? 0)%Z; [destruct (filter _ _); apply evolves_refl |]. cbn [snd].
  apply (rewrite_evolves
           (fun r => if retried (selectFailed limit st) r then reset r else r)).
  intro r. destruct (retried _ r); repeat split.
Qed.

Lemma perform_evolves op st : evolves st (perform op st).
Proof.
  destruct op; cbn [perform].
  - apply processDailySupplySnapshots_evolves.
  - apply processDailySnapshot_evolves.
  - apply createReimbursementEntries_evolves.
  - apply processPendingReimbursements_evolves.
  - apply retryFailedReimbursements_evolves.
Qed.

Lemma perform_all_evolves ops : forall st, evolves st (perform_all ops st).
Proof.
  induction ops as [| op ops IH]; intro st; [apply evolves_refl |].
  cbn. eapply evolves_trans; [apply perform_evolves | apply IH].
Qed.

(** X1. Whatever the sequence of calls of the five writing methods, with
    whatever rates and payment outcomes, no reimbursement is deleted or
    moved, and none changes its id, position, amount, period or creation
    time: the table afterwards is the old rows, each still the same
    obligation, followed by the rows created, which carry distinct ids
    taken from the sequence and name stored positions. The markets, the
    vaults, the borrowers, the vault allocations and the ids and markets
    of the positions are as before. *)
Theorem calls_never_alter_an_obligation :
  forall ops st,
    let st' := perform_all ops st in
    markets st' = markets st /\ vaults st' = vaults st /\ borrowers st' = borrowers st
    /\ vault_allocations st' = vault_allocations st
    /\ map bp_id (borrower_positions st') = map bp_id (borrower_positions st)
    /\ map bp_market_id (borrower_positions st') = map bp_market_id (borrower_positions st)
    /\ (reimbursements_id_seq st <= reimbursements_id_seq st')%Z
    /\ exists kept created,
         reimbursements st' = kept ++ created
         /\ Forall2 same_obligation (reimbursements st) kept
         /\ NoDup (map r_id created)
         /\ forall r, In r created ->
              (reimbursements_id_seq st <= r_id r < reimbursements_id_seq st')%Z
              /\ In (r_position_id r) (map bp_id (borrower_positions st)).
Proof. intros ops st. exact (perform_all_evolves ops st). Qed.

(** X2. The calls keep the constraints of the schema: from a store whose
    keys are unique and whose references resolve, any sequence of calls
    leads to such a store; no call inserts a duplicate id or a
    reimbursement of a position that is not stored. *)
Theorem calls_keep_the_schema_constraints :
  forall ops st, wf_store st -> wf_store (perform_all ops st).
Proof.
  intros ops st WF. exact (evolves_wf st _ WF (perform_all_evolves ops st)).
Qed.

Lemma calls_keep_the_schema_constraints_witness :
  wf_store
    (perform_all
       [DailySupplySnapshots (Sample.rates 0.18 0.18) Sample.noon;
        DailySnapshot (Sample.rates 0.18 0.18) Sample.noon;
        CreateReimbursementEntries Sample.noon Sample.noon;
        ProcessPendingReimbursements Sample.seventh_fails Sample.evening 10;
        RetryFailedReimbursements 5]
       Sample.twelve_pending).
Proof.
  apply calls_keep_the_schema_constraints. exact ProcessPending.twelve_pending_wf.
Defined.

(** *** The status of a reimbursement *)

Lemma one_call_change_refl r : one_call_change r r.
Proof. unfold one_call_change. destruct (r_status r); auto. Qed.

Lemma Forall2_diag {A : Type} (R : A -> A -> Prop) (l : list A) :
  (forall a, R a a) -> Forall2 R l l.
Proof. intro H. induction l; constructor; auto. Qed.

Lemma Forall2_of_map {A B : Type} (R : A -> B -> Prop) (f : A -> B) (l : list A) :
  (forall a, In a l -> R a (f a)) -> Forall2 R l (map f l).
Proof.
  induction l as [| a l IH]; intro H; constructor.
  - apply H. now left.
  - apply IH. intros b Hb. apply H. now right.
Qed.

Lemma Forall2_map_left {A B C : Type} (R : B -> C -> Prop) (f : A -> B) (l : list A) :
  forall l', Forall2 R (map f l) l' -> Forall2 (fun a c => R (f a) c) l l'.
Proof.
  induction l as [| a l IH]; intros l' H; inversion H; subst; constructor; auto.
Qed.

Lemma Forall2_impl_in {A B : Type} (R1 R2 : A -> B -> Prop) (l : list A) :
  forall l', (forall a b, In a l -> R1 a b -> R2 a b) ->
             Forall2 R1 l l' -> Forall2 R2 l l'.
Proof.
  induction l as [| a l IH]; intros l' H F; inversion F; subst; constructor.
  - apply H; [now left | assumption].
  - apply IH; [| assumption]. intros u v Hu. apply H. now right.
Qed.

Lemma Forall2_nth_error {A B : Type} (R : A -> B -> Prop) (l : list A) :
  forall l' n a, Forall2 R l l' -> nth_error l n = Some a ->
                 exists b, nth_error l' n = Some b /\ R a b.
Proof.
  induction l as [| x l IH]; intros l' n a F Hn; [destruct n; discriminate |].
  inversion F; subst. destruct n as [| n]; cbn in *.
  - inversion Hn; subst. eauto.
  - eauto.
Qed.

Lemma paid_rows pay now call row st :
  reimbursements (paid pay now call row st)
  = map (fun r => if (r_id r =? r_id (subject row))%Z
                  then match pay call (recipient_address row) (r_amount (subject row)) with
                       | Normal txHash => completed_with now txHash r
                       | Throw _ => failed_at now r
                       end
                  else r)
      (reimbursements st).
Proof.
  unfold paid. destruct (pay call _ _).
  - apply mark_completed_rows.
  - apply mark_failed_rows.
Qed.

(** The table a batch of payments leaves, row by row: a reimbursement
    that is not selected is as it was; the one selected at rank [i] is
    completed or failed as payment number [call + i] returned or
    threw. *)
Lemma processSelected_pointwise pay now rows :
  NoDup (map (fun row => r_id (subject row)) rows) ->
  forall call st acc,
    Forall2 (fun r r' =>
               (~ In (r_id r) (map (fun row => r_id (subject row)) rows) /\ r' = r)
               \/ exists i row,
                    nth_error rows i = Some row
                    /\ r_id (subject row) = r_id r
                    /\ r' = match pay (call + i)%nat (recipient_address row)
                                    (r_amount (subject row)) with
                            | Normal txHash => completed_with now txHash r
                            | Throw _ => failed_at now r
                            end)
      (reimbursements st)
      (reimbursements (fst (processSelected pay now rows call st acc))).
Proof.
  induction rows as [| row rest IH]; intros ND call st acc.
  - cbn. apply Forall2_diag. intro r. left. split; [intros [] | reflexivity].
  - cbn [map] in ND. inversion ND as [| ? ? Hnot ND']; subst.
    destruct (processSelected_cons pay now row rest call st acc) as [acc' E].
    rewrite E. specialize (IH ND' (S call) (paid pay now call row st) acc').
    rewrite paid_rows in IH. apply Forall2_map_left in IH.
    revert IH. apply Forall2_impl. intros r r' H.
    destruct (r_id r =? r_id (subject row))%Z eqn:Eid.
    + apply Z.eqb_eq in Eid. right. exists 0%nat, row.
      split; [reflexivity |]. split; [now symmetry |].
      rewrite Nat.add_0_r.
      assert (Hid : forall x, r_id (match pay call (recipient_address row)
                                            (r_amount (subject row)) with
                                    | Normal txHash => completed_with now txHash x
                                    | Throw _ => failed_at now x
                                    end) = r_id x)
        by (intro x; now destruct (pay call _ _)).
      destruct H as [[_ ->] | (i & row' & Hi & Hrow' & _)]; [reflexivity |].
      exfalso. apply Hnot. rewrite Hid, Eid in Hrow'. rewrite <- Hrow'.
      apply (in_map (fun row => r_id (subject row))). eapply nth_error_In. exact Hi.
    + apply Z.eqb_neq in Eid. destruct H as [[Hout ->] | (i & row' & Hi & Hrow' & ->)].
      * left. split; [| reflexivity]. cbn [map]. intros [E' | HIn]; auto.
      * right. exists (S i), row'. split; [exact Hi |]. split; [exact Hrow' |].
        now rewrite Nat.add_succ_r.
Qed.

Lemma processPendingReimbursements_change pay now limit st :
  wf_store st ->
  Forall2 one_call_change (reimbursements st)
    (reimbursements (snd (processPendingReimbursements pay now limit st))).
Proof.
  intro WF. unfold processPendingReimbursements.
  destruct (limit <? 0)%Z.
  { cbn. apply Forall2_diag, one_call_change_refl. }
  pose proof (selectPending_picked limit st WF) as Hsel.
  assert (NDsel : NoDup (map (fun row => r_id (subject row)) (selectPending limit st))).
  { rewrite <- (map_map subject r_id), Hsel.
    apply picked_NoDup, (wf_reimbursement_ids st WF). }
  pose proof (processSelected_pointwise pay now (selectPending limit st) NDsel 0%nat st
                {| processed := 0; failed_count := 0; totalAmount := 0 |}) as H.
  destruct (processSelected pay now (selectPending limit st) 0 st _) as [st' result].
  cbn [fst snd] in *.
  revert H. apply Forall2_impl_in.
  intros r r' Hr [[_ ->] | (i & row & Hi & Hid & ->)]; [apply one_call_change_refl |].
  assert (Hsub : In (subject row) (picked limit st)).
  { rewrite <- Hsel. apply in_map. eapply nth_error_In. exact Hi. }
  apply picked_In in Hsub. destruct Hsub as [Hsub Hpending].
  assert (subject row = r)
    by (apply (NoDup_map_inj r_id _ _ _ (wf_reimbursement_ids st WF)); auto).
  subst r. unfold one_call_change. rewrite Hpending. right. exists now.
  destruct (pay _ _ _); eauto.
Qed.

Lemma retryFailedReimbursements_change limit st :
  Forall2 one_call_change (reimbursements st)
    (reimbursements (snd (retryFailedReimbursements limit st))).
Proof.
  unfold retryFailedReimbursements.
  destruct (limit <? 0)%Z.
  { destruct (filter _ _); cbn [snd]; apply Forall2_diag, one_call_change_refl. }
  cbn. apply Forall2_of_map. intros r _.
  destruct (retried (selectFailed limit st) r) eqn:E; [| apply one_call_change_refl].
  unfold retried in E. apply andb_true_iff in E. destruct E as [E _].
  apply Retry.ReimbursementStatus_eqb_iff in E.
  unfold one_call_change. rewrite E. now right.
Qed.

Lemma perform_change op st :
  wf_store st ->
  exists kept created,
    reimbursements (perform op st) = kept ++ created
    /\ Forall2 one_call_change (reimbursements st) kept
    /\ Forall (fun r => exists now, fresh now r) created.
Proof.
  intro WF.
  destruct op as [rs now | rs now | now day | pay now limit | limit]; cbn [perform].
  - exists (reimbursements st), []. rewrite app_nil_r.
    split; [| split; [apply Forall2_diag, one_call_change_refl | constructor]].
    apply (processDailySupplySnapshots_invariant rs now
             (fun st' => reimbursements st' = reimbursements st)); [| reflexivity].
    intros st' allocation H.
    destruct (processAllocation_frame rs now allocation st')
      as (_ & _ & _ & _ & _ & _ & -> & _). exact H.
  - destruct (WrittenRows.processDailySnapshot_added rs now st)
      as (written & created & _ & Hc & _ & Fc).
    exists (reimbursements st), created.
    split; [exact Hc |]. split; [apply Forall2_diag, one_call_change_refl |].
    eapply Forall_impl; [| exact Fc]. intros r (Hf & _). now exists now.
  - unfold createReimbursementEntries.
    destruct (createEntries_spec now (positionsNeedingReimbursement day st) st 0)
      as (created & Hc & _ & _ & Fc & _).
    destruct (createEntries now (positionsNeedingReimbursement day st) st 0) as [st' n].
    cbn [fst snd] in *.
    exists (reimbursements st), created.
    split; [exact Hc |]. split; [apply Forall2_diag, one_call_change_refl |].
    eapply Forall_impl; [| exact Fc]. intros r (Hf & _). now exists now.
  - exists (reimbursements (snd (processPendingReimbursements pay now limit st))), [].
    rewrite app_nil_r. split; [reflexivity |].
    split; [now apply processPendingReimbursements_change | constructor].
  - exists (reimbursements (snd (retryFailedReimbursements limit st))), [].
    rewrite app_nil_r. split; [reflexivity |].
    split; [apply retryFailedReimbursements_change | constructor].
Qed.

Lemma perform_completed op st n r :
  wf_store st ->
  nth_error (reimbursements st) n = Some r -> r_status r = completed ->
  nth_error (reimbursements (perform op st)) n = Some r.
Proof.
  intros WF Hn Hc.
  destruct (perform_change op st WF) as (kept & created & -> & F & _).
  destruct (Forall2_nth_error _ _ _ _ _ F Hn) as (r' & Hn' & Hch).
  unfold one_call_change in Hch. rewrite Hc in Hch. subst r'.
  rewrite nth_error_app1; [exact Hn' |]. apply nth_error_Some. congruence.
Qed.

(** X3. In a store that meets the schema's constraints, one call does to
    each stored reimbursement what [one_call_change] allows and no more:
    the table afterwards is the old rows in their places, followed by
    the rows created, all pending and unprocessed. A completed
    reimbursement is left exactly as it is; a failed one is left as it
    is or set back to pending, never paid; a pending one is left, or
    marked failed, or completed with a payment reference. *)
Theorem one_call_changes_status_only_along_the_lifecycle :
  forall op st,
    wf_store st ->
    exists kept created,
      reimbursements (perform op st) = kept ++ created
      /\ Forall2 one_call_change (reimbursements st) kept
      /\ Forall (fun r => exists now, fresh now r) created.
Proof. exact perform_change. Qed.

Lemma one_call_changes_status_only_along_the_lifecycle_witness :
  exists kept created,
    reimbursements
      (perform (ProcessPendingReimbursements Sample.seventh_fails Sample.evening 10)
         Sample.twelve_pending) = kept ++ created
    /\ Forall2 one_call_change (reimbursements Sample.twelve_pending) kept
    /\ Forall (fun r => exists now, fresh now r) created.
Proof.
  apply one_call_changes_status_only_along_the_lifecycle.
  exact ProcessPending.twelve_pending_wf.
Defined.

(** X4. A completed reimbursement is final: in a store that meets the
    schema's constraints, whatever calls follow, with whatever rates,
    limits and payment outcomes, the row stays at its place with its
    status, its payment reference and its processing time; it is never
    paid a second time and never retried. *)
Theorem completed_reimbursement_is_final :
  forall ops st n r,
    wf_store st ->
    nth_error (reimbursements st) n = Some r ->
    r_status r = completed ->
    nth_error (reimbursements (perform_all ops st)) n = Some r.
Proof.
  induction ops as [| op ops IH]; intros st n r WF Hn Hc; [exact Hn |].
  cbn. apply IH; [| now apply perform_completed | exact Hc].
  exact (evolves_wf st _ WF (perform_evolves op st)).
Qed.

Lemma completed_reimbursement_is_final_witness :
  let st :=
    snd (processPendingReimbursements Sample.seventh_fails Sample.evening 10
           Sample.twelve_pending) in
  nth_error
    (reimbursements
       (perform_all
          [RetryFailedReimbursements 5;
           ProcessPendingReimbursements Sample.always_fails (Sample.evening + 60)%Z 10;
           DailySnapshot (Sample.rates 0.18 0.18) (Sample.evening + 120)%Z]
          st)) 0
  = Some (completed_with Sample.evening (Sample.reference 0) (Sample.pending_reimbursement 1)).
Proof.
  apply completed_reimbursement_is_final.
  - apply (evolves_wf Sample.twelve_pending _ ProcessPending.twelve_pending_wf).
    apply processPendingReimbursements_evolves.
  - reflexivity.
  - reflexivity.
Defined.

End Lifecycle.

(** ** The borrower run as one pass over the rows fetched *)

Module BorrowerRun.
Import InterestService InterestTerms RunTerms BatchTerms.
Import InterestFacts RunFacts Compounding.

Lemma snapshot_of_markets now st st' position s :
  markets st' = markets st ->
  snapshot_of now st' position s = snapshot_of now st position s.
Proof. intro H. unfold snapshot_of, getCappedRate. now rewrite H. Qed.

Lemma processPositions_one_pass rs now st0 rows :
  forall st p c,
    markets st = markets st0 ->
    let st' := final_store (processPositions rs now rows st p c) in
    let written := snapshots_for rs now st0 rows in
    let created := reimbursements_for now (reimbursements_id_seq st) written in
    interest_snapshots st' = interest_snapshots st ++ written
    /\ reimbursements st' = reimbursements st ++ created
    /\ reimbursements_id_seq st'
       = (reimbursements_id_seq st + Z.of_nat (List.length created))%Z.
Proof.
  induction rows as [| position rest IH]; intros st p c Hm.
  - cbn. rewrite !app_nil_r. repeat split. lia.
  - destruct (final_store_cons rs now position rest st p c) as (p' & c' & E).
    cbn zeta. rewrite E. clear E.
    destruct (processPosition_frame rs now position st) as (Hm1 & _).
    specialize (IH (store_after (processPosition rs now position st)) p' c'
                  (eq_trans Hm1 Hm)).
    cbn zeta in IH. destruct IH as (Hw & Hc & Hs).
    unfold snapshots_for in *. cbn [flat_map].
    destruct (rs (market_id position)) as [message | | | s] eqn:Ers;
      try (assert (Hskip : store_after (processPosition rs now position st) = st)
             by (apply processPosition_snapshots_skipped; intros s' H'; congruence);
           rewrite Hskip in Hw, Hc, Hs |- *; cbn [app]; repeat split; assumption).
    rewrite (processPosition_snapshots _ _ _ _ _ Ers) in Hw.
    rewrite (processPosition_reimbursements _ _ _ _ _ Ers) in Hc.
    rewrite (Lifecycle.processPosition_seq _ _ _ _ _ Ers) in Hs, Hc.
    rewrite (snapshot_of_markets now st0 st position s Hm) in *.
    cbn [app reimbursements_for].
    destruct (Qlt_bool 0 (i_interest_above_cap (snapshot_of now st0 position s))).
    + rewrite <- !app_assoc in Hw, Hc. cbn [app] in Hw, Hc.
      split; [exact Hw |]. split; [exact Hc |].
      rewrite Hs. cbn [List.length]. lia.
    + rewrite <- !app_assoc in Hw. rewrite app_nil_r in Hc. cbn [app] in Hw.
      auto.
Qed.


Lemma processDailySnapshot_one_pass rs now st :
  let st' := store_after (processDailySnapshot rs now st) in
  let written := snapshots_for rs now st (getActivePositions st) in
  let created := reimbursements_for now (reimbursements_id_seq st) written in
  interest_snapshots st' = interest_snapshots st ++ written
  /\ reimbursements st' = reimbursements st ++ created
  /\ reimbursements_id_seq st'
     = (reimbursements_id_seq st + Z.of_nat (List.length created))%Z.
Proof.
  cbn zeta. rewrite DebtUpdate.processDailySnapshot_store.
  now apply processPositions_one_pass.
Qed.

Lemma snapshots_for_In rs now st rows position s :
  In position rows -> rs (market_id position) = MarketWithState s ->
  In (snapshot_of now st position s) (snapshots_for rs now st rows).
Proof.
  intros HIn Hs. apply in_flat_map. exists position. split; [exact HIn |].
  rewrite Hs. now left.
Qed.

Lemma snapshots_for_inv rs now st rows snap :
  In snap (snapshots_for rs now st rows) ->
  exists position s,
    In position rows /\ rs (market_id position) = MarketWithState s
    /\ snap = snapshot_of now st position s.
Proof.
  intro H. apply in_flat_map in H. destruct H as [position [HIn H]].
  destruct (rs (market_id position)) as [| | | s] eqn:E; try contradiction.
  destruct H as [<- | []]. eauto.
Qed.

Lemma reimbursements_for_In now snaps snap :
  forall i,
    In snap snaps -> Qlt_bool 0 (i_interest_above_cap snap) = true ->
    exists j, In (inline_reimbursement now j snap) (reimbursements_for now i snaps).
Proof.
  induction snaps as [| x snaps IH]; intros i HIn Hpos; [contradiction |].
  cbn [reimbursements_for]. destruct HIn as [-> | HIn].
  - rewrite Hpos. exists i. now left.
  - destruct (Qlt_bool 0 (i_interest_above_cap x)).
    + destruct (IH (i + 1)%Z HIn Hpos) as [j Hj]. exists j. now right.
    + apply IH; assumption.
Qed.

Lemma reimbursements_for_period now snaps r :
  forall i, In r (reimbursements_for now i snaps) ->
            r_period_start r = (DATE now - 1)%Z.
Proof.
  induction snaps as [| x snaps IH]; intros i HIn; [contradiction |].
  cbn [reimbursements_for] in HIn.
  destruct (Qlt_bool 0 (i_interest_above_cap x)); [| now apply (IH i)].
  destruct HIn as [<- | HIn]; [reflexivity | now apply (IH (i + 1)%Z)].
Qed.


Lemma excess_sign (d r c : Q) :
  0 <= d ->
  (r <= c -> d * (r / 365) - d * (c / 365) <= 0)
  /\ (c < r -> 0 < d -> 0 < d * (r / 365) - d * (c / 365))
  /\ (d == 0 -> d * (r / 365) - d * (c / 365) == 0).
Proof.
  intro Hd.
  assert (E : d * (r / 365) - d * (c / 365) == d * (r - c) * (1 # 365)) by field.
  rewrite E. split; [| split].
  - intro H. assert (0 <= d * (c - r)) by (apply Qmult_le_0_compat; lra).
    assert (d * (r - c) == - (d * (c - r))) by ring. lra.
  - intros H H0. assert (0 < d * (r - c)) by (apply Qmult_lt_0_compat; lra). lra.
  - intro H. rewrite H. ring.
Qed.

(** In binary64 a rate above the cap need not give an excess: at the
    double that follows a cap of 12%, a debt of 1000 accrues exactly the
    capped interest, and no reimbursement is created. *)
Lemma rate_just_above_the_cap_is_not_reimbursed :
  PrimFloat.ltb Binary64.example_cap Binary64.just_above_cap = true
  /\ Binary64.createsReimbursement Binary64.example_principal Binary64.just_above_cap
       Binary64.example_cap = false.
Proof. split; vm_compute; reflexivity. Qed.

(** X6. For a position with a debt that is not negative, whose market
    comes back with a state, [processPosition] creates a reimbursement
    only when the debt is positive and the rate observed is above the
    cap in force ([getCappedRate]: the stored cap, or 15% when the
    market has no row). With the rate at or below the cap, or a zero
    debt, the reimbursements and the sequence are as they were. In
    every case it appends the snapshot of the position and at most one
    reimbursement; the one it appends is pending, under the next id of
    the sequence, for the period from the day before to the day of the
    run, and its amount is the excess that snapshot records. *)
Theorem reimbursement_only_when_rate_exceeds_cap :
  forall rs now st position s,
    rs (market_id position) = MarketWithState s ->
    0 <= current_debt position ->
    let cap := getCappedRate st (market_id position) in
    let st' := store_after (processPosition rs now position st) in
    let snap := snapshot_of now st position s in
    interest_snapshots st' = interest_snapshots st ++ [snap]
    /\ (borrowApy s <= cap \/ current_debt position == 0 ->
        reimbursements st' = reimbursements st
        /\ reimbursements_id_seq st' = reimbursements_id_seq st)
    /\ ((reimbursements st' = reimbursements st
         /\ reimbursements_id_seq st' = reimbursements_id_seq st)
        \/ (cap < borrowApy s /\ 0 < current_debt position
            /\ exists r,
                 reimbursements st' = reimbursements st ++ [r]
                 /\ reimbursements_id_seq st' = (reimbursements_id_seq st + 1)%Z
                 /\ r_id r = reimbursements_id_seq st
                 /\ r_position_id r = id position
                 /\ r_amount r = i_interest_above_cap snap
                 /\ r_period_start r = (DATE now - 1)%Z /\ r_period_end r = DATE now
                 /\ r_status r = pending /\ r_tx_hash r = None
                 /\ r_processed_at r = None /\ r_created_at r = now)).
Proof.
  intros rs now st position s Hs Hd cap st' snap. subst st'.
  rewrite (processPosition_snapshots _ _ _ _ _ Hs),
    (processPosition_reimbursements _ _ _ _ _ Hs),
    (Lifecycle.processPosition_seq _ _ _ _ _ Hs).
  fold snap. split; [reflexivity |].
  assert (Hx : i_interest_above_cap snap
               = Math_max 0 (current_debt position * (borrowApy s / 365)
                             - current_debt position * (cap / 365))) by reflexivity.
  destruct (excess_sign (current_debt position) (borrowApy s) cap Hd) as (Hle & _ & H0).
  set (x := current_debt position * (borrowApy s / 365) - current_debt position * (cap / 365))
    in *.
  assert (Hnone : x <= 0 -> Qlt_bool 0 (i_interest_above_cap snap) = false).
  { intro Hneg. rewrite Hx. destruct (Qlt_bool 0 (Math_max 0 x)) eqn:E; [| reflexivity].
    apply Qlt_bool_iff in E. rewrite (Math_max_0_of_nonpos x Hneg) in E.
    exfalso. exact (Qlt_irrefl 0 E). }
  split.
  - intro H.
    assert (Hneg : x <= 0) by (destruct H as [H | H]; [auto | rewrite (H0 H); apply Qle_refl]).
    rewrite (Hnone Hneg). now rewrite app_nil_r.
  - destruct (Qlt_bool 0 (i_interest_above_cap snap)) eqn:E.
    + right.
      assert (Hrate : cap < borrowApy s).
      { apply Qnot_le_lt. intro H. pose proof (Hnone (Hle H)). congruence. }
      assert (Hdebt : 0 < current_debt position).
      { apply Qnot_le_lt. intro H.
        assert (Hz : current_debt position == 0) by (apply Qle_antisym; assumption).
        assert (Hneg : x <= 0) by (rewrite (H0 Hz); apply Qle_refl).
        pose proof (Hnone Hneg). congruence. }
      split; [exact Hrate |]. split; [exact Hdebt |].
      eexists. split; [reflexivity |]. cbn. repeat split.
    + left. now rewrite app_nil_r.
Qed.

Lemma reimbursement_only_when_rate_exceeds_cap_witness :
  reimbursements
    (store_after (processPosition (Sample.rates 0.10 0.10) Sample.noon Sample.alice
                    Sample.one_market))
  = reimbursements Sample.one_market.
Proof.
  destruct (reimbursement_only_when_rate_exceeds_cap
              (Sample.rates 0.10 0.10) Sample.noon Sample.one_market Sample.alice
              {| borrowApy := 0.10; supplyApy := 0.10 |} eq_refl)
    as (_ & H & _).
  - vm_compute. discriminate.
  - apply H. left. vm_compute. discriminate.
Defined.

End BorrowerRun.

(** ** The daily job *)

Module DailyJob.
Import InterestService VaultSupplyService SchedulerService RunTerms.
Import InterestFacts SupplyFacts RunFacts Compounding.

Lemma processPositions_fold rs now rows :
  forall st p c,
    final_store (processPositions rs now rows st p c)
    = fold_left (fun st position => store_after (processPosition rs now position st)) rows st.
Proof.
  induction rows as [| position rest IH]; intros st p c; [reflexivity |].
  destruct (final_store_cons rs now position rest st p c) as (p' & c' & ->).
  cbn [fold_left]. apply IH.
Qed.

Lemma processAllocations_fold rs now rows :
  forall st p,
    fst (fst (processAllocations rs now rows st p))
    = fold_left (fun st allocation => store_after (processAllocation rs now allocation st))
        rows st.
Proof.
  induction rows as [| allocation rest IH]; intros st p; [reflexivity |].
  destruct (SupplyRerun.processAllocations_cons rs now allocation rest st p) as (p' & ->).
  cbn [fold_left]. apply IH.
Qed.

(** The borrower side neither reads nor writes the vault snapshots. *)
Lemma processPosition_supply_snapshots rs now position v st :
  store_after (processPosition rs now position (with_vault_supply_snapshots v st))
  = with_vault_supply_snapshots v (store_after (processPosition rs now position st)).
Proof.
  unfold processPosition.
  destruct (getMarketState rs (InterestService.market_id position)) as [marketData | message];
    [| reflexivity].
  destruct (state marketData) as [marketState |]; [| reflexivity].
  cbn [store_after].
  change (getCappedRate (with_vault_supply_snapshots v st))
    with (getCappedRate st).
  destruct (Qlt_bool 0 _); reflexivity.
Qed.

Lemma processDailySnapshot_supply_snapshots rs now v st :
  store_after (processDailySnapshot rs now (with_vault_supply_snapshots v st))
  = with_vault_supply_snapshots v (store_after (processDailySnapshot rs now st)).
Proof.
  rewrite !DebtUpdate.processDailySnapshot_store, !processPositions_fold.
  change (getActivePositions (with_vault_supply_snapshots v st))
    with (getActivePositions st).
  generalize (getActivePositions st) as rows. intro rows. revert st.
  induction rows as [| position rest IH]; intro st; [reflexivity |].
  cbn [fold_left]. rewrite processPosition_supply_snapshots. apply IH.
Qed.

(** The vault side writes the vault snapshots and nothing else, and what
    it writes depends on nothing but the vault snapshots it finds. *)
Lemma processAllocation_only_supply_snapshots rs now allocation st st0 :
  vault_supply_snapshots st = vault_supply_snapshots st0 ->
  store_after (processAllocation rs now allocation st)
  = with_vault_supply_snapshots
      (vault_supply_snapshots (store_after (processAllocation rs now allocation st0))) st.
Proof.
  intro H. unfold processAllocation.
  destruct (getMarketState rs (VaultSupplyService.market_id allocation))
    as [marketData | message].
  - destruct (state marketData) as [marketState |].
    + cbn [store_after]. unfold saveSupplySnapshot. rewrite H. reflexivity.
    + cbn [store_after]. rewrite <- H. now destruct st.
  - cbn [store_after]. rewrite <- H. now destruct st.
Qed.

Lemma allocations_fold_only_supply_snapshots rs now rows :
  forall st st0,
    vault_supply_snapshots st = vault_supply_snapshots st0 ->
    fold_left (fun st allocation => store_after (processAllocation rs now allocation st))
      rows st
    = with_vault_supply_snapshots
        (vault_supply_snapshots
           (fold_left (fun st allocation => store_after (processAllocation rs now allocation st))
              rows st0))
        st.
Proof.
  induction rows as [| allocation rest IH]; intros st st0 H.
  - cbn. rewrite <- H. now destruct st.
  - cbn [fold_left].
    rewrite (IH (store_after (processAllocation rs now allocation st))
               (store_after (processAllocation rs now allocation st0))).
    + rewrite (processAllocation_only_supply_snapshots rs now allocation st st0 H).
      reflexivity.
    + rewrite (processAllocation_only_supply_snapshots rs now allocation st st0 H).
      reflexivity.
Qed.

Lemma processDailySupplySnapshots_only_supply_snapshots rs now st st0 :
  vault_allocations st = vault_allocations st0 ->
  vaults st = vaults st0 ->
  markets st = markets st0 ->
  vault_supply_snapshots st = vault_supply_snapshots st0 ->
  store_after (processDailySupplySnapshots rs now st)
  = with_vault_supply_snapshots
      (vault_supply_snapshots (store_after (processDailySupplySnapshots rs now st0))) st.
Proof.
  intros Ha Hv Hm Hs.
  rewrite !SupplyRerun.processDailySupplySnapshots_store, !processAllocations_fold.
  assert (E : getActiveVaultAllocations st = getActiveVaultAllocations st0)
    by (unfold getActiveVaultAllocations; now rewrite Ha, Hv, Hm).
  rewrite E. now apply allocations_fold_only_supply_snapshots.
Qed.

Lemma processDailySnapshot_frame rs now st :
  let st' := store_after (processDailySnapshot rs now st) in
  markets st' = markets st /\ vaults st' = vaults st /\ borrowers st' = borrowers st
  /\ vault_allocations st' = vault_allocations st
  /\ vault_supply_snapshots st' = vault_supply_snapshots st.
Proof.
  cbn zeta.
  apply (processDailySnapshot_invariant rs now
           (fun st' => markets st' = markets st /\ vaults st' = vaults st
                       /\ borrowers st' = borrowers st
                       /\ vault_allocations st' = vault_allocations st
                       /\ vault_supply_snapshots st' = vault_supply_snapshots st));
    [| auto].
  intros st' position (Hm & Hv & Hb & Ha & Hs).
  destruct (processPosition_frame rs now position st') as (-> & -> & -> & -> & ->). auto.
Qed.

(** X7. The two phases of the daily job do not interfere: whatever
    rates and clock readings each phase gets, the store the job leaves
    is the store the borrower run alone would leave, with the vault
    snapshots the vault run alone would leave; running the borrower run
    first and the vault run second gives the same store. The vault run
    writes no table but the vault snapshots: no reimbursement, no debt
    and no borrower snapshot comes from it. *)
Theorem daily_job_phases_do_not_interfere :
  forall supply_rs supply_now debt_rs debt_now st,
    let job := store_after (runDailyInterestProcess supply_rs supply_now debt_rs debt_now st) in
    let supply := store_after (processDailySupplySnapshots supply_rs supply_now st) in
    let debt := store_after (processDailySnapshot debt_rs debt_now st) in
    completed_as (runDailyInterestProcess supply_rs supply_now debt_rs debt_now st)
    = Normal tt
    /\ supply = with_vault_supply_snapshots (vault_supply_snapshots supply) st
    /\ job = with_vault_supply_snapshots (vault_supply_snapshots supply) debt
    /\ job = store_after (processDailySupplySnapshots supply_rs supply_now debt).
Proof.
  intros supply_rs supply_now debt_rs debt_now st. cbn zeta.
  assert (Hsupply : store_after (processDailySupplySnapshots supply_rs supply_now st)
                    = with_vault_supply_snapshots
                        (vault_supply_snapshots
                           (store_after (processDailySupplySnapshots supply_rs supply_now st)))
                        st)
    by now apply processDailySupplySnapshots_only_supply_snapshots.
  assert (Hjob : store_after
                   (runDailyInterestProcess supply_rs supply_now debt_rs debt_now st)
                 = store_after
                     (processDailySnapshot debt_rs debt_now
                        (store_after (processDailySupplySnapshots supply_rs supply_now st)))).
  { unfold runDailyInterestProcess.
    destruct (completed_as (processDailySupplySnapshots supply_rs supply_now st)) eqn:E.
    - reflexivity.
    - unfold processDailySupplySnapshots in E.
      destruct (List.length (getActiveVaultAllocations st) =? 0)%nat; [discriminate |].
      destruct (processAllocations _ _ _ _ _) as [[? ?] ?]. discriminate. }
  split; [| split; [exact Hsupply | split]].
  - unfold runDailyInterestProcess.
    now destruct (completed_as (processDailySupplySnapshots supply_rs supply_now st)).
  - rewrite Hjob, Hsupply at 1. apply processDailySnapshot_supply_snapshots.
  - rewrite Hjob, Hsupply at 1. rewrite processDailySnapshot_supply_snapshots.
    destruct (processDailySnapshot_frame debt_rs debt_now st) as (Hm & Hv & _ & Ha & Hs).
    symmetry. now apply processDailySupplySnapshots_only_supply_snapshots.
Qed.

End DailyJob.

(** ** Book-keeping of the reimbursements *)

Module Accounting.
Import ReimbursementService ReimbursementTerms ReimbursementStats Operations.
Import Compounding Payment.

Lemma getStats_entries st :
  let t := reimbursements st in
  pending_stats (getStats st)
  = {| count := count_in pending t; totalAmount := total_in pending t |}
  /\ completed_stats (getStats st)
     = {| count := count_in completed t; totalAmount := total_in completed t |}
  /\ failed_stats (getStats st)
     = {| count := count_in failed t; totalAmount := total_in failed t |}.
Proof.
  cbn zeta. unfold getStats, group_by_status, count_in, total_in. cbn [flat_map].
  destruct (filter (fun r => ReimbursementStatus_eqb (r_status r) pending) (reimbursements st));
    destruct (filter (fun r => ReimbursementStatus_eqb (r_status r) completed)
                (reimbursements st));
    destruct (filter (fun r => ReimbursementStatus_eqb (r_status r) failed)
                (reimbursements st));
    repeat split.
Qed.

Lemma count_in_partition t :
  (count_in pending t + count_in completed t + count_in failed t)%nat = List.length t.
Proof.
  unfold count_in. induction t as [| r t IH]; [reflexivity |].
  cbn [filter List.length]. destruct (r_status r); cbn [ReimbursementStatus_eqb List.length]; lia.
Qed.

(** X8. [getStats] reports, for each of the three statuses, the number
    of reimbursements in that status and the sum of their amounts, and
    zero twice for a status no reimbursement has; the three counts add
    up to the number of reimbursements stored. *)
Theorem getStats_counts_every_reimbursement_once :
  forall st,
    let t := reimbursements st in
    let stats := getStats st in
    count (pending_stats stats) = count_in pending t
    /\ count (completed_stats stats) = count_in completed t
    /\ count (failed_stats stats) = count_in failed t
    /\ ReimbursementStats.totalAmount (pending_stats stats) = total_in pending t
    /\ ReimbursementStats.totalAmount (completed_stats stats) = total_in completed t
    /\ ReimbursementStats.totalAmount (failed_stats stats) = total_in failed t
    /\ (count (pending_stats stats) + count (completed_stats stats)
        + count (failed_stats stats))%nat = List.length t.
Proof.
  intro st. cbn zeta. destruct (getStats_entries st) as (-> & -> & ->). cbn.
  repeat split. apply count_in_partition.
Qed.

Lemma fold_Qplus_acc (l : list Q) :
  forall x, fold_left Qplus l x == x + fold_left Qplus l 0.
Proof.
  induction l as [| a l IH]; intro x; cbn [fold_left]; [ring |].
  rewrite (IH (x + a)), (IH (0 + a)). ring.
Qed.

Lemma SUM_app (a b : list Q) : SUM (a ++ b) == SUM a + SUM b.
Proof. unfold SUM. rewrite fold_left_app. apply fold_Qplus_acc. Qed.

Lemma SUM_cons (x : Q) (l : list Q) : SUM (x :: l) == x + SUM l.
Proof. unfold SUM. cbn [fold_left]. rewrite fold_Qplus_acc. ring. Qed.

Lemma count_in_app_cons s a x b :
  count_in s (a ++ x :: b)
  = (count_in s a + (if ReimbursementStatus_eqb (r_status x) s then 1 else 0)
     + count_in s b)%nat.
Proof.
  unfold count_in. rewrite filter_app, length_app. cbn [filter].
  destruct (ReimbursementStatus_eqb (r_status x) s); cbn [List.length]; lia.
Qed.

Lemma total_in_app_cons s a x b :
  total_in s (a ++ x :: b)
  == total_in s a + (if ReimbursementStatus_eqb (r_status x) s then r_amount x else 0)
     + total_in s b.
Proof.
  unfold total_in. rewrite filter_app, map_app, SUM_app. cbn [filter].
  destruct (ReimbursementStatus_eqb (r_status x) s); cbn [map];
    [rewrite SUM_cons |]; ring.
Qed.

(** An UPDATE ... WHERE id = [r_id r] of a table with unique ids
    rewrites the row [r] where it stands and no other. *)
Lemma update_at_key (g : Reimbursement -> Reimbursement) (l : list Reimbursement) r :
  NoDup (map r_id l) -> In r l ->
  exists a b,
    l = a ++ r :: b
    /\ map (fun x => if (r_id x =? r_id r)%Z then g x else x) l = a ++ g r :: b.
Proof.
  intros ND HIn. destruct (in_split _ _ HIn) as (a & b & ->).
  exists a, b. split; [reflexivity |].
  rewrite map_app in ND. cbn [map] in ND.
  pose proof (NoDup_remove_2 _ _ _ ND) as Hnot.
  rewrite map_app. cbn [map]. rewrite Z.eqb_refl. f_equal; [| f_equal].
  - rewrite <- (map_id a) at 2. apply map_ext_in. intros x Hx.
    destruct (r_id x =? r_id r)%Z eqn:E; [| reflexivity].
    apply Z.eqb_eq in E. exfalso. apply Hnot. apply in_or_app. left.
    rewrite <- E. now apply in_map.
  - rewrite <- (map_id b) at 2. apply map_ext_in. intros x Hx.
    destruct (r_id x =? r_id r)%Z eqn:E; [| reflexivity].
    apply Z.eqb_eq in E. exfalso. apply Hnot. apply in_or_app. right.
    rewrite <- E. now apply in_map.
Qed.

(** The tallies of a table after the update of one pending row. *)
Lemma after_completion a r b now txHash :
  r_status r = pending ->
  let t := a ++ r :: b in
  let t' := a ++ completed_with now txHash r :: b in
  (count_in pending t' + 1 = count_in pending t)%nat
  /\ (count_in completed t' = count_in completed t + 1)%nat
  /\ count_in failed t' = count_in failed t
  /\ total_in pending t' + r_amount r == total_in pending t
  /\ total_in completed t' == total_in completed t + r_amount r
  /\ total_in failed t' == total_in failed t.
Proof.
  intro H. cbn zeta. rewrite !count_in_app_cons.
  rewrite (total_in_app_cons pending a r b), (total_in_app_cons completed a r b),
    (total_in_app_cons failed a r b),
    (total_in_app_cons pending a (completed_with now txHash r) b),
    (total_in_app_cons completed a (completed_with now txHash r) b),
    (total_in_app_cons failed a (completed_with now txHash r) b).
  cbn [completed_with r_status r_amount]. rewrite H. cbn [ReimbursementStatus_eqb].
  repeat split; try lia; ring.
Qed.

Lemma after_failure a r b now :
  r_status r = pending ->
  let t := a ++ r :: b in
  let t' := a ++ failed_at now r :: b in
  (count_in pending t' + 1 = count_in pending t)%nat
  /\ count_in completed t' = count_in completed t
  /\ (count_in failed t' = count_in failed t + 1)%nat
  /\ total_in pending t' + r_amount r == total_in pending t
  /\ total_in completed t' == total_in completed t
  /\ total_in failed t' == total_in failed t + r_amount r.
Proof.
  intro H. cbn zeta. rewrite !count_in_app_cons.
  rewrite (total_in_app_cons pending a r b), (total_in_app_cons completed a r b),
    (total_in_app_cons failed a r b),
    (total_in_app_cons pending a (failed_at now r) b),
    (total_in_app_cons completed a (failed_at now r) b),
    (total_in_app_cons failed a (failed_at now r) b).
  cbn [failed_at r_status r_amount]. rewrite H. cbn [ReimbursementStatus_eqb].
  repeat split; try lia; ring.
Qed.

Lemma processSelected_accounting pay now rows :
  forall call st acc,
    NoDup (map r_id (reimbursements st)) ->
    NoDup (map (fun row => r_id (subject row)) rows) ->
    (forall row, In row rows ->
                 In (subject row) (reimbursements st) /\ r_status (subject row) = pending) ->
    let res := snd (processSelected pay now rows call st acc) in
    let t := reimbursements st in
    let t' := reimbursements (fst (processSelected pay now rows call st acc)) in
    (processed res + failed_count res
     = processed acc + failed_count acc + List.length rows)%nat
    /\ (count_in pending t' + List.length rows = count_in pending t)%nat
    /\ (count_in completed t' + processed acc = count_in completed t + processed res)%nat
    /\ (count_in failed t' + failed_count acc = count_in failed t + failed_count res)%nat
    /\ total_in completed t' + ReimbursementService.totalAmount acc
       == total_in completed t + ReimbursementService.totalAmount res
    /\ total_in pending t' + total_in failed t' + ReimbursementService.totalAmount res
       == total_in pending t + total_in failed t + ReimbursementService.totalAmount acc
    /\ total_in pending t' + SUM (map (fun row => r_amount (subject row)) rows)
       == total_in pending t.
Proof.
  induction rows as [| row rest IH]; intros call st acc ND NDrows Hrows.
  - cbn [processSelected fst snd map List.length]. change (SUM []) with 0.
    repeat split; try lia; ring.
  - cbn [map] in NDrows. inversion NDrows as [| ? ? Hnot NDrest]; subst.
    destruct (Hrows row (or_introl eq_refl)) as [HIn Hpending].
    assert (Hstep : forall g st1,
               (forall x, r_id (g x) = r_id x) ->
               reimbursements st1
               = map (fun x => if (r_id x =? r_id (subject row))%Z then g x else x)
                   (reimbursements st) ->
               exists a b,
                 reimbursements st = a ++ subject row :: b
                 /\ reimbursements st1 = a ++ g (subject row) :: b
                 /\ NoDup (map r_id (reimbursements st1))
                 /\ forall row', In row' rest ->
                      In (subject row') (reimbursements st1)
                      /\ r_status (subject row') = pending).
    { intros g st1 Hg E.
      destruct (update_at_key g _ _ ND HIn) as (a & b & Ea & Eb).
      exists a, b. rewrite E, Eb. split; [exact Ea |]. split; [reflexivity |]. split.
      - rewrite Ea in ND. rewrite map_app in *. cbn [map] in *. now rewrite Hg.
      - intros row' Hrow'. destruct (Hrows row' (or_intror Hrow')) as [HIn' Hp'].
        split; [| exact Hp']. rewrite Ea in HIn'.
        apply in_app_or in HIn'. apply in_or_app.
        destruct HIn' as [H | [H | H]]; [now left | | right; now right].
        exfalso. apply Hnot. rewrite H.
        now apply (in_map (fun row => r_id (subject row))). }
    cbn [processSelected List.length].
    destruct (pay call (recipient_address row) (r_amount (subject row))) as [txHash | message].
    + destruct (Hstep (completed_with now txHash)
                  (mark_completed now txHash (r_id (subject row)) st)
                  (fun x => eq_refl) (mark_completed_rows _ _ _ _))
        as (a & b & Ea & Eb & ND1 & Hrest).
      specialize (IH (S call) (mark_completed now txHash (r_id (subject row)) st)
                    {| processed := S (processed acc);
                       failed_count := failed_count acc;
                       ReimbursementService.totalAmount :=
                         ReimbursementService.totalAmount acc + r_amount (subject row) |}
                    ND1 NDrest Hrest).
      cbn zeta in IH. cbn [processed failed_count ReimbursementService.totalAmount] in IH.
      destruct (after_completion a (subject row) b now txHash Hpending)
        as (C1 & C2 & C3 & T1 & T2 & T3).
      rewrite <- Ea, <- Eb in C1, C2, C3, T1, T2, T3.
      set (X := processSelected pay now rest (S call) _ _) in *. clearbody X.
      destruct IH as (H1 & H2 & H3 & H4 & H5 & H6 & H7). cbn zeta.
      repeat split; try lia; try lra.
      cbn [map]. rewrite SUM_cons. lra.
    + destruct (Hstep (failed_at now)
                  (mark_failed now (r_id (subject row)) st)
                  (fun x => eq_refl) (mark_failed_rows _ _ _))
        as (a & b & Ea & Eb & ND1 & Hrest).
      specialize (IH (S call) (mark_failed now (r_id (subject row)) st)
                    {| processed := processed acc;
                       failed_count := S (failed_count acc);
                       ReimbursementService.totalAmount :=
                         ReimbursementService.totalAmount acc |}
                    ND1 NDrest Hrest).
      cbn zeta in IH. cbn [processed failed_count ReimbursementService.totalAmount] in IH.
      destruct (after_failure a (subject row) b now Hpending)
        as (C1 & C2 & C3 & T1 & T2 & T3).
      rewrite <- Ea, <- Eb in C1, C2, C3, T1, T2, T3.
      set (X := processSelected pay now rest (S call) _ _) in *. clearbody X.
      destruct IH as (H1 & H2 & H3 & H4 & H5 & H6 & H7). cbn zeta.
      repeat split; try lia; try lra.
      cbn [map]. rewrite SUM_cons. lra.
Qed.

(** X9. In a store that meets the schema's constraints, a call of
    [processPendingReimbursements] with a limit that is not negative
    returns normally; it counts as processed or failed exactly
    min(limit, number pending) reimbursements; in the statistics of
    [getStats], that many leave the pending ones, the completed ones grow
    by [processed] and the failed ones by [failed]. Of the amounts
    stored, which SUM(amount) adds up for each status, the pending ones
    lose those of the reimbursements selected, and the three sums
    together are what they were: nothing is lost and nothing is
    reimbursed twice. *)
Theorem processing_moves_pending_to_completed_or_failed :
  forall pay now limit st,
    wf_store st ->
    (0 <= limit)%Z ->
    exists result,
      fst (processPendingReimbursements pay now limit st) = Normal result
      /\ let st' := snd (processPendingReimbursements pay now limit st) in
         let before := getStats st in
         let after := getStats st' in
         let t := reimbursements st in
         let t' := reimbursements st' in
         Z.of_nat (processed result + failed_count result)
         = Z.min limit (Z.of_nat (count (pending_stats before)))
         /\ (count (pending_stats after) + processed result + failed_count result
             = count (pending_stats before))%nat
         /\ (count (completed_stats after)
             = count (completed_stats before) + processed result)%nat
         /\ (count (failed_stats after)
             = count (failed_stats before) + failed_count result)%nat
         /\ total_in pending t' + SUM (map r_amount (picked limit st))
            == total_in pending t
         /\ total_in pending t' + total_in completed t' + total_in failed t'
            == total_in pending t + total_in completed t + total_in failed t.
Proof.
  intros pay now limit st WF Hlimit.
  unfold processPendingReimbursements.
  destruct (limit <? 0)%Z eqn:E; [apply Z.ltb_lt in E; lia |].
  pose proof (selectPending_picked limit st WF) as Hsel.
  assert (NDsel : NoDup (map (fun row => r_id (subject row)) (selectPending limit st))).
  { rewrite <- (map_map subject r_id), Hsel.
    apply picked_NoDup, (wf_reimbursement_ids st WF). }
  assert (Hrows : forall row, In row (selectPending limit st) ->
                    In (subject row) (reimbursements st) /\ r_status (subject row) = pending).
  { intros row Hrow. apply (picked_In limit st). rewrite <- Hsel. now apply in_map. }
  assert (Hlen : Z.of_nat (List.length (selectPending limit st))
                 = Z.min limit (Z.of_nat (count_in pending (reimbursements st)))).
  { rewrite <- (length_map subject), Hsel. now apply picked_length. }
  pose proof (processSelected_accounting pay now (selectPending limit st) 0%nat st
                {| processed := 0; failed_count := 0;
                   ReimbursementService.totalAmount := 0 |}
                (wf_reimbursement_ids st WF) NDsel Hrows) as H.
  rewrite <- (map_map subject r_amount), Hsel in H.
  destruct (processSelected pay now (selectPending limit st) 0 st _) as [st' result].
  cbn [fst snd] in *. cbn zeta in H.
  cbn [processed failed_count ReimbursementService.totalAmount] in H.
  destruct H as (H1 & H2 & H3 & H4 & H5 & H6 & H7).
  exists result. split; [reflexivity |]. cbn zeta.
  destruct (getStats_entries st) as (-> & -> & ->).
  destruct (getStats_entries st') as (-> & -> & ->).
  cbn [count ReimbursementStats.totalAmount].
  repeat split; try lia; lra.
Qed.

Lemma processing_moves_pending_to_completed_or_failed_witness :
  exists result,
    fst (processPendingReimbursements Sample.seventh_fails Sample.evening 10
           Sample.twelve_pending) = Normal result
    /\ Z.of_nat (processed result + failed_count result) = 10%Z.
Proof.
  destruct (processing_moves_pending_to_completed_or_failed
              Sample.seventh_fails Sample.evening 10 Sample.twelve_pending
              ProcessPending.twelve_pending_wf)
    as (result & E & H & _).
  - lia.
  - exists result. split; [exact E | exact H].
Defined.

End Accounting.

(** ** The rows a vault run writes *)

Module VaultRun.
Import InterestService VaultSupplyService SupplyTerms.
Import SupplyFacts RunFacts.

Lemma saveSupplySnapshot_written now data st row :
  In row (vault_supply_snapshots (saveSupplySnapshot now data st)) ->
  In row (vault_supply_snapshots st)
  \/ (conflicts data row = true /\ carries data row).
Proof.
  cbn. destruct (existsb (conflicts data) (vault_supply_snapshots st)).
  - intro HIn. apply in_map_iff in HIn. destruct HIn as [row0 [<- HIn]].
    destruct (conflicts data row0) eqn:E; [right | now left].
    split; [now rewrite conflicts_do_update | apply carries_do_update].
  - intro HIn. apply in_app_or in HIn. destruct HIn as [HIn | [<- | []]]; [now left | right].
    split; [apply conflicts_iff |]; repeat split.
Qed.

Lemma saveSupplySnapshot_keeps now data st row :
  In row (vault_supply_snapshots st) -> conflicts data row = false ->
  In row (vault_supply_snapshots (saveSupplySnapshot now data st)).
Proof.
  intros HIn Hc. cbn. destruct (existsb (conflicts data) (vault_supply_snapshots st)).
  - apply in_map_iff. exists row. now rewrite Hc.
  - apply in_or_app. now left.
Qed.

Lemma saveSupplySnapshot_length now data st :
  let n := List.length (vault_supply_snapshots st) in
  let n' := List.length (vault_supply_snapshots (saveSupplySnapshot now data st)) in
  (n <= n' <= n + 1)%nat.
Proof.
  cbn. destruct (existsb (conflicts data) (vault_supply_snapshots st)).
  - rewrite length_map. lia.
  - rewrite length_app. cbn. lia.
Qed.

Lemma getActiveVaultAllocations_supplied st a :
  In a (getActiveVaultAllocations st) -> 0 < supply_assets a.
Proof.
  unfold getActiveVaultAllocations. rewrite sort_by_In. intro H.
  apply filter_In in H. destruct H as [_ H]. now apply Qlt_bool_iff.
Qed.

Lemma allocations_fold_length rs now rows :
  forall st,
    let st' := fold_left (fun st allocation =>
                            store_after (processAllocation rs now allocation st)) rows st in
    (List.length (vault_supply_snapshots st) <= List.length (vault_supply_snapshots st')
     <= List.length (vault_supply_snapshots st) + List.length rows)%nat.
Proof.
  induction rows as [| a rest IH]; intro st; cbn zeta; cbn [fold_left List.length]; [lia |].
  specialize (IH (store_after (processAllocation rs now a st))). cbn zeta in IH.
  assert (H : (List.length (vault_supply_snapshots st)
               <= List.length (vault_supply_snapshots
                                 (store_after (processAllocation rs now a st)))
               <= List.length (vault_supply_snapshots st) + 1)%nat).
  { destruct (processAllocation_cases rs now a st) as [-> | [s Hs]]; [lia |].
    rewrite (processAllocation_store _ _ _ _ _ Hs). apply saveSupplySnapshot_length. }
  lia.
Qed.

(** X10. What a vault run does to the vault snapshots: every row of the
    table afterwards was there before or is the row of today of an
    allocation fetched at the start (joined to its vault and market,
    with a positive supply) whose market came back with a state, and
    then it carries the figures computed for that allocation; a row of
    another day is never rewritten or removed; and the table grows by at
    most one row for each allocation fetched. *)
Theorem vault_run_writes_rows_of_today_for_supplied_allocations :
  forall rs now st,
    let st' := store_after (processDailySupplySnapshots rs now st) in
    (forall row,
        In row (vault_supply_snapshots st') ->
        In row (vault_supply_snapshots st)
        \/ exists a s,
             In a (getActiveVaultAllocations st)
             /\ rs (VaultSupplyService.market_id a) = MarketWithState s
             /\ snapshot_key row = (vault_id a, VaultSupplyService.market_id a, DATE now)
             /\ carries (data_of now a s) row
             /\ 0 < vss_supply_amount row)
    /\ (forall row,
          In row (vault_supply_snapshots st) ->
          vss_snapshot_date row <> DATE now ->
          In row (vault_supply_snapshots st'))
    /\ (List.length (vault_supply_snapshots st) <= List.length (vault_supply_snapshots st')
        <= List.length (vault_supply_snapshots st)
           + List.length (getActiveVaultAllocations st))%nat.
Proof.
  intros rs now st. cbn zeta.
  rewrite SupplyRerun.processDailySupplySnapshots_store.
  split; [| split].
  - apply (SupplyRerun.processAllocations_invariant_in rs now (getActiveVaultAllocations st)
             (fun st' =>
                forall row,
                  In row (vault_supply_snapshots st') ->
                  In row (vault_supply_snapshots st)
                  \/ exists a s,
                       In a (getActiveVaultAllocations st)
                       /\ rs (VaultSupplyService.market_id a) = MarketWithState s
                       /\ snapshot_key row
                          = (vault_id a, VaultSupplyService.market_id a, DATE now)
                       /\ carries (data_of now a s) row
                       /\ 0 < vss_supply_amount row)); [| auto].
    intros st' a Ha IH row HIn.
    destruct (processAllocation_cases rs now a st') as [E | [s Hs]];
      [rewrite E in HIn; auto |].
    rewrite (processAllocation_store _ _ _ _ _ Hs) in HIn.
    apply saveSupplySnapshot_written in HIn. destruct HIn as [HIn | [Hc Hcar]]; [auto |].
    right. exists a, s. split; [exact Ha |]. split; [exact Hs |].
    split; [now apply SupplyRerun.conflicts_key in Hc |]. split; [exact Hcar |].
    destruct Hcar as (-> & _). cbn. now apply (getActiveVaultAllocations_supplied st).
  - intros row HIn Hday.
    apply (SupplyRerun.processAllocations_invariant_in rs now (getActiveVaultAllocations st)
             (fun st' => In row (vault_supply_snapshots st'))); [| exact HIn].
    intros st' a _ IH.
    destruct (processAllocation_cases rs now a st') as [-> | [s Hs]]; [exact IH |].
    rewrite (processAllocation_store _ _ _ _ _ Hs).
    apply saveSupplySnapshot_keeps; [exact IH |].
    destruct (conflicts (data_of now a s) row) eqn:E; [| reflexivity].
    apply conflicts_iff in E. destruct E as (_ & _ & E). now elim Hday.
  - rewrite DailyJob.processAllocations_fold. apply allocations_fold_length.
Qed.

End VaultRun.

(** ** The interest calculator and the engine *)

Module Calculator.
Import InterestService VaultSupplyService InterestTerms SupplyTerms APRCalculator.
Import InterestFacts SupplyFacts.

Lemma calculateReimbursement_formula (principal actualRate cappedRate days : Q) :
  calculateReimbursement principal actualRate cappedRate days
  == if Qle_bool actualRate cappedRate then 0
     else principal * (actualRate - cappedRate) * days / 365.
Proof.
  unfold calculateReimbursement, calculateDailyInterest.
  destruct (Qle_bool actualRate cappedRate); [reflexivity | field].
Qed.

Lemma calculateReimbursement_is_the_excess (p r c : Q) :
  0 <= p ->
  calculateReimbursement p r c 1 == Math_max 0 (p * (r / 365) - p * (c / 365)).
Proof.
  intro Hp. rewrite calculateReimbursement_formula.
  destruct (BorrowerRun.excess_sign p r c Hp) as (Hle & Hlt & H0).
  destruct (Qle_bool r c) eqn:E.
  - apply Qle_bool_iff in E. symmetry. apply Math_max_0_of_nonpos. auto.
  - assert (Hrc : c < r).
    { apply Qnot_le_lt. intro H. apply Qle_bool_iff in H. congruence. }
    assert (0 <= p * (r / 365) - p * (c / 365)).
    { assert (E' : p * (r / 365) - p * (c / 365) == p * (r - c) * (1 # 365)) by field.
      rewrite E'. assert (0 <= p * (r - c)) by (apply Qmult_le_0_compat; lra). lra. }
    rewrite Math_max_0_of_nonneg by assumption. field.
Qed.

(** X11. The calculator of utils/aprCalculations.ts and the snapshot
    engine agree: for a position with a debt that is not negative, the
    interest above cap of the snapshot [processPosition] writes is
    [calculateReimbursement] of the debt, the rate observed and the cap
    in force for one day, and its interest accrued is
    [calculateDailyInterest] of the debt and the rate; the same holds
    for the row a vault allocation, whose supply is positive, gets. The
    calculator's result is proportional to the number of days. *)
Theorem calculator_agrees_with_the_snapshot_engine :
  (forall rs now st position s,
      rs (InterestService.market_id position) = MarketWithState s ->
      0 <= current_debt position ->
      exists snap,
        interest_snapshots (store_after (processPosition rs now position st))
        = interest_snapshots st ++ [snap]
        /\ i_interest_accrued snap
           == calculateDailyInterest (current_debt position) (borrowApy s) 1
        /\ i_interest_above_cap snap
           == calculateReimbursement (current_debt position) (borrowApy s)
                (getCappedRate st (InterestService.market_id position)) 1)
  /\ (forall rs now st allocation s,
        In allocation (getActiveVaultAllocations st) ->
        rs (VaultSupplyService.market_id allocation) = MarketWithState s ->
        exists row,
          In row (vault_supply_snapshots
                    (store_after (processAllocation rs now allocation st)))
          /\ snapshot_key row
             = (vault_id allocation, VaultSupplyService.market_id allocation, DATE now)
          /\ vss_interest_earned row
             == calculateDailyInterest (supply_assets allocation) (supplyApy s) 1
          /\ vss_interest_above_cap row
             == calculateReimbursement (supply_assets allocation) (supplyApy s)
                  (apr_cap allocation) 1)
  /\ (forall principal actualRate cappedRate days,
        calculateReimbursement principal actualRate cappedRate days
        == days * calculateReimbursement principal actualRate cappedRate 1).
Proof.
  split; [| split].
  - intros rs now st position s Hs Hp.
    exists (snapshot_of now st position s).
    split; [now apply processPosition_snapshots |].
    cbn [snapshot_of i_interest_accrued i_interest_above_cap]. split.
    + unfold calculateDailyInterest. field.
    + symmetry. now apply calculateReimbursement_is_the_excess.
  - intros rs now st allocation s Ha Hs.
    rewrite (processAllocation_store _ _ _ _ _ Hs).
    destruct (saveSupplySnapshot_recorded now (data_of now allocation s) st)
      as [[row [HIn Hc]] Hcar].
    exists row. split; [exact HIn |].
    split; [now apply SupplyRerun.conflicts_key in Hc |].
    destruct (Hcar row HIn Hc) as (_ & _ & _ & -> & -> & _).
    cbn [data_of d_interest_earned d_interest_above_cap]. split.
    + unfold calculateDailyInterest. field.
    + symmetry. apply calculateReimbursement_is_the_excess.
      apply Qlt_le_weak. now apply (VaultRun.getActiveVaultAllocations_supplied st).
  - intros principal actualRate cappedRate days.
    rewrite !calculateReimbursement_formula.
    destruct (Qle_bool actualRate cappedRate); field.
Qed.

Lemma calculator_agrees_with_the_snapshot_engine_witness :
  exists snap,
    interest_snapshots
      (store_after (processPosition (Sample.rates 0.18 0.18) Sample.noon Sample.alice
                      Sample.one_market))
    = interest_snapshots Sample.one_market ++ [snap]
    /\ i_interest_above_cap snap == calculateReimbursement 1000 0.18 0.12 1.
Proof.
  destruct calculator_agrees_with_the_snapshot_engine as [H _].
  destruct (H (Sample.rates 0.18 0.18) Sample.noon Sample.one_market Sample.alice
              {| borrowApy := 0.18; supplyApy := 0.18 |} eq_refl)
    as (snap & Hsnap & _ & Habove).
  - vm_compute. discriminate.
  - exists snap. split; [exact Hsnap | exact Habove].
Defined.

End Calculator.

(** ** The next run of the scheduler *)

Module NextRun.
Import SchedulerService.

(** X12. [getNextRunTime] gives the first midnight UTC strictly after
    the present instant: a multiple of 86 400 000 ms, later than now by
    one day at most, with no midnight in between. *)
Theorem getNextRunTime_is_the_next_midnight :
  forall now_ms,
    let next := getNextRunTime now_ms in
    (next mod 86400000 = 0)%Z
    /\ (now_ms < next <= now_ms + 86400000)%Z
    /\ forall t, (now_ms < t)%Z -> (t mod 86400000 = 0)%Z -> (next <= t)%Z.
Proof.
  intro now_ms. cbn zeta. unfold getNextRunTime.
  pose proof (Z.mod_pos_bound (now_ms + 86400000) 86400000 ltac:(lia)) as Hb.
  pose proof (Z.div_mod (now_ms + 86400000) 86400000 ltac:(lia)) as Hd.
  split; [| split].
  - replace (now_ms + 86400000 - (now_ms + 86400000) mod 86400000)%Z
      with (((now_ms + 86400000) / 86400000) * 86400000)%Z by lia.
    apply Z.mod_mul. lia.
  - lia.
  - intros t Hlt Ht.
    pose proof (Z.div_mod t 86400000 ltac:(lia)) as Hdt. rewrite Ht in Hdt.
    assert (((now_ms + 86400000) / 86400000 <= t / 86400000)%Z); [| lia].
    assert ((now_ms + 86400000) / 86400000 - 1 < t / 86400000)%Z; [| lia].
    apply Z.nle_gt. intro Hle. nia.
Qed.

End NextRun.

(** ** Borrowers read from Morpho *)

Module MorphoFacts.
Import MorphoService.

Lemma total_app (a b : list Z) : total (a ++ b) = (total a + total b)%Z.
Proof. unfold total. induction a as [| x a IH]; cbn; [reflexivity | rewrite IH; lia]. Qed.

Lemma borrowed_bound (T A : Z) (items : list MarketPosition) :
  (0 < T)%Z -> (0 <= A)%Z ->
  (forall item, In item items ->
                state_borrowShares item = T /\ state_borrowAssets item = A) ->
  let borrowers := filter (fun position => (0 <? borrowShares position)%Z) items in
  (0 <= total (map borrowed borrowers))%Z
  /\ (total (map borrowed borrowers) * T <= total (map borrowShares borrowers) * A)%Z
  /\ (0 <= total (map borrowShares borrowers))%Z.
Proof.
  intros HT HA. induction items as [| item items IH]; intro H; cbn zeta.
  - cbn. lia.
  - cbn [filter].
    assert (Hrest : forall item', In item' items ->
                      state_borrowShares item' = T /\ state_borrowAssets item' = A)
      by (intros item' H'; apply H; now right).
    specialize (IH Hrest). cbn zeta in IH.
    destruct (0 <? borrowShares item)%Z eqn:E; [| exact IH].
    apply Z.ltb_lt in E. cbn [map total fold_right]. fold (total (map borrowed
      (filter (fun position => (0 <? borrowShares position)%Z) items))).
    fold (total (map borrowShares
      (filter (fun position => (0 <? borrowShares position)%Z) items))).
    destruct (H item (or_introl eq_refl)) as [HT' HA'].
    unfold borrowed at 1 3. rewrite HT', HA'.
    destruct (0 <? T)%Z eqn:ET; [| apply Z.ltb_ge in ET; lia].
    rewrite Z.quot_div_nonneg by nia.
    pose proof (Z.div_pos (borrowShares item * A) T ltac:(nia) HT) as Hq0.
    pose proof (Z.mul_div_le (borrowShares item * A) T HT) as Hq.
    nia.
Qed.

(** X13. [getBorrowerPositions] returns, in the order of the answer,
    the positions with positive borrow shares and no others, each with
    its address and shares as received. Where the positions are those
    of one market, with total borrow shares T > 0 and total borrow
    assets A >= 0, the amounts attributed are not negative, and if the
    shares returned add up to T at most, the amounts add up to A at
    most: the truncating division never attributes more than the market
    lent. An answer with errors makes the call throw; an answer without
    positions gives the empty array. *)
Theorem getBorrowerPositions_never_attributes_more_than_was_lent :
  forall items T A,
    (0 < T)%Z -> (0 <= A)%Z ->
    (forall item, In item items ->
                  state_borrowShares item = T /\ state_borrowAssets item = A) ->
    exists result,
      getBorrowerPositions (MarketPositions items) = Normal result
      /\ map (fun info => (address info, info_borrowShares info)) result
         = map (fun item => (user_address item, borrowShares item))
             (filter (fun item => (0 <? borrowShares item)%Z) items)
      /\ (forall info, In info result ->
                       (0 < info_borrowShares info)%Z /\ (0 <= borrowedAmount info)%Z)
      /\ ((total (map info_borrowShares result) <= T)%Z ->
          (total (map borrowedAmount result) <= A)%Z).
Proof.
  intros items T A HT HA H. eexists. split; [reflexivity |].
  rewrite !map_map. cbn [address info_borrowShares borrowedAmount].
  split; [reflexivity |]. split.
  - intros info HIn. apply in_map_iff in HIn. destruct HIn as [item [<- HIn]].
    apply filter_In in HIn. destruct HIn as [HIn Hs]. apply Z.ltb_lt in Hs.
    cbn. split; [exact Hs |].
    unfold borrowed. destruct (H item HIn) as [-> ->].
    destruct (0 <? T)%Z; [| lia]. apply Z.quot_pos; nia.
  - destruct (borrowed_bound T A items HT HA H) as (H0 & Hb & Hs). cbn zeta in *.
    change (total (map borrowShares
                     (filter (fun item => (0 <? borrowShares item)%Z) items)) <= T ->
            total (map borrowed
                     (filter (fun item => (0 <? borrowShares item)%Z) items)) <= A)%Z.
    intro Hle.
    set (X := total (map borrowed _)) in *. set (S := total (map borrowShares _)) in *.
    assert (S * A <= T * A)%Z by (apply Z.mul_le_mono_nonneg_r; lia).
    nia.
Qed.

Lemma getBorrowerPositions_never_attributes_more_than_was_lent_witness :
  exists result,
    getBorrowerPositions
      (MarketPositions
         [{| user_address := "0xa"; borrowShares := 2; market_uniqueKey := "m";
             loanAsset_symbol := "USDC"; collateralAsset_symbol := "WETH";
             state_borrowAssets := 10; state_borrowShares := 3 |};
          {| user_address := "0xb"; borrowShares := 0; market_uniqueKey := "m";
             loanAsset_symbol := "USDC"; collateralAsset_symbol := "WETH";
             state_borrowAssets := 10; state_borrowShares := 3 |};
          {| user_address := "0xc"; borrowShares := 1; market_uniqueKey := "m";
             loanAsset_symbol := "USDC"; collateralAsset_symbol := "WETH";
             state_borrowAssets := 10; state_borrowShares := 3 |}])
    = Normal result
    /\ map borrowedAmount result = [6; 3]%Z.
Proof.
  destruct (getBorrowerPositions_never_attributes_more_than_was_lent
              [{| user_address := "0xa"; borrowShares := 2; market_uniqueKey := "m";
                  loanAsset_symbol := "USDC"; collateralAsset_symbol := "WETH";
                  state_borrowAssets := 10; state_borrowShares := 3 |};
               {| user_address := "0xb"; borrowShares := 0; market_uniqueKey := "m";
                  loanAsset_symbol := "USDC"; collateralAsset_symbol := "WETH";
                  state_borrowAssets := 10; state_borrowShares := 3 |};
               {| user_address := "0xc"; borrowShares := 1; market_uniqueKey := "m";
                  loanAsset_symbol := "USDC"; collateralAsset_symbol := "WETH";
                  state_borrowAssets := 10; state_borrowShares := 3 |}]
              3%Z 10%Z)
    as (result & E & _).
  - lia.
  - lia.
  - intros item [<- | [<- | [<- | []]]]; split; reflexivity.
  - exists result. split; [exact E |].
    cbn in E. inversion E. reflexivity.
Defined.

End MorphoFacts.

(** ** The two ways a reimbursement is created *)

Module BothPaths.
Import InterestService ReimbursementService InterestTerms ReimbursementTerms RunTerms.
Import BatchTerms InterestFacts RunFacts CreateFacts Compounding BorrowerRun.

Lemma left_join_total {A B : Type} (on : A -> B -> bool) (l : list A) (r : list B) a :
  In a l -> exists ob, In (a, ob) (left_join on l r).
Proof.
  intro HIn. unfold left_join.
  destruct (filter (on a) r) as [| b ms] eqn:E.
  - exists None. apply in_flat_map. exists a. split; [exact HIn |]. rewrite E. now left.
  - exists (Some b). apply in_flat_map. exists a. split; [exact HIn |]. rewrite E. now left.
Qed.

(** A row of the left table whose position and market are stored comes
    out of the joins. *)
Lemma with_owner_row {X : Type} (position_id : X -> Z) (xs : list X) st x bp m :
  In x xs ->
  In bp (borrower_positions st) -> bp_id bp = position_id x ->
  In m (markets st) -> m_market_id m = bp_market_id bp ->
  exists row,
    In row (with_owner position_id xs st)
    /\ subject row = x /\ position_of row = bp /\ market_of row = m.
Proof.
  intros Hx Hbp Ebp Hm Em. unfold with_owner.
  assert (H1 : In (x, bp)
                 (join (fun x bp => (bp_id bp =? position_id x)%Z) xs
                    (borrower_positions st)))
    by (apply join_In; repeat split; auto; now apply Z.eqb_eq).
  assert (H2 : In (x, bp, m)
                 (join (fun row m => String.eqb (m_market_id m) (bp_market_id (snd row)))
                    (join (fun x bp => (bp_id bp =? position_id x)%Z) xs
                       (borrower_positions st))
                    (markets st)))
    by (apply join_In; repeat split; auto; now apply String.eqb_eq).
  destruct (left_join_total
              (fun row v => match bp_vault_id (snd (fst row)) with
                            | Some i => (v_id v =? i)%Z
                            | None => false
                            end) _ (vaults st) _ H2) as [ov H3].
  destruct (left_join_total
              (fun row b => match bp_borrower_id (snd (fst (fst row))) with
                            | Some i => (b_id b =? i)%Z
                            | None => false
                            end) _ (borrowers st) _ H3) as [ob H4].
  exists (x, bp, m, ov, ob). split; [exact H4 |]. repeat split.
Qed.

(** X14. The two creation paths do not see each other. Take a store
    that meets the schema's constraints, an active position whose
    market comes back with a state, no snapshot of that position today
    and no reimbursement of it whose period is today, and let the
    snapshot the run writes for it record a positive excess. After a
    borrower run and then a call of [createReimbursementEntries] for
    the same day, the position has two pending reimbursements of the
    same amount, the excess that one snapshot records: the one the run
    created for the period from yesterday to today, and the one
    [createReimbursementEntries] created for the period today to
    today. *)
Theorem both_creation_paths_reimburse_the_same_excess :
  forall rs now now' date st position s,
    wf_store st ->
    In position (getActivePositions st) ->
    rs (InterestService.market_id position) = MarketWithState s ->
    0 < i_interest_above_cap (snapshot_of now st position s) ->
    DATE date = DATE now ->
    (forall snap, In snap (interest_snapshots st) ->
                  i_position_id snap = id position -> i_snapshot_date snap <> DATE now) ->
    existing (id position) (DATE now) st = [] ->
    let st1 := store_after (processDailySnapshot rs now st) in
    let st2 := snd (createReimbursementEntries now' date st1) in
    exists r1 r2,
      In r1 (reimbursements st2) /\ In r2 (reimbursements st2)
      /\ r_id r1 <> r_id r2
      /\ r_position_id r1 = id position /\ r_position_id r2 = id position
      /\ r_status r1 = pending /\ r_status r2 = pending
      /\ r_period_start r1 = (DATE now - 1)%Z /\ r_period_end r1 = DATE now
      /\ r_period_start r2 = DATE now /\ r_period_end r2 = DATE now
      /\ In (snapshot_of now st position s) (interest_snapshots st2)
      /\ r_amount r1 = i_interest_above_cap (snapshot_of now st position s)
      /\ r_amount r2 = i_interest_above_cap (snapshot_of now st position s).
Proof.
  intros rs now now' date st position s WF Hrow Hs Hexcess Hday Hnone Hnew st1 st2.
  set (snap := snapshot_of now st position s) in *.
  assert (Hpos : Qlt_bool 0 (i_interest_above_cap snap) = true)
    by now apply Qlt_bool_iff.
  (* what the run wrote *)
  destruct (processDailySnapshot_one_pass rs now st) as (Hw & Hc & _). fold st1 in Hw, Hc.
  assert (Hsnap : In snap (snapshots_for rs now st (getActivePositions st)))
    by now apply snapshots_for_In.
  destruct (reimbursements_for_In now _ snap (reimbursements_id_seq st) Hsnap Hpos)
    as [j Hr1].
  (* the position and its market after the run *)
  pose proof (proj1 (getActivePositions_In st position) Hrow) as (Hbp & Hm & Em & Eactive).
  destruct (processPositions_compounds rs now (getActivePositions st)
              (getActivePositions_NoDup st (wf_position_ids st WF) (wf_market_ids st WF))
              st 0%nat 0%nat (fst position) position s Hrow eq_refl Hs Hbp)
    as [Hbp1 _].
  rewrite <- DebtUpdate.processDailySnapshot_store in Hbp1. fold st1 in Hbp1.
  destruct (DailyJob.processDailySnapshot_frame rs now st) as (Hm1 & _). fold st1 in Hm1.
  (* the row the SELECT of createReimbursementEntries returns for it *)
  destruct (with_owner_row i_position_id (interest_snapshots st1) st1 snap _ (snd position)
              ltac:(rewrite Hw; apply in_or_app; now right) Hbp1 eq_refl
              ltac:(now rewrite Hm1) ltac:(symmetry; exact Em))
    as (row & HrowIn & Hsub & Hpos_of & _).
  assert (Hneeds : In row (positionsNeedingReimbursement date st1)).
  { unfold positionsNeedingReimbursement. apply filter_In. split; [exact HrowIn |].
    rewrite Hsub, Hpos_of. cbn [with_debt bp_status]. rewrite Eactive, Hpos.
    cbn [snap snapshot_of i_snapshot_date]. rewrite Hday, Z.eqb_refl. reflexivity. }
  destruct (Creation.createReimbursementEntries_created now' date st1)
    as (created & Hc2 & _ & Hsame2 & _ & Hcreated & Hall). fold st2 in Hc2, Hsame2, Hall.
  specialize (Hall row Hneeds). rewrite Hsub, Hday in Hall.
  change (i_position_id snap) with (id position) in Hall.
  destruct (existing (id position) (DATE now) st2) as [| r2 found] eqn:Eex; [congruence |].
  assert (Hr2 : In r2 (existing (id position) (DATE now) st2))
    by (rewrite Eex; now left).
  unfold existing in Hr2. apply filter_In in Hr2. destruct Hr2 as [Hr2 Hkey].
  rewrite !andb_true_iff, !Z.eqb_eq in Hkey. destruct Hkey as [[Hp2 Hs2] He2].
  (* it is one of the rows created by the call *)
  assert (Hr2c : In r2 created).
  { rewrite Hc2, Hc in Hr2. apply in_app_or in Hr2. destruct Hr2 as [Hr2 | Hr2]; [| exact Hr2].
    exfalso. apply in_app_or in Hr2. destruct Hr2 as [Hr2 | Hr2].
    - assert (In r2 (existing (id position) (DATE now) st)).
      { unfold existing. apply filter_In. split; [exact Hr2 |].
        rewrite !andb_true_iff, !Z.eqb_eq. auto. }
      rewrite Hnew in H. contradiction.
    - apply reimbursements_for_period in Hr2. lia. }
  destruct (Hcreated r2 Hr2c) as ((Hst2 & _) & _ & _ & Hpays & _).
  destruct Hpays as (snap' & Hsnap' & Hp' & Hd' & Ha' & _).
  (* the snapshot it pays is the one written by the run *)
  assert (Esnap : snap' = snap).
  { rewrite Hw in Hsnap'. apply in_app_or in Hsnap'. destruct Hsnap' as [Hold | Hnew'].
    - exfalso. apply (Hnone snap' Hold); [congruence | now rewrite Hd', Hday].
    - apply snapshots_for_inv in Hnew'.
      destruct Hnew' as (position' & s' & Hrow' & Hs' & ->).
      assert (position' = position).
      { apply (NoDup_map_inj id (getActivePositions st));
          [apply getActivePositions_NoDup; apply WF | assumption | assumption |].
        cbn [snapshot_of i_position_id] in Hp'. congruence. }
      subst position'. assert (s' = s) by congruence. now subst s'. }
  subst snap'.
  exists (inline_reimbursement now j snap), r2.
  assert (Hr1' : In (inline_reimbursement now j snap) (reimbursements st2))
    by (rewrite Hc2, Hc; apply in_or_app; left; apply in_or_app; now right).
  split; [exact Hr1' |]. split; [exact Hr2 |]. split.
  { intro Eid.
    assert (WF2 : wf_store st2).
    { apply (Lifecycle.evolves_wf st1);
        [apply (Lifecycle.evolves_wf st _ WF), Lifecycle.processDailySnapshot_evolves
        | apply Lifecycle.createReimbursementEntries_evolves]. }
    assert (E : inline_reimbursement now j snap = r2)
      by (apply (NoDup_map_inj r_id _ _ _ (wf_reimbursement_ids st2 WF2)); auto).
    rewrite <- E in Hs2. cbn in Hs2. lia. }
  cbn [inline_reimbursement r_position_id r_status r_period_start r_period_end r_amount].
  repeat split; auto.
  destruct Hsame2 as (_ & _ & _ & _ & _ & -> & _).
  rewrite Hw. apply in_or_app. now right.
Qed.

Lemma one_market_wf : wf_store Sample.one_market.
Proof.
  constructor; cbn.
  - repeat constructor; simpl; tauto.
  - repeat constructor; simpl; tauto.
  - repeat constructor; simpl; tauto.
  - repeat constructor; simpl; tauto.
  - repeat constructor; simpl; tauto.
  - constructor.
  - intros r [].
  - intros bp [<- | []]. now left.
  - intros r [].
Qed.

Lemma both_creation_paths_reimburse_the_same_excess_witness :
  exists r1 r2,
    let st2 :=
      snd (createReimbursementEntries Sample.evening Sample.noon
             (store_after (processDailySnapshot (Sample.rates 0.18 0.18) Sample.noon
                             Sample.one_market))) in
    In r1 (reimbursements st2) /\ In r2 (reimbursements st2)
    /\ r_id r1 <> r_id r2 /\ r_amount r2 = r_amount r1.
Proof.
  destruct (both_creation_paths_reimburse_the_same_excess
              (Sample.rates 0.18 0.18) Sample.noon Sample.evening Sample.noon
              Sample.one_market Sample.alice {| borrowApy := 0.18; supplyApy := 0.18 |})
    as (r1 & r2 & H1 & H2 & Hid & _ & _ & _ & _ & _ & _ & _ & _ & _ & Ha1 & Ha2).
  - exact one_market_wf.
  - left. reflexivity.
  - reflexivity.
  - reflexivity.
  - reflexivity.
  - intros snap [].
  - reflexivity.
  - exists r1, r2. cbn zeta. split; [exact H1 |]. split; [exact H2 |].
    split; [exact Hid | congruence].
Defined.

End BothPaths.

(** ** The summary of the day *)

Module DailySummary.
Import InterestService InterestTerms RunTerms BatchTerms InterestSummary ReimbursementStats.
Import InterestFacts RunFacts Compounding BorrowerRun Accounting.

Lemma filter_none {X : Type} (keep : X -> bool) (rows : list X) :
  (forall x, In x rows -> keep x = false) -> filter keep rows = [].
Proof.
  intro H. induction rows as [| x rows IH]; [reflexivity |].
  cbn [filter]. rewrite (H x (or_introl eq_refl)).
  apply IH. intros y Hy. apply H. now right.
Qed.

Lemma filter_all {X : Type} (keep : X -> bool) (rows : list X) :
  (forall x, In x rows -> keep x = true) -> filter keep rows = rows.
Proof.
  intro H. induction rows as [| x rows IH]; [reflexivity |].
  cbn [filter]. rewrite (H x (or_introl eq_refl)). f_equal.
  apply IH. intros y Hy. apply H. now right.
Qed.

Lemma snapshots_for_ids rs now st rows :
  map i_position_id (snapshots_for rs now st rows)
  = map id (filter (fun position => match rs (market_id position) with
                                    | MarketWithState _ => true
                                    | _ => false
                                    end) rows).
Proof.
  induction rows as [| position rest IH]; [reflexivity |].
  unfold snapshots_for in *. cbn [flat_map filter].
  destruct (rs (market_id position)); cbn [app map]; now rewrite IH.
Qed.

Lemma snapshots_for_excess rs now st rows :
  Forall (fun snap => 0 <= i_interest_above_cap snap) (snapshots_for rs now st rows).
Proof.
  apply Forall_forall. intros snap H. apply snapshots_for_inv in H.
  destruct H as (position & s & _ & _ & ->). apply Math_max_0_nonneg.
Qed.

(** The excesses of the snapshots add up to the amounts of the
    reimbursements created for them. *)
Lemma reimbursements_for_total now snaps :
  Forall (fun snap => 0 <= i_interest_above_cap snap) snaps ->
  forall i,
    SUM (map i_interest_above_cap snaps)
    == SUM (map r_amount (reimbursements_for now i snaps)).
Proof.
  induction 1 as [| snap snaps Hx _ IH]; intro i; [reflexivity |].
  cbn [map reimbursements_for]. rewrite SUM_cons.
  destruct (Qlt_bool 0 (i_interest_above_cap snap)) eqn:E.
  - cbn [map inline_reimbursement r_amount]. rewrite SUM_cons. now rewrite (IH (i + 1)%Z).
  - assert (i_interest_above_cap snap == 0).
    { apply Qle_antisym; [| exact Hx]. apply Qnot_lt_le. intro H.
      apply Qlt_bool_iff in H. congruence. }
    rewrite (IH i). lra.
Qed.

(** X15. After a borrower run on a store that meets the schema's
    constraints and holds no snapshot of the day, [getTodaySummary],
    read later that day, describes what the run wrote: the number of
    positions processed is the number of snapshots appended; the total
    interest is the sum of the interest they record; and the total
    reimbursable, the sum of the excesses they record, is the sum of
    the amounts of the reimbursements the run created. The totals are
    NULL exactly when the run appended no snapshot. *)
Theorem summary_of_the_day_is_what_the_run_wrote :
  forall rs now later st,
    wf_store st ->
    (forall snap, In snap (interest_snapshots st) -> i_snapshot_date snap <> DATE now) ->
    DATE later = DATE now ->
    let st' := store_after (processDailySnapshot rs now st) in
    let summary := getTodaySummary later st' in
    exists written created,
      interest_snapshots st' = interest_snapshots st ++ written
      /\ reimbursements st' = reimbursements st ++ created
      /\ positions_processed summary = List.length written
      /\ match total_reimbursable summary with
         | None => written = [] /\ created = []
         | Some total =>
             written <> []
             /\ total = SUM (map i_interest_above_cap written)
             /\ total == SUM (map r_amount created)
         end
      /\ match total_interest summary with
         | None => written = []
         | Some total => written <> [] /\ total = SUM (map i_interest_accrued written)
         end.
Proof.
  intros rs now later st WF Hfresh Hlater st' summary.
  destruct (processDailySnapshot_one_pass rs now st) as (Hw & Hc & _).
  fold st' in Hw, Hc.
  set (rows := getActivePositions st) in *.
  set (written := snapshots_for rs now st rows) in *.
  exists written, (reimbursements_for now (reimbursements_id_seq st) written).
  split; [exact Hw |]. split; [exact Hc |].
  assert (NDrows : NoDup (map id rows))
    by (apply getActivePositions_NoDup; apply WF).
  assert (Htoday : filter (fun snap => (i_snapshot_date snap =? DATE now)%Z)
                     (interest_snapshots st') = written).
  { rewrite Hw, filter_app, filter_none, filter_all; [reflexivity | |].
    - intros snap H. apply snapshots_for_inv in H.
      destruct H as (position & s & _ & _ & ->). apply Z.eqb_refl.
    - intros snap H. apply Z.eqb_neq. now apply Hfresh. }
  subst summary. unfold getTodaySummary. rewrite Hlater, Htoday.
  cbn [positions_processed total_reimbursable total_interest].
  split; [| split].
  - rewrite nodup_fixed_point; [apply length_map |].
    unfold written. rewrite snapshots_for_ids. now apply NoDup_map_filter.
  - pose proof (reimbursements_for_total now written (snapshots_for_excess rs now st rows)
                  (reimbursements_id_seq st)) as Htotal.
    destruct written as [| snap rest]; [now split |].
    cbn [map SUM_or_NULL]. split; [discriminate |]. split; [reflexivity | exact Htotal].
  - destruct written as [| snap rest].
    + reflexivity.
    + cbn [map SUM_or_NULL]. split; [discriminate | reflexivity].
Qed.

Lemma summary_of_the_day_is_what_the_run_wrote_witness :
  exists written created,
    interest_snapshots
      (store_after (processDailySnapshot (Sample.rates 0.18 0.18) Sample.noon
                      Sample.one_market))
    = interest_snapshots Sample.one_market ++ written
    /\ reimbursements
         (store_after (processDailySnapshot (Sample.rates 0.18 0.18) Sample.noon
                         Sample.one_market))
       = reimbursements Sample.one_market ++ created
    /\ positions_processed
         (getTodaySummary Sample.evening
            (store_after (processDailySnapshot (Sample.rates 0.18 0.18) Sample.noon
                            Sample.one_market)))
       = List.length written.
Proof.
  destruct (summary_of_the_day_is_what_the_run_wrote
              (Sample.rates 0.18 0.18) Sample.noon Sample.evening Sample.one_market
              BothPaths.one_market_wf)
    as (written & created & Hw & Hc & Hp & _).
  - intros snap [].
  - reflexivity.
  - exists written, created. auto.
Defined.

End DailySummary.

(** ** A batch of failures and its retry *)

Module RoundTrip.
Import ReimbursementService ReimbursementTerms Operations.
Import CreateFacts Retry Payment Lifecycle Accounting.

Lemma successes_none pay rows :
  (forall call a q, exists message, pay call a q = Throw message) ->
  forall call, successes pay call rows = 0%nat.
Proof.
  intro Hfail. induction rows as [| row rest IH]; intro call; [reflexivity |].
  cbn [successes]. unfold succeeds.
  destruct (Hfail call (recipient_address row) (r_amount (subject row))) as [message ->].
  now rewrite IH.
Qed.

Lemma reset_failed_at now r :
  r_status r = pending -> r_tx_hash r = None -> r_processed_at r = None ->
  reset (failed_at now r) = r.
Proof. destruct r. cbn. now intros -> -> ->. Qed.

Lemma map_of_Forall2 {A B : Type} (f : B -> A) (l : list A) :
  forall l', Forall2 (fun a b => f b = a) l l' -> map f l' = l.
Proof.
  induction l as [| a l IH]; intros l' H; inversion H; subst; [reflexivity |].
  cbn. f_equal. now apply IH.
Qed.

Lemma Forall2_impl_both {A B : Type} (R1 R2 : A -> B -> Prop) (l : list A) :
  forall l', (forall a b, In a l -> In b l' -> R1 a b -> R2 a b) ->
             Forall2 R1 l l' -> Forall2 R2 l l'.
Proof.
  induction l as [| a l IH]; intros l' H F; inversion F; subst; constructor.
  - apply H; [now left | now left | assumption].
  - apply IH; [| assumption]. intros u v Hu Hv. apply H; now right.
Qed.

Lemma processSelected_frame pay now rows :
  forall call st acc,
    let st' := fst (processSelected pay now rows call st acc) in
    same_but_reimbursements st st'
    /\ reimbursements_id_seq st' = reimbursements_id_seq st
    /\ map r_id (reimbursements st') = map r_id (reimbursements st).
Proof.
  intros call st acc.
  apply (processSelected_invariant_in pay now rows
           (fun st' => same_but_reimbursements st st'
                       /\ reimbursements_id_seq st' = reimbursements_id_seq st
                       /\ map r_id (reimbursements st') = map r_id (reimbursements st))).
  - intros st0 call0 row _ (Hs & Hq & Hi).
    destruct (paid_same pay now call0 row st0) as [Hs' Hq'].
    split; [eapply same_but_reimbursements_trans; eassumption |].
    split; [congruence |]. now rewrite paid_ids.
  - split; [apply same_but_reimbursements_refl | auto].
Qed.

Lemma store_by_fields st st' :
  same_but_reimbursements st st' ->
  reimbursements st' = reimbursements st ->
  reimbursements_id_seq st' = reimbursements_id_seq st ->
  st' = st.
Proof.
  destruct st, st'. unfold same_but_reimbursements. cbn.
  intros (H1 & H2 & H3 & H4 & H5 & H6 & H7) H8 H9. now subst.
Qed.

(** X16. A batch in which every payment throws is undone by a retry. In
    a store that meets the schema's constraints, where no reimbursement
    is failed and the pending ones carry no payment reference and no
    processing time, [processPendingReimbursements] with a limit that is
    not negative and a payment that always throws completes nothing and
    marks min(limit, number pending) reimbursements failed; a call of
    [retryFailedReimbursements] with a limit at least as large then
    returns that number and leaves the store exactly as it was before
    the batch. *)
Theorem retry_undoes_a_batch_of_failures :
  forall pay now limit retry_limit st,
    wf_store st ->
    (0 <= limit <= retry_limit)%Z ->
    (forall call a q, exists message, pay call a q = Throw message) ->
    (forall r, In r (reimbursements st) -> r_status r <> failed) ->
    (forall r, In r (reimbursements st) -> r_status r = pending ->
               r_tx_hash r = None /\ r_processed_at r = None) ->
    exists result,
      let batch := processPendingReimbursements pay now limit st in
      fst batch = Normal result
      /\ processed result = 0%nat
      /\ Z.of_nat (failed_count result)
         = Z.min limit (Z.of_nat (count_in pending (reimbursements st)))
      /\ count_in failed (reimbursements (snd batch)) = failed_count result
      /\ fst (retryFailedReimbursements retry_limit (snd batch))
         = Normal (failed_count result)
      /\ snd (retryFailedReimbursements retry_limit (snd batch)) = st.
Proof.
  intros pay now limit retry_limit st WF Hlimit Hfail Hnofailed Hclean.
  unfold processPendingReimbursements.
  destruct (limit <? 0)%Z eqn:E; [apply Z.ltb_lt in E; lia |].
  pose proof (selectPending_picked limit st WF) as Hsel.
  assert (NDsel : NoDup (map (fun row => r_id (subject row)) (selectPending limit st))).
  { rewrite <- (map_map subject r_id), Hsel.
    apply picked_NoDup, (wf_reimbursement_ids st WF). }
  assert (Hrows : forall row, In row (selectPending limit st) ->
                    In (subject row) (reimbursements st) /\ r_status (subject row) = pending).
  { intros row Hrow. apply (picked_In limit st). rewrite <- Hsel. now apply in_map. }
  assert (Hlen : Z.of_nat (List.length (selectPending limit st))
                 = Z.min limit (Z.of_nat (count_in pending (reimbursements st)))).
  { rewrite <- (length_map subject), Hsel. now apply picked_length. }
  set (start := {| processed := 0; failed_count := 0;
                   ReimbursementService.totalAmount := 0 |}).
  pose proof (processSelected_accounting pay now (selectPending limit st) 0%nat st start
                (wf_reimbursement_ids st WF) NDsel Hrows) as Hacc.
  pose proof (processSelected_counts pay now (selectPending limit st) 0%nat st start)
    as [Hp Hf].
  rewrite (successes_none pay _ Hfail) in Hp, Hf.
  pose proof (processSelected_pointwise pay now (selectPending limit st) NDsel 0%nat st start)
    as Hpoint.
  pose proof (processSelected_frame pay now (selectPending limit st) 0%nat st start)
    as Hframe.
  destruct (processSelected pay now (selectPending limit st) 0 st start) as [st1 result].
  cbn [fst snd] in *. cbn zeta in Hacc, Hframe.
  cbn [processed failed_count start] in Hacc, Hp, Hf.
  destruct Hacc as (_ & _ & _ & Hfailed & _).
  destruct Hframe as (Hsame & Hseq & Hids).
  assert (Hnone : count_in failed (reimbursements st) = 0%nat).
  { unfold count_in. rewrite DailySummary.filter_none; [reflexivity |].
    intros r Hr. destruct (r_status r) eqn:Es; try reflexivity.
    now elim (Hnofailed r Hr). }
  assert (Hcount : count_in failed (reimbursements st1) = failed_count result) by lia.
  assert (ND1 : NoDup (map r_id (reimbursements st1)))
    by (rewrite Hids; apply WF).
  (* the retry picks every failed row *)
  assert (Hall : chosen retry_limit st1
                 = sort_by newest_first
                     (filter (fun r => ReimbursementStatus_eqb (r_status r) failed)
                        (reimbursements st1))).
  { unfold chosen. apply firstn_all2. rewrite sort_by_length.
    fold (count_in failed (reimbursements st1)). lia. }
  exists result. cbn zeta.
  split; [reflexivity |]. split; [lia |]. split; [lia |]. split; [exact Hcount |].
  unfold retryFailedReimbursements.
  destruct (retry_limit <? 0)%Z eqn:E'; [apply Z.ltb_lt in E'; lia |].
  cbn [fst snd]. split.
  - f_equal. rewrite (retried_count retry_limit st1 ND1), Hall, sort_by_length.
    exact Hcount.
  - apply store_by_fields.
    + destruct Hsame as (H1 & H2 & H3 & H4 & H5 & H6 & H7). repeat split; assumption.
    + cbn [reimbursements with_reimbursements].
      apply map_of_Forall2. revert Hpoint. apply Forall2_impl_both.
      intros r r1 Hr Hr1 [[_ ->] | (i & row & Hi & Hid & ->)].
      * destruct (retried (selectFailed retry_limit st1) r) eqn:Er; [| reflexivity].
        unfold retried in Er. apply andb_true_iff in Er. destruct Er as [Er _].
        apply ReimbursementStatus_eqb_iff in Er. now elim (Hnofailed r Hr).
      * destruct (Hfail (0 + i)%nat (recipient_address row) (r_amount (subject row)))
          as [message Em].
        rewrite Em in Hr1 |- *.
        assert (Hsub : subject row = r).
        { apply (Compounding.NoDup_map_inj r_id _ _ _ (wf_reimbursement_ids st WF)); auto.
          apply Hrows. eapply nth_error_In. exact Hi. }
        assert (Hpending : r_status r = pending).
        { rewrite <- Hsub. apply Hrows. eapply nth_error_In. exact Hi. }
        destruct (Hclean r Hr Hpending) as [Htx Hat].
        assert (Hretried : retried (selectFailed retry_limit st1) (failed_at now r) = true).
        { unfold retried. cbn [failed_at r_status r_id ReimbursementStatus_eqb andb].
          rewrite selectFailed_chosen. apply existsb_exists. exists (r_id r).
          split; [| apply Z.eqb_refl].
          change (r_id r) with (r_id (failed_at now r)). apply in_map.
          rewrite Hall. apply sort_by_In. apply filter_In. split; [exact Hr1 | reflexivity]. }
        rewrite Hretried. now apply reset_failed_at.
    + cbn [reimbursements_id_seq with_reimbursements]. exact Hseq.
Qed.

Lemma retry_undoes_a_batch_of_failures_witness :
  snd (retryFailedReimbursements 12
         (snd (processPendingReimbursements Sample.always_fails Sample.evening 10
                 Sample.twelve_pending)))
  = Sample.twelve_pending.
Proof.
  destruct (retry_undoes_a_batch_of_failures Sample.always_fails Sample.evening 10 12
              Sample.twelve_pending ProcessPending.twelve_pending_wf)
    as (result & _ & _ & _ & _ & _ & H).
  - lia.
  - intros call a q. exists "Simulated payment failure"%string. reflexivity.
  - intros r Hr. cbn in Hr.
    repeat (destruct Hr as [<- | Hr]; [discriminate |]). contradiction.
  - intros r Hr _. cbn in Hr.
    repeat (destruct Hr as [<- | Hr]; [split; reflexivity |]). contradiction.
  - exact H.
Defined.

End RoundTrip.

(** ** Which positions get an entry *)

Module Entries.
Import InterestService ReimbursementService ReimbursementTerms.
Import CreateFacts Compounding.

(** X17. [createReimbursementEntries] serves the active positions and
    no others. Every reimbursement it creates is for a stored position
    that is active and whose market is stored. Conversely, after the
    call every stored snapshot of the day with a positive excess, whose
    position is stored, active and in a stored market, has a
    reimbursement of that position whose period is the day: the one
    found or the one created. A snapshot of a closed position gets
    none from this call. *)
Theorem entries_are_created_for_active_positions_only :
  forall now date st,
    let st' := snd (createReimbursementEntries now date st) in
    exists created,
      reimbursements st' = reimbursements st ++ created
      /\ (forall r, In r created ->
            exists bp m,
              In bp (borrower_positions st) /\ bp_id bp = r_position_id r
              /\ bp_status bp = active
              /\ In m (markets st) /\ m_market_id m = bp_market_id bp)
      /\ (forall snap bp m,
            In snap (interest_snapshots st) ->
            i_snapshot_date snap = DATE date ->
            0 < i_interest_above_cap snap ->
            In bp (borrower_positions st) -> bp_id bp = i_position_id snap ->
            bp_status bp = active ->
            In m (markets st) -> m_market_id m = bp_market_id bp ->
            exists r,
              In r (reimbursements st')
              /\ r_position_id r = bp_id bp
              /\ r_period_start r = DATE date /\ r_period_end r = DATE date).
Proof.
  intros now date st. cbn zeta.
  destruct (Creation.createReimbursementEntries_created now date st)
    as (created & Hc & _ & _ & _ & _ & Hall).
  pose proof (createEntries_spec now (positionsNeedingReimbursement date st) st 0)
    as (created' & Hc' & _ & _ & Hf & _).
  assert (Hst : fst (createEntries now (positionsNeedingReimbursement date st) st 0)
                = snd (createReimbursementEntries now date st)).
  { unfold createReimbursementEntries.
    now destruct (createEntries now (positionsNeedingReimbursement date st) st 0). }
  cbn zeta in Hc'. rewrite Hst, Hc in Hc'. apply app_inv_head in Hc'. subst created'.
  exists created. split; [exact Hc |]. split.
  - intros r Hr. rewrite Forall_forall in Hf.
    destruct (Hf r Hr) as (_ & _ & _ & row & Hrow & Hp & _).
    unfold positionsNeedingReimbursement in Hrow. apply filter_In in Hrow.
    destruct Hrow as [Hrow Hcond].
    rewrite !andb_true_iff in Hcond. destruct Hcond as [_ Hactive].
    apply PositionStatus_eqb_iff in Hactive.
    apply Lifecycle.with_owner_In in Hrow.
    destruct Hrow as (_ & Hbp & Eid & Hm & Em).
    exists (position_of row), (market_of row).
    repeat split; auto. congruence.
  - intros snap bp m Hsnap Hday Hpos Hbp Eid Hactive Hm Em.
    destruct (BothPaths.with_owner_row i_position_id (interest_snapshots st) st snap bp m
                Hsnap Hbp Eid Hm Em) as (row & Hrow & Hsub & Hpos_of & _).
    assert (Hneeds : In row (positionsNeedingReimbursement date st)).
    { unfold positionsNeedingReimbursement. apply filter_In. split; [exact Hrow |].
      rewrite Hsub, Hpos_of, Hday, Z.eqb_refl, Hactive.
      now rewrite (proj2 (Qlt_bool_iff _ _) Hpos). }
    specialize (Hall row Hneeds). rewrite Hsub in Hall.
    destruct (existing (i_position_id snap) (DATE date)
                (snd (createReimbursementEntries now date st))) as [| r found] eqn:E;
      [congruence |].
    assert (Hr : In r (existing (i_position_id snap) (DATE date)
                         (snd (createReimbursementEntries now date st))))
      by (rewrite E; now left).
    unfold existing in Hr. apply filter_In in Hr. destruct Hr as [Hr Hkey].
    rewrite !andb_true_iff, !Z.eqb_eq in Hkey. destruct Hkey as [[Hp Hs] He].
    exists r. repeat split; auto. congruence.
Qed.

End Entries.

(** ** What the two creation paths insert *)

Module CreatedRecords.
Import InterestService ReimbursementService.
Import InterestTerms ReimbursementTerms BatchTerms.
Import InterestFacts RunFacts WrittenRows CreateFacts Creation Compounding BorrowerRun.

Lemma reimbursements_for_carry now snaps snap :
  forall i,
    In snap snaps -> 0 < i_interest_above_cap snap ->
    exists r, In r (reimbursements_for now i snaps)
              /\ r_position_id r = i_position_id snap
              /\ r_amount r = i_interest_above_cap snap.
Proof.
  intros i HIn Hpos. apply Qlt_bool_iff in Hpos.
  destruct (reimbursements_for_In now snaps snap i HIn Hpos) as [j Hj].
  exists (inline_reimbursement now j snap). split; [exact Hj |]. split; reflexivity.
Qed.

(** A position that needs a reimbursement comes out of the SELECT. *)
Lemma needs_reimbursement_selected date st p :
  needs_reimbursement (DATE date) st p ->
  exists row, In row (positionsNeedingReimbursement date st)
              /\ i_position_id (subject row) = p.
Proof.
  intros (snap & bp & m & Hsnap & Hp & Hday & Hpos & Hbp & Eid & Hactive & Hm & Em).
  destruct (BothPaths.with_owner_row i_position_id (interest_snapshots st) st snap bp m
              Hsnap Hbp ltac:(congruence) Hm Em) as (row & Hrow & Hsub & Hpos_of & _).
  exists row. split; [| now rewrite Hsub].
  unfold positionsNeedingReimbursement. apply filter_In. split; [exact Hrow |].
  rewrite Hsub, Hpos_of, Hday, Z.eqb_refl, Hactive.
  now rewrite (proj2 (Qlt_bool_iff _ _) Hpos).
Qed.

(** The rows selected are of positions that need a reimbursement. *)
Lemma selected_needs_reimbursement date st row :
  In row (positionsNeedingReimbursement date st) ->
  needs_reimbursement (DATE date) st (i_position_id (subject row)).
Proof.
  intro Hrow.
  destruct (positionsNeedingReimbursement_row date st row Hrow) as (Hsnap & Hday & Hpos).
  unfold positionsNeedingReimbursement in Hrow. apply filter_In in Hrow.
  destruct Hrow as [Hrow Hcond].
  rewrite !andb_true_iff in Hcond. destruct Hcond as [_ Hactive].
  apply PositionStatus_eqb_iff in Hactive.
  apply Lifecycle.with_owner_In in Hrow. destruct Hrow as (_ & Hbp & Eid & Hm & Em).
  exists (subject row), (position_of row), (market_of row). repeat split; auto.
Qed.

(** What one call of [createReimbursementEntries] inserts, told from
    the rows stored: one reimbursement for each position that needs one
    and has none of that period, and nothing else. *)
Lemma createReimbursementEntries_exactly now date st :
  let day := DATE date in
  let st' := snd (createReimbursementEntries now date st) in
  exists created,
    fst (createReimbursementEntries now date st) = Normal (List.length created)
    /\ reimbursements st' = reimbursements st ++ created
    /\ same_but_reimbursements st st'
    /\ NoDup (map r_position_id created)
    /\ (forall r, In r created ->
          r_status r = pending /\ r_period_start r = day /\ r_period_end r = day
          /\ pays_snapshot (interest_snapshots st) day r
          /\ needs_reimbursement day st (r_position_id r)
          /\ existing (r_position_id r) day st = [])
    /\ (forall p, needs_reimbursement day st p -> existing p day st = [] ->
          exists r, In r created /\ r_position_id r = p)
    /\ (forall p, needs_reimbursement day st p -> existing p day st' <> []).
Proof.
  cbn zeta.
  destruct (createReimbursementEntries_created now date st)
    as (created & Hr & Hn & Hsame & Hnd & Hall & Hex).
  pose proof (createEntries_spec now (positionsNeedingReimbursement date st) st 0)
    as (created' & Hc' & _ & _ & Hf & _).
  assert (Hst : fst (createEntries now (positionsNeedingReimbursement date st) st 0)
                = snd (createReimbursementEntries now date st)).
  { unfold createReimbursementEntries.
    now destruct (createEntries now (positionsNeedingReimbursement date st) st 0). }
  cbn zeta in Hc'. rewrite Hst, Hr in Hc'. apply app_inv_head in Hc'. subst created'.
  rewrite Forall_forall in Hf.
  assert (Hafter : forall p, needs_reimbursement (DATE date) st p ->
                     existing p (DATE date) (snd (createReimbursementEntries now date st))
                     <> []).
  { intros p Hp. destruct (needs_reimbursement_selected date st p Hp) as (row & Hrow & <-).
    now apply Hex. }
  exists created. repeat (split; [assumption |]). split; [| split; [| exact Hafter]].
  - intros r HIn. destruct (Hall r HIn) as ((Hstatus & _) & Hs & He & Hp & Hx).
    repeat (split; [assumption |]). split; [| exact Hx].
    destruct (Hf r HIn) as (_ & _ & _ & row & Hrow & <- & _).
    now apply selected_needs_reimbursement.
  - intros p Hp Hnone. specialize (Hafter p Hp).
    rewrite (existing_app p (DATE date) st _ created Hr), Hnone in Hafter.
    cbn [app] in Hafter.
    destruct (filter _ created) as [| r found] eqn:E; [congruence |].
    assert (Hr' : In r (filter (fun r => (r_position_id r =? p)%Z
                                         && (r_period_start r =? DATE date)%Z
                                         && (r_period_end r =? DATE date)%Z) created))
      by (rewrite E; now left).
    apply filter_In in Hr'. destruct Hr' as [Hr' Hkey].
    rewrite !andb_true_iff, !Z.eqb_eq in Hkey. exists r. tauto.
Qed.

(** C2, amended. Every reimbursement created carries as its amount the
    excess recorded by a snapshot of its position taken that day. A
    borrower run creates one for every snapshot it writes that records
    a positive excess, with the period from the day before to the
    snapshot day (the application and the database being on the same
    calendar day). [createReimbursementEntries] creates them for
    snapshots of the day with a positive excess, with the snapshot day
    as start and end, one per position at most; it creates one for
    every position that needs one and has no reimbursement whose period
    ends that day; and, in a store where every reimbursement starts and
    ends on one day, only for positions that have none ending that
    day. *)
Theorem reimbursements_created_carry_a_snapshot_excess :
  (forall rs now st,
      let st' := store_after (processDailySnapshot rs now st) in
      exists written created,
        interest_snapshots st' = interest_snapshots st ++ written
        /\ reimbursements st' = reimbursements st ++ created
        /\ (forall r, In r created ->
              r_status r = pending
              /\ r_period_start r = (DATE now - 1)%Z /\ r_period_end r = DATE now
              /\ carries_excess written (DATE now) r)
        /\ (forall snap, In snap written -> 0 < i_interest_above_cap snap ->
              exists r, In r created
                        /\ r_position_id r = i_position_id snap
                        /\ r_amount r = i_interest_above_cap snap))
  /\ (forall now date st,
        let day := DATE date in
        let st' := snd (createReimbursementEntries now date st) in
        exists created,
          reimbursements st' = reimbursements st ++ created
          /\ fst (createReimbursementEntries now date st) = Normal (List.length created)
          /\ NoDup (map r_position_id created)
          /\ (forall r, In r created ->
                r_status r = pending /\ r_period_start r = day /\ r_period_end r = day
                /\ pays_snapshot (interest_snapshots st) day r)
          /\ (forall p,
                needs_reimbursement day st p ->
                (forall r0, In r0 (reimbursements st) ->
                            r_position_id r0 = p -> r_period_end r0 <> day) ->
                exists r, In r created /\ r_position_id r = p)
          /\ ((forall r0, In r0 (reimbursements st) ->
                          r_period_start r0 = r_period_end r0) ->
              forall r r0, In r created -> In r0 (reimbursements st) ->
                           r_position_id r0 = r_position_id r -> r_period_end r0 <> day)).
Proof.
  split.
  - intros rs now st. cbn zeta.
    destruct (processDailySnapshot_added rs now st) as (written & created & Hw & Hc & _ & Fc).
    destruct (processDailySnapshot_one_pass rs now st) as (Hw' & Hc' & _).
    rewrite Hw in Hw'. apply app_inv_head in Hw'.
    rewrite Hc in Hc'. apply app_inv_head in Hc'.
    exists written, created. split; [exact Hw |]. split; [exact Hc |]. split.
    + rewrite Forall_forall in Fc. intros r HIn.
      destruct (Fc r HIn) as ((Hst & _) & Hs & He & snap & Hsnap & Hp & Hd & Ha & _).
      repeat (split; [assumption |]). exists snap. auto.
    + intros snap Hsnap Hpos. rewrite Hc', <- Hw'.
      now apply reimbursements_for_carry.
  - intros now date st. cbn zeta.
    destruct (createReimbursementEntries_exactly now date st)
      as (created & Hn & Hr & _ & Hnd & Hall & Hmake & _).
    exists created. repeat (split; [assumption |]). split; [| split].
    + intros r HIn. destruct (Hall r HIn) as (H1 & H2 & H3 & H4 & _). auto.
    + intros p Hp Hnone. apply Hmake; [exact Hp |].
      unfold existing. apply DailySummary.filter_none. intros r0 Hr0.
      destruct (r_position_id r0 =? p)%Z eqn:Ep; [| reflexivity].
      destruct (r_period_end r0 =? DATE date)%Z eqn:Ee; [| now rewrite andb_false_r].
      apply Z.eqb_eq in Ep, Ee. exfalso. exact (Hnone r0 Hr0 Ep Ee).
    + intros Hone r r0 HIn Hr0 Hp Hend.
      destruct (Hall r HIn) as (_ & _ & _ & _ & _ & Hnone).
      assert (In r0 (existing (r_position_id r) (DATE date) st)).
      { unfold existing. apply filter_In. split; [exact Hr0 |].
        rewrite !andb_true_iff, !Z.eqb_eq. rewrite (Hone r0 Hr0). auto. }
      rewrite Hnone in H. contradiction.
Qed.

Lemma reimbursements_created_carry_a_snapshot_excess_witness :
  exists r,
    In r (reimbursements
            (snd (createReimbursementEntries Sample.evening Sample.evening
                    Sample.two_excesses)))
    /\ r_position_id r = 2%Z.
Proof.
  destruct (proj2 reimbursements_created_carry_a_snapshot_excess
              Sample.evening Sample.evening Sample.two_excesses)
    as (created & Hr & _ & _ & _ & Hmake & _).
  destruct (Hmake 2%Z) as (r & HIn & Hp).
  - exists {| i_position_id := 2; i_snapshot_date := 20000%Z; i_current_rate := 0.18;
              i_capped_rate := 0.12; i_interest_accrued := 0.246575;
              i_interest_above_cap := 0.082192 |},
           (Sample.position 2 "wstETH/WETH" 500), Sample.wsteth.
    repeat split; cbn; auto.
  - intros r0 [].
  - exists r. split; [| exact Hp]. cbn zeta in Hr. rewrite Hr.
    apply in_or_app. now right.
Defined.

(** C7. Two calls of [createReimbursementEntries] for the same day, the
    store untouched in between. The first inserts exactly one pending
    reimbursement, with the day as its period, for every position that
    needs one (a stored active position, in a stored market, with a
    stored snapshot of the day that records a positive excess) and has
    none of that period, and nothing else; it returns their number and
    changes no other table. The second inserts nothing, returns 0 and
    leaves the store as it found it. *)
Theorem createReimbursementEntries_twice_creates_once :
  forall now1 now2 date1 date2 st,
    DATE date1 = DATE date2 ->
    let day := DATE date1 in
    let first := createReimbursementEntries now1 date1 st in
    let second := createReimbursementEntries now2 date2 (snd first) in
    (exists created,
        fst first = Normal (List.length created)
        /\ reimbursements (snd first) = reimbursements st ++ created
        /\ same_but_reimbursements st (snd first)
        /\ NoDup (map r_position_id created)
        /\ (forall r, In r created ->
              r_status r = pending /\ r_period_start r = day /\ r_period_end r = day
              /\ pays_snapshot (interest_snapshots st) day r
              /\ needs_reimbursement day st (r_position_id r)
              /\ existing (r_position_id r) day st = [])
        /\ (forall p, needs_reimbursement day st p -> existing p day st = [] ->
              exists r, In r created /\ r_position_id r = p))
    /\ second = (Normal 0%nat, snd first).
Proof.
  intros now1 now2 date1 date2 st Hday day first second.
  destruct (createReimbursementEntries_exactly now1 date1 st)
    as (created & Hn & Hr & Hsame & Hnd & Hall & Hmake & Hafter).
  fold first in Hn, Hr, Hsame, Hafter. fold day in Hall, Hmake, Hafter.
  split; [exists created; auto 10 |].
  subst second. unfold createReimbursementEntries at 1.
  assert (Hrows : positionsNeedingReimbursement date2 (snd first)
                  = positionsNeedingReimbursement date1 st).
  { rewrite (positionsNeedingReimbursement_same date2 st (snd first) Hsame).
    unfold positionsNeedingReimbursement. now rewrite Hday. }
  rewrite Hrows, createEntries_nothing_new; [reflexivity |].
  intros row Hrow.
  destruct (positionsNeedingReimbursement_row date1 st row Hrow) as (_ & -> & _).
  apply Hafter. now apply selected_needs_reimbursement.
Qed.

Lemma createReimbursementEntries_twice_creates_once_witness :
  (exists r,
      In r (reimbursements
              (snd (createReimbursementEntries Sample.noon Sample.noon
                      Sample.two_excesses)))
      /\ r_position_id r = 1%Z)
  /\ createReimbursementEntries Sample.evening Sample.evening
       (snd (createReimbursementEntries Sample.noon Sample.noon Sample.two_excesses))
     = (Normal 0%nat,
        snd (createReimbursementEntries Sample.noon Sample.noon Sample.two_excesses)).
Proof.
  destruct (createReimbursementEntries_twice_creates_once
              Sample.noon Sample.evening Sample.noon Sample.evening Sample.two_excesses
              eq_refl)
    as ((created & _ & Hr & _ & _ & _ & Hmake) & Hsecond).
  split; [| exact Hsecond].
  destruct (Hmake 1%Z) as (r & HIn & Hp).
  - exists {| i_position_id := 1; i_snapshot_date := 20000%Z; i_current_rate := 0.18;
              i_capped_rate := 0.12; i_interest_accrued := 0.493151;
              i_interest_above_cap := 0.164384 |},
           (Sample.position 1 "wstETH/WETH" 1000), Sample.wsteth.
    repeat split; cbn; auto.
  - reflexivity.
  - exists r. split; [| exact Hp]. rewrite Hr. apply in_or_app. now right.
Defined.

End CreatedRecords.

(** ** The number of reimbursements a run reports *)

Module Reported.
Import InterestService InterestTerms RunTerms BatchTerms.
Import InterestFacts RunFacts Compounding BorrowerRun.

Lemma checkRecentReimbursement_iff now i st :
  checkRecentReimbursement now i st = true
  <-> exists r, In r (reimbursements st)
                /\ r_position_id r = i /\ DATE (r_created_at r) = DATE now.
Proof.
  unfold checkRecentReimbursement. rewrite Z.ltb_lt. split.
  - intro H.
    destruct (filter _ (reimbursements st)) as [| r found] eqn:E; [cbn in H; lia |].
    assert (Hr : In r (filter (fun r => (r_position_id r =? i)%Z
                                        && (DATE (r_created_at r) =? DATE now)%Z)
                         (reimbursements st)))
      by (rewrite E; now left).
    apply filter_In in Hr. destruct Hr as [Hr Hc].
    rewrite andb_true_iff, !Z.eqb_eq in Hc. exists r. tauto.
  - intros (r & Hr & Hp & Hd).
    assert (Hin : In r (filter (fun r => (r_position_id r =? i)%Z
                                         && (DATE (r_created_at r) =? DATE now)%Z)
                          (reimbursements st))).
    { apply filter_In. split; [exact Hr |]. rewrite andb_true_iff, !Z.eqb_eq. tauto. }
    destruct (filter _ (reimbursements st)); [contradiction | cbn; lia].
Qed.

Lemma snapshots_for_markets rs now st st' rows :
  markets st' = markets st ->
  snapshots_for rs now st' rows = snapshots_for rs now st rows.
Proof.
  intro H. unfold snapshots_for. apply flat_map_ext. intro position.
  destruct (rs (market_id position)); try reflexivity.
  now rewrite (snapshot_of_markets now st st' position _ H).
Qed.

Lemma processPositions_reported rs now rows :
  NoDup (map id rows) ->
  forall st p c,
    (forall r, In r (reimbursements st) -> DATE (r_created_at r) = DATE now ->
               ~ In (r_position_id r) (map id rows)) ->
    reported_of (processPositions rs now rows st p c)
    = (c + List.length (reimbursements_for now (reimbursements_id_seq st)
                          (snapshots_for rs now st rows)))%nat.
Proof.
  induction rows as [| row rest IH]; intros ND st p c Hold.
  - cbn. lia.
  - cbn [map] in ND. inversion ND as [| ? ? Hnot ND']; subst.
    assert (Hcheck : forall st1,
               reimbursements st1 = reimbursements st ->
               checkRecentReimbursement now (id row) st1 = false).
    { intros st1 E. destruct (checkRecentReimbursement now (id row) st1) eqn:Ec;
        [| reflexivity].
      apply checkRecentReimbursement_iff in Ec. destruct Ec as (r & Hr & Hp & Hd).
      rewrite E in Hr. exfalso. apply (Hold r Hr Hd). left. now symmetry. }
    assert (Hrest : forall r, In r (reimbursements st) ->
                      DATE (r_created_at r) = DATE now ->
                      ~ In (r_position_id r) (map id rest))
      by (intros r Hr Hd HIn; apply (Hold r Hr Hd); now right).
    cbn [processPositions]. rewrite MissingMarket.processPosition_completion.
    unfold snapshots_for. cbn [flat_map]. fold (snapshots_for rs now st rest).
    unfold getMarketState.
    destruct (rs (market_id row)) as [message | | | s] eqn:Ers.
    + rewrite (processPosition_snapshots_skipped rs now row st)
        by (intros s' H'; congruence).
      specialize (IH ND' st p c Hrest).
      destruct (processPositions rs now rest st p c) as [[[st' p'] c'] out].
      exact IH.
    + rewrite (processPosition_snapshots_skipped rs now row st)
        by (intros s' H'; congruence).
      specialize (IH ND' st p c Hrest).
      destruct (processPositions rs now rest st p c) as [[[st' p'] c'] out].
      exact IH.
    + rewrite (processPosition_snapshots_skipped rs now row st)
        by (intros s' H'; congruence).
      rewrite (Hcheck st eq_refl).
      specialize (IH ND' st (S p) c Hrest).
      destruct (processPositions rs now rest st (S p) c) as [[[st' p'] c'] out].
      exact IH.
    + set (st1 := store_after (processPosition rs now row st)).
      pose proof (processPosition_reimbursements _ now _ st _ Ers) as Hr1.
      pose proof (Lifecycle.processPosition_seq _ now _ st _ Ers) as Hs1.
      destruct (processPosition_frame rs now row st) as (Hm1 & _).
      fold st1 in Hr1, Hs1, Hm1.
      cbn [app reimbursements_for].
      destruct (Qlt_bool 0 (i_interest_above_cap (snapshot_of now st row s))) eqn:Epos.
      * assert (Ec : checkRecentReimbursement now (id row) st1 = true).
        { apply checkRecentReimbursement_iff. eexists. split.
          - rewrite Hr1. apply in_or_app. right. now left.
          - split; reflexivity. }
        rewrite Ec.
        specialize (IH ND' st1 (S p) (S c)).
        rewrite Hs1, (snapshots_for_markets rs now st st1 rest Hm1) in IH.
        destruct (processPositions rs now rest st1 (S p) (S c)) as [[[st' p'] c'] out].
        unfold reported_of in *. cbn [fst snd List.length] in *.
        rewrite IH; [lia |].
        intros r Hr Hd. rewrite Hr1 in Hr. apply in_app_or in Hr.
        destruct Hr as [Hr | [<- | []]]; [now apply Hrest | exact Hnot].
      * rewrite app_nil_r in Hr1. rewrite (Hcheck st1 Hr1).
        specialize (IH ND' st1 (S p) c).
        rewrite Hs1, (snapshots_for_markets rs now st st1 rest Hm1) in IH.
        destruct (processPositions rs now rest st1 (S p) c) as [[[st' p'] c'] out].
        unfold reported_of in *. cbn [fst snd] in *.
        apply IH. intros r Hr Hd. rewrite Hr1 in Hr. now apply Hrest.
Qed.

(** X18. The line 'Created n reimbursements' is right on the first run
    of a day: in a store that meets the schema's constraints, holds an
    active position in a stored market and no reimbursement created
    that day, the number a borrower run prints last is the number of
    reimbursements it appended. (The run counts the positions processed
    that have a reimbursement created that day, which is how it can
    count one it did not create.) *)
Theorem first_run_of_a_day_reports_the_reimbursements_it_created :
  forall rs now st,
    wf_store st ->
    (forall r, In r (reimbursements st) -> DATE (r_created_at r) <> DATE now) ->
    getActivePositions st <> [] ->
    exists created out,
      reimbursements (store_after (processDailySnapshot rs now st))
      = reimbursements st ++ created
      /\ console (processDailySnapshot rs now st)
         = out ++ [LogReimbursementsCreated (List.length created)].
Proof.
  intros rs now st WF Hfresh Hrows.
  destruct (processDailySnapshot_one_pass rs now st) as (_ & Hc & _).
  exists (reimbursements_for now (reimbursements_id_seq st)
            (snapshots_for rs now st (getActivePositions st))).
  rewrite Hc. clear Hc.
  pose proof (processPositions_reported rs now (getActivePositions st)
                (getActivePositions_NoDup st (wf_position_ids st WF) (wf_market_ids st WF))
                st 0%nat 0%nat) as Hrep.
  unfold processDailySnapshot.
  destruct (getActivePositions st) as [| row rows] eqn:E; [congruence |].
  cbn [List.length Nat.eqb].
  destruct (processPositions rs now (row :: rows) st 0 0) as [[[st' p'] c'] out] eqn:Ep.
  unfold reported_of in Hrep. cbn [fst snd console] in *.
  rewrite Hrep by (intros r Hr Hd; now elim (Hfresh r Hr)).
  exists (LogFound (S (List.length rows)) :: out
          ++ [LogProcessed p' (S (List.length rows))]).
  split; [reflexivity |].
  cbn [app Nat.add]. f_equal. now rewrite <- app_assoc.
Qed.

Lemma first_run_of_a_day_reports_the_reimbursements_it_created_witness :
  exists created out,
    reimbursements (store_after (processDailySnapshot (Sample.rates 0.18 0.18) Sample.noon
                                   Sample.one_market))
    = reimbursements Sample.one_market ++ created
    /\ console (processDailySnapshot (Sample.rates 0.18 0.18) Sample.noon Sample.one_market)
       = out ++ [LogReimbursementsCreated (List.length created)].
Proof.
  apply first_run_of_a_day_reports_the_reimbursements_it_created.
  - exact BothPaths.one_market_wf.
  - intros r [].
  - discriminate.
Defined.

End Reported.

(** ** The summary of the vault snapshots of the day *)

Module SupplySummaryFacts.
Import SupplySummary ReimbursementStats Accounting.

Lemma fold_add_nat {A : Type} (g : A -> nat) (l : list A) :
  forall n, fold_left (fun sum r => (sum + g r)%nat) l n
            = (n + fold_left (fun sum r => (sum + g r)%nat) l 0)%nat.
Proof.
  induction l as [| a l IH]; intro n; cbn [fold_left]; [lia |].
  rewrite (IH (n + g a)%nat), (IH (0 + g a)%nat). lia.
Qed.

Lemma fold_add_Q {A : Type} (g : A -> Q) (l : list A) :
  forall x, fold_left (fun sum r => sum + g r) l x == x + SUM (map g l).
Proof.
  induction l as [| a l IH]; intro x; cbn [fold_left map].
  - change (SUM []) with 0. ring.
  - rewrite IH, SUM_cons. ring.
Qed.

Lemma fold_add_nat_sum {A : Type} (g : A -> nat) (l : list A) :
  fold_left (fun sum r => (sum + g r)%nat) l 0%nat = list_sum (map g l).
Proof.
  induction l as [| a l IH]; [reflexivity |].
  cbn [fold_left map list_sum fold_right]. rewrite fold_add_nat, IH. reflexivity.
Qed.

Lemma list_sum_map_add {A : Type} (f g : A -> nat) (l : list A) :
  list_sum (map (fun k => (f k + g k)%nat) l)
  = (list_sum (map f l) + list_sum (map g l))%nat.
Proof.
  unfold list_sum. induction l as [| a l IH]; cbn [map fold_right]; [reflexivity |].
  rewrite IH. lia.
Qed.

Lemma SUM_map_add {A : Type} (f g : A -> Q) (l : list A) :
  SUM (map (fun k => f k + g k) l) == SUM (map f l) + SUM (map g l).
Proof.
  induction l as [| a l IH]; cbn [map].
  - change (SUM []) with 0. ring.
  - rewrite !SUM_cons, IH. ring.
Qed.

Lemma SUM_map_ext {A : Type} (f g : A -> Q) (l : list A) :
  (forall k, f k == g k) -> SUM (map f l) == SUM (map g l).
Proof.
  intro H. induction l as [| a l IH]; cbn [map]; [reflexivity |].
  now rewrite !SUM_cons, IH, H.
Qed.

(** Among keys without repetition, one and only one is the key of a
    row. *)
Lemma one_group_nat (keys : list string) (a : string) :
  NoDup keys -> In a keys ->
  list_sum (map (fun k => if String.eqb a k then 1%nat else 0%nat) keys) = 1%nat.
Proof.
  induction 1 as [| k keys Hnot ND IH]; intro HIn; [contradiction |].
  cbn [map list_sum fold_right]. destruct (String.eqb a k) eqn:E.
  - apply String.eqb_eq in E. subst k.
    assert (Z : list_sum (map (fun k => if String.eqb a k then 1%nat else 0%nat) keys)
                = 0%nat).
    { clear - Hnot. induction keys as [| k keys IH]; [reflexivity |].
      cbn [map list_sum fold_right].
      destruct (String.eqb a k) eqn:E;
        [apply String.eqb_eq in E; subst; elim Hnot; now left |].
      apply IH. intro H. apply Hnot. now right. }
    unfold list_sum in Z. rewrite Z. reflexivity.
  - destruct HIn as [-> | HIn]; [rewrite String.eqb_refl in E; discriminate |].
    exact (IH HIn).
Qed.

Lemma one_group_Q (keys : list string) (a : string) (v : Q) :
  NoDup keys -> In a keys ->
  SUM (map (fun k => if String.eqb a k then v else 0) keys) == v.
Proof.
  induction 1 as [| k keys Hnot ND IH]; intro HIn; [contradiction |].
  cbn [map]. rewrite SUM_cons. destruct (String.eqb a k) eqn:E.
  - apply String.eqb_eq in E. subst k.
    assert (Z : SUM (map (fun k => if String.eqb a k then v else 0) keys) == 0).
    { clear - Hnot. induction keys as [| k keys IH]; [reflexivity |].
      cbn [map]. rewrite SUM_cons.
      destruct (String.eqb a k) eqn:E;
        [apply String.eqb_eq in E; subst; elim Hnot; now left |].
      rewrite IH; [ring |]. intro H. apply Hnot. now right. }
    rewrite Z. ring.
  - destruct HIn as [-> | HIn]; [rewrite String.eqb_refl in E; discriminate |].
    rewrite (IH HIn). ring.
Qed.

(** Over keys without repetition that cover the rows, the group counts
    add up to the number of rows, and the group sums to the sum. *)
Lemma groups_count {A : Type} (key : A -> string) (keys : list string) (l : list A) :
  NoDup keys -> (forall a, In a l -> In (key a) keys) ->
  list_sum (map (fun k => List.length (filter (fun a => String.eqb (key a) k) l)) keys)
  = List.length l.
Proof.
  intros ND. induction l as [| a l IH]; intro Hcover.
  - cbn [filter List.length]. clear. induction keys as [| k keys IH]; [reflexivity |].
    cbn [map]. unfold list_sum in *. cbn [fold_right]. exact IH.
  - rewrite (map_ext _ (fun k => ((if String.eqb (key a) k then 1 else 0)
                                  + List.length
                                      (filter (fun a => String.eqb (key a) k) l))%nat)).
    + rewrite list_sum_map_add, IH by (intros b Hb; apply Hcover; now right).
      rewrite (one_group_nat keys (key a) ND (Hcover a (or_introl eq_refl))).
      reflexivity.
    + intro k. cbn [filter]. now destruct (String.eqb (key a) k).
Qed.

Lemma groups_sum {A : Type} (key : A -> string) (f : A -> Q) (keys : list string)
    (l : list A) :
  NoDup keys -> (forall a, In a l -> In (key a) keys) ->
  SUM (map (fun k => SUM (map f (filter (fun a => String.eqb (key a) k) l))) keys)
  == SUM (map f l).
Proof.
  intros ND. induction l as [| a l IH]; intro Hcover.
  - cbn [filter map]. clear. induction keys as [| k keys IH]; [reflexivity |].
    cbn [map]. rewrite SUM_cons, IH. change (SUM []) with 0. ring.
  - rewrite (SUM_map_ext _ (fun k => (if String.eqb (key a) k then f a else 0)
                                     + SUM (map f (filter
                                                     (fun a => String.eqb (key a) k) l)))).
    + rewrite SUM_map_add, IH by (intros b Hb; apply Hcover; now right).
      rewrite (one_group_Q keys (key a) (f a) ND (Hcover a (or_introl eq_refl))).
      cbn [map]. now rewrite SUM_cons.
    + intro k. cbn [filter]. destruct (String.eqb (key a) k); cbn [map].
      * now rewrite SUM_cons.
      * ring.
Qed.

(** X19. The overall figures of the vault service's [getTodaySummary]
    are the totals of the day: the allocations processed are the number
    of vault snapshots of the day, the total interest earned and the
    total above cap are the sums over these rows, each row counted in
    the group of its token and in no other; the tokens listed are those
    of the rows of the day, without repetition. *)
Theorem vault_summary_totals_are_the_totals_of_the_day :
  forall now st,
    let summary := getTodaySummary now st in
    let rows := today now st in
    overall_allocations_processed (overall summary) = List.length rows
    /\ overall_total_interest_earned (overall summary)
       == SUM (map vss_interest_earned rows)
    /\ overall_total_above_cap (overall summary)
       == SUM (map vss_interest_above_cap rows)
    /\ NoDup (map loan_asset (byToken summary))
    /\ (forall token, In token (map loan_asset (byToken summary))
                      <-> exists row, In row rows /\ vss_loan_asset row = token).
Proof.
  intros now st. cbn zeta.
  unfold getTodaySummary. cbn [overall byToken overall_allocations_processed
                                 overall_total_interest_earned overall_total_above_cap].
  set (rows := today now st).
  set (keys := sort_by String.leb (nodup string_dec (map vss_loan_asset rows))).
  assert (ND : NoDup keys).
  { unfold keys. eapply Permutation_NoDup; [apply Permutation_sym, sort_by_perm |].
    apply NoDup_nodup. }
  assert (Hkeys : forall token, In token keys
                                <-> exists row, In row rows /\ vss_loan_asset row = token).
  { intro token. unfold keys. rewrite sort_by_In, nodup_In, in_map_iff.
    split; intros (row & H1 & H2); exists row; auto. }
  assert (Hcover : forall row, In row rows -> In (vss_loan_asset row) keys)
    by (intros row Hrow; apply Hkeys; eauto).
  unfold by_token. fold rows. fold keys.
  split; [| split; [| split; [| split]]].
  - rewrite fold_add_nat_sum, map_map. cbn [allocations_processed].
    now apply groups_count.
  - rewrite fold_add_Q, map_map. cbn [total_interest_earned].
    rewrite (groups_sum vss_loan_asset vss_interest_earned keys rows ND Hcover). ring.
  - rewrite fold_add_Q, map_map. cbn [total_above_cap].
    rewrite (groups_sum vss_loan_asset vss_interest_above_cap keys rows ND Hcover). ring.
  - rewrite map_map. cbn [loan_asset]. now rewrite map_id.
  - intro token. rewrite map_map. cbn [loan_asset]. rewrite map_id. exact (Hkeys token).
Qed.

End SupplySummaryFacts.

(** ** What a batch of payments does, row by row *)

Module Batch.
Import ReimbursementService ReimbursementTerms Operations.
Import CreateFacts Compounding Payment Lifecycle.

(** X20. In a store that meets the schema's constraints, a call of
    [processPendingReimbursements] with a limit that is not negative
    pays the oldest pending reimbursements, each once, in the order of
    their creation: the rows selected are the first min(limit, number
    pending) pending ones by [created_at]; payment number i is made for
    the i-th of them, to the address of the vault or else the borrower
    of its position, for its amount; the row is completed with the
    reference that payment returned, or marked failed if it threw; and
    every row not selected, every other table and the id sequence are
    as they were. *)
Theorem processing_pays_the_oldest_pending_once_each :
  forall pay now limit st,
    wf_store st ->
    (0 <= limit)%Z ->
    let st' := snd (processPendingReimbursements pay now limit st) in
    Forall2 (fun r r' =>
               (~ In r (picked limit st) /\ r' = r)
               \/ exists i row,
                    nth_error (picked limit st) i = Some r
                    /\ nth_error (selectPending limit st) i = Some row
                    /\ subject row = r
                    /\ r' = match pay i (recipient_address row) (r_amount r) with
                            | Normal txHash => completed_with now txHash r
                            | Throw _ => failed_at now r
                            end)
      (reimbursements st) (reimbursements st')
    /\ Z.of_nat (List.length (picked limit st))
       = Z.min limit (Z.of_nat (count_in pending (reimbursements st)))
    /\ (forall r, In r (picked limit st) -> In r (reimbursements st) /\ r_status r = pending)
    /\ (forall r r', In r (picked limit st) ->
                     In r' (reimbursements st) -> r_status r' = pending ->
                     ~ In r' (picked limit st) ->
                     (r_created_at r <= r_created_at r')%Z)
    /\ same_but_reimbursements st st'
    /\ reimbursements_id_seq st' = reimbursements_id_seq st.
Proof.
  intros pay now limit st WF Hlimit. cbn zeta.
  unfold processPendingReimbursements.
  destruct (limit <? 0)%Z eqn:E; [apply Z.ltb_lt in E; lia |].
  pose proof (selectPending_picked limit st WF) as Hsel.
  assert (NDsel : NoDup (map (fun row => r_id (subject row)) (selectPending limit st))).
  { rewrite <- (map_map subject r_id), Hsel.
    apply picked_NoDup, (wf_reimbursement_ids st WF). }
  set (start := {| processed := 0; failed_count := 0;
                   ReimbursementService.totalAmount := 0 |}).
  pose proof (processSelected_pointwise pay now (selectPending limit st) NDsel 0%nat st start)
    as Hpoint.
  pose proof (RoundTrip.processSelected_frame pay now (selectPending limit st) 0%nat st start)
    as Hframe.
  destruct (processSelected pay now (selectPending limit st) 0 st start) as [st' result].
  cbn [fst snd] in *. cbn zeta in Hframe. destruct Hframe as (Hsame & Hseq & _).
  split; [| split; [| split; [| split; [| split]]]].
  - revert Hpoint. apply Forall2_impl_in.
    intros r r' Hr [[Hout ->] | (i & row & Hi & Hid & ->)].
    + left. split; [| reflexivity]. intro HIn. apply Hout.
      rewrite <- (map_map subject r_id), Hsel. now apply in_map.
    + right. exists i, row.
      assert (Hsub : In (subject row) (picked limit st)).
      { rewrite <- Hsel. apply in_map. eapply nth_error_In. exact Hi. }
      assert (Esub : subject row = r).
      { apply (NoDup_map_inj r_id _ _ _ (wf_reimbursement_ids st WF)); auto.
        now apply (picked_In limit st). }
      split; [| split; [exact Hi | split; [exact Esub |]]].
      * rewrite <- Hsel, nth_error_map, Hi. cbn. now rewrite Esub.
      * cbn [Nat.add]. now rewrite Esub.
  - now apply picked_length.
  - apply picked_In.
  - apply picked_oldest.
  - exact Hsame.
  - exact Hseq.
Qed.

Lemma processing_pays_the_oldest_pending_once_each_witness :
  Z.of_nat (List.length (picked 10 Sample.twelve_pending))
  = Z.min 10 (Z.of_nat (count_in pending (reimbursements Sample.twelve_pending))).
Proof.
  destruct (processing_pays_the_oldest_pending_once_each
              Sample.seventh_fails Sample.evening 10 Sample.twelve_pending
              ProcessPending.twelve_pending_wf)
    as (_ & H & _).
  - lia.
  - exact H.
Defined.

End Batch.

(** ** The cap a run applies *)

Module AppliedCap.
Import InterestService InterestTerms BatchTerms.
Import InterestFacts Compounding BorrowerRun.

Lemma getCappedRate_stored st market_id :
  In market_id (map m_market_id (markets st)) ->
  exists m, In m (markets st) /\ m_market_id m = market_id
            /\ getCappedRate st market_id = m_apr_cap m.
Proof.
  intro H. unfold getCappedRate.
  destruct (filter (fun m => String.eqb (m_market_id m) market_id) (markets st))
    as [| m found] eqn:E.
  - exfalso. apply in_map_iff in H. destruct H as (m & Hm & HIn).
    assert (Hf : In m (filter (fun m => String.eqb (m_market_id m) market_id) (markets st)))
      by (apply filter_In; split; [exact HIn | now apply String.eqb_eq]).
    rewrite E in Hf. contradiction.
  - assert (Hf : In m (filter (fun m => String.eqb (m_market_id m) market_id) (markets st)))
      by (rewrite E; now left).
    apply filter_In in Hf. destruct Hf as [HIn Hm]. apply String.eqb_eq in Hm. eauto.
Qed.

(** X21. The default cap of 15% is out of reach of the daily run: every
    snapshot a borrower run appends records as capped rate the cap
    stored for a market of the position's market id, because the rows
    the run fetches are joined to their market. With unique market ids
    that is the cap of the position's own market. *)
Theorem a_run_never_applies_the_default_cap :
  forall rs now st,
    exists written,
      interest_snapshots (store_after (processDailySnapshot rs now st))
      = interest_snapshots st ++ written
      /\ forall snap, In snap written ->
           exists bp m,
             In bp (borrower_positions st) /\ bp_id bp = i_position_id snap
             /\ bp_status bp = active
             /\ In m (markets st) /\ m_market_id m = bp_market_id bp
             /\ i_capped_rate snap = m_apr_cap m.
Proof.
  intros rs now st.
  destruct (processDailySnapshot_one_pass rs now st) as (Hw & _).
  eexists. split; [exact Hw |].
  intros snap Hsnap. apply snapshots_for_inv in Hsnap.
  destruct Hsnap as (position & s & Hrow & _ & ->).
  apply getActivePositions_In in Hrow. destruct Hrow as (Hbp & Hm & Em & Hactive).
  destruct (getCappedRate_stored st (market_id position)) as (m & HIn & Eid & Ecap).
  { unfold market_id. rewrite Em. now apply in_map. }
  exists (fst position), m. cbn [snapshot_of i_position_id i_capped_rate].
  repeat split; auto.
Qed.

End AppliedCap.

(** ** Compounding over the runs *)

Module DailyCompounding.
Import InterestService Operations RunTerms CompoundingTerms.
Import InterestFacts RunFacts Compounding Lifecycle.

Lemma run_compounds rs now st bp s :
  wf_store st ->
  In bp (borrower_positions st) -> bp_status bp = active ->
  rs (bp_market_id bp) = MarketWithState s ->
  In (with_debt now (bp_current_debt bp + bp_current_debt bp * (borrowApy s / 365)) bp)
    (borrower_positions (store_after (processDailySnapshot rs now st))).
Proof.
  intros WF Hbp Hactive Hs.
  pose proof (wf_position_market st WF bp Hbp) as Hm.
  apply in_map_iff in Hm. destruct Hm as (m & Em & Hm).
  assert (Hrow : In (bp, m) (getActivePositions st))
    by (apply getActivePositions_In; cbn; auto).
  rewrite DebtUpdate.processDailySnapshot_store.
  exact (proj1 (processPositions_compounds rs now (getActivePositions st)
                  (getActivePositions_NoDup st (wf_position_ids st WF)
                     (wf_market_ids st WF))
                  st 0%nat 0%nat bp (bp, m) s Hrow eq_refl Hs Hbp)).
Qed.

(** X22. Debts compound run after run. In a store that meets the
    schema's constraints, an active position whose market comes back
    with a state at every one of a series of borrower runs ends with
    its debt multiplied by (1 + rate/365) for each run, at the rate that
    run observed; its id, owner, market and status are as before. (Two
    runs on one day compound twice.) *)
Theorem debt_compounds_at_every_run :
  forall days st bp,
    wf_store st ->
    In bp (borrower_positions st) ->
    bp_status bp = active ->
    (forall day, In day days -> exists s, fst day (bp_market_id bp) = MarketWithState s) ->
    exists bp',
      In bp' (borrower_positions (perform_all (daily_runs days) st))
      /\ bp_id bp' = bp_id bp
      /\ bp_borrower_id bp' = bp_borrower_id bp /\ bp_vault_id bp' = bp_vault_id bp
      /\ bp_market_id bp' = bp_market_id bp /\ bp_status bp' = active
      /\ bp_current_debt bp' == bp_current_debt bp * growth (bp_market_id bp) days.
Proof.
  induction days as [| day rest IH]; intros st bp WF Hbp Hactive Hstate.
  - exists bp. cbn. repeat split; auto. ring.
  - destruct (Hstate day (or_introl eq_refl)) as [s Hs].
    pose proof (run_compounds (fst day) (snd day) st bp s WF Hbp Hactive Hs) as Hbp1.
    set (bp1 := with_debt (snd day)
                  (bp_current_debt bp + bp_current_debt bp * (borrowApy s / 365)) bp) in *.
    destruct (IH (store_after (processDailySnapshot (fst day) (snd day) st)) bp1)
      as (bp' & HIn & Hid & Hb & Hv & Hm & Hst & Hd).
    + exact (evolves_wf st _ WF (processDailySnapshot_evolves _ _ st)).
    + exact Hbp1.
    + exact Hactive.
    + intros day' Hday'. apply Hstate. now right.
    + exists bp'. cbn [daily_runs map perform_all fold_left perform].
      split; [exact HIn |]. repeat (split; [assumption |]).
      rewrite Hd.
      change (bp_market_id bp1) with (bp_market_id bp).
      change (bp_current_debt bp1)
        with (bp_current_debt bp + bp_current_debt bp * (borrowApy s / 365)).
      cbn [growth]. unfold RateSource in *. rewrite Hs. field.
Qed.

Lemma debt_compounds_at_every_run_witness :
  exists bp',
    In bp' (borrower_positions
              (perform_all
                 (daily_runs [(Sample.rates 0.18 0.18, Sample.noon);
                              (Sample.rates 0.10 0.10, (Sample.noon + 86400)%Z)])
                 Sample.one_market))
    /\ bp_current_debt bp'
       == 1000 * ((1 + 0.18 / 365) * ((1 + 0.10 / 365) * 1)).
Proof.
  destruct (debt_compounds_at_every_run
              [(Sample.rates 0.18 0.18, Sample.noon);
               (Sample.rates 0.10 0.10, (Sample.noon + 86400)%Z)]
              Sample.one_market (fst Sample.alice) BothPaths.one_market_wf)
    as (bp' & HIn & _ & _ & _ & _ & _ & Hd).
  - now left.
  - reflexivity.
  - intros day [<- | [<- | []]]; eexists; reflexivity.
  - exists bp'. split; [exact HIn | exact Hd].
Defined.

End DailyCompounding.

(** ** The allocations synced from Morpho *)

Module SyncFacts.
Import MorphoSync.

Lemma same_allocation_iff vault_id market_id va :
  same_allocation vault_id market_id va = true
  <-> allocation_key va = (vault_id, market_id).
Proof.
  unfold same_allocation, allocation_key.
  rewrite andb_true_iff, Z.eqb_eq, String.eqb_eq. split.
  - now intros [-> ->].
  - intro H. now inversion H.
Qed.

(** A row after the upsert is a row left alone or the row of the key
    with the supply given. *)
Lemma upsert_allocation_rows k m q st va :
  In va (vault_allocations (upsert_allocation k m q st)) ->
  (In va (vault_allocations st) /\ allocation_key va <> (k, m))
  \/ (allocation_key va = (k, m) /\ va_supply_assets va = q).
Proof.
  cbn. destruct (existsb (same_allocation k m) (vault_allocations st)) eqn:E.
  - intro H. apply in_map_iff in H. destruct H as (va0 & <- & H0).
    destruct (same_allocation k m va0) eqn:E0.
    + right. apply same_allocation_iff in E0. split; [exact E0 | reflexivity].
    + left. split; [exact H0 |]. intro H. apply same_allocation_iff in H. congruence.
  - intro H. apply in_app_or in H. destruct H as [H | [<- | []]].
    + left. split; [exact H |]. intro Hk. apply same_allocation_iff in Hk.
      assert (existsb (same_allocation k m) (vault_allocations st) = true)
        by (apply existsb_exists; eauto).
      congruence.
    + right. split; reflexivity.
Qed.

(** No row is removed: a row of another key stays, and the key given
    has a row. *)
Lemma upsert_allocation_keeps k m q st va :
  In va (vault_allocations st) ->
  exists va',
    In va' (vault_allocations (upsert_allocation k m q st))
    /\ allocation_key va' = allocation_key va
    /\ (va' = va \/ (allocation_key va = (k, m) /\ va_supply_assets va' = q)).
Proof.
  intro H. cbn. destruct (existsb (same_allocation k m) (vault_allocations st)) eqn:E.
  - destruct (same_allocation k m va) eqn:E0.
    + eexists. split; [apply in_map_iff; exists va; split; [reflexivity | exact H] |].
      rewrite E0. split; [reflexivity |]. right.
      apply same_allocation_iff in E0. split; [exact E0 | reflexivity].
    + exists va. split; [| split; [reflexivity | now left]].
      apply in_map_iff. exists va. rewrite E0. auto.
  - exists va. split; [apply in_or_app; now left | split; [reflexivity | now left]].
Qed.

Lemma upsert_allocation_unique k m q st :
  NoDup (map allocation_key (vault_allocations st)) ->
  NoDup (map allocation_key (vault_allocations (upsert_allocation k m q st))).
Proof.
  intro ND. cbn. destruct (existsb (same_allocation k m) (vault_allocations st)) eqn:E.
  - rewrite map_map. erewrite map_ext; [exact ND |].
    intro va. now destruct (same_allocation k m va).
  - rewrite map_app. cbn [map].
    apply (Permutation_NoDup (Permutation_cons_append _ _)).
    constructor; [| exact ND].
    intro H. apply in_map_iff in H. destruct H as (va & Hk & HIn).
    assert (existsb (same_allocation k m) (vault_allocations st) = true).
    { apply existsb_exists. exists va. split; [exact HIn |].
      apply same_allocation_iff. exact Hk. }
    congruence.
Qed.

(** What every upsert of the sync keeps, the whole sync keeps. *)
Lemma syncVaultAllocations_invariant api st (P : Store -> Prop) :
  (forall st' vault allocations alloc,
      In vault (vaults st) ->
      api (v_address vault) = VaultAllocations allocations ->
      In alloc allocations ->
      In (alloc_market alloc) (map m_market_id (markets st)) ->
      P st' ->
      P (upsert_allocation (v_id vault) (alloc_market alloc) (alloc_supplyAssets alloc) st')) ->
  P st -> P (syncVaultAllocations api st).
Proof.
  intros Hstep. unfold syncVaultAllocations.
  assert (H : forall vs st',
             (forall v, In v vs -> In v (vaults st)) -> P st' ->
             P (fold_left (syncVault api (map m_market_id (markets st))) vs st')).
  { induction vs as [| v vs IH]; intros st' Hvs HP; [exact HP |].
    cbn [fold_left]. apply IH; [intros w Hw; apply Hvs; now right |].
    unfold syncVault, getVaultAllocations.
    destruct (api (v_address v)) as [| | allocations] eqn:Eapi; [exact HP | exact HP |].
    assert (Hin : forall rel st'',
               (forall a, In a rel ->
                          In a allocations
                          /\ In (alloc_market a) (map m_market_id (markets st))) ->
               P st'' ->
               P (fold_left (fun st0 alloc =>
                               upsert_allocation (v_id v) (alloc_market alloc)
                                 (alloc_supplyAssets alloc) st0) rel st'')).
    { induction rel as [| a rel IHrel]; intros st'' Hrel HP''; [exact HP'' |].
      cbn [fold_left]. apply IHrel; [intros b Hb; apply Hrel; now right |].
      destruct (Hrel a (or_introl eq_refl)) as [Ha Hm].
      apply (Hstep st'' v allocations a); auto. apply Hvs. now left. }
    apply Hin; [| exact HP].
    intros a Ha. apply filter_In in Ha. destruct Ha as [Ha Hm]. split; [exact Ha |].
    apply existsb_exists in Hm. destruct Hm as (m & Hm & Em).
    apply String.eqb_eq in Em. now rewrite Em. }
  intro HP. apply H; auto.
Qed.

(** X23. [syncVaultAllocations] upserts and never deletes. It changes
    no table but the vault allocations; it keeps UNIQUE(vault_id,
    market_id); every allocation stored before still has a row under
    its key afterwards, either untouched or carrying a supply the
    endpoint reported for a stored vault of that id and that market; and
    every row afterwards was there before or carries such a supply, for
    a stored vault and a tracked market. An allocation the endpoint no
    longer reports, or whose vault's request fails, keeps the supply it
    had. *)
Theorem sync_upserts_allocations_and_never_deletes :
  forall api st,
    let st' := syncVaultAllocations api st in
    st' = with_vault_allocations (vault_allocations st') st
    /\ (NoDup (map allocation_key (vault_allocations st)) ->
        NoDup (map allocation_key (vault_allocations st')))
    /\ (forall va, In va (vault_allocations st) ->
          exists va', In va' (vault_allocations st')
                      /\ allocation_key va' = allocation_key va
                      /\ (va' = va \/ reported api st va'))
    /\ (forall va', In va' (vault_allocations st') ->
          In va' (vault_allocations st) \/ reported api st va').
Proof.
  intros api st. cbn zeta. split; [| split; [| split]].
  - apply (syncVaultAllocations_invariant api st
             (fun st' => st' = with_vault_allocations (vault_allocations st') st)).
    + intros st' vault allocations alloc _ _ _ _ H. rewrite H at 1. reflexivity.
    + now destruct st.
  - intro ND.
    apply (syncVaultAllocations_invariant api st
             (fun st' => NoDup (map allocation_key (vault_allocations st')))); [| exact ND].
    intros st' vault allocations alloc _ _ _ _. apply upsert_allocation_unique.
  - apply (syncVaultAllocations_invariant api st
             (fun st' => forall va, In va (vault_allocations st) ->
                exists va', In va' (vault_allocations st')
                            /\ allocation_key va' = allocation_key va
                            /\ (va' = va \/ reported api st va'))).
    + intros st' vault allocations alloc Hv Hapi Ha Hm IH va Hva.
      destruct (IH va Hva) as (va1 & H1 & Hk1 & Hor).
      destruct (upsert_allocation_keeps (v_id vault) (alloc_market alloc)
                  (alloc_supplyAssets alloc) st' va1 H1)
        as (va2 & H2 & Hk2 & [-> | [Hk Hq]]).
      * exists va1. auto.
      * exists va2. split; [exact H2 |]. split; [congruence |]. right.
        rewrite <- Hk2 in Hk. inversion Hk as [[Hid Hmk]].
        exists vault, allocations, alloc. rewrite Hmk. repeat split; auto.
    + intros va Hva. exists va. auto.
  - apply (syncVaultAllocations_invariant api st
             (fun st' => forall va', In va' (vault_allocations st') ->
                In va' (vault_allocations st) \/ reported api st va')); [| auto].
    intros st' vault allocations alloc Hv Hapi Ha Hm IH va' Hva'.
    apply upsert_allocation_rows in Hva'. destruct Hva' as [[H _] | [Hk Hq]]; [auto |].
    right. inversion Hk as [[Hid Hmk]].
    exists vault, allocations, alloc. rewrite Hmk. repeat split; auto.
Qed.

End SyncFacts.

(** ** A vault run with markets that fail *)

Module VaultBatch.
Import InterestService VaultSupplyService BatchTerms.
Import SupplyFacts RunFacts.

Lemma processAllocation_completion rs now allocation st :
  completed_as (processAllocation rs now allocation st)
  = match getMarketState rs (VaultSupplyService.market_id allocation) with
    | Throw message => Throw message
    | Normal _ => Normal tt
    end.
Proof.
  unfold processAllocation.
  destruct (getMarketState rs (VaultSupplyService.market_id allocation)) as [md | message];
    [| reflexivity].
  now destruct (state md).
Qed.

Lemma getMarketState_throws rs market_id :
  if throws rs market_id
  then exists message, getMarketState rs market_id = Throw message
  else exists md, getMarketState rs market_id = Normal md.
Proof.
  unfold throws, getMarketState. destruct (rs market_id); eauto.
Qed.

Lemma processAllocations_counts rs now rows :
  forall st p,
    snd (fst (processAllocations rs now rows st p))
    = (p + List.length
             (filter (fun a => negb (throws rs (VaultSupplyService.market_id a))) rows))%nat
    /\ forall a message,
         In a rows ->
         getMarketState rs (VaultSupplyService.market_id a) = Throw message ->
         In (ErrorProcessingAllocation (vault_name a) (market_name a) message)
           (snd (processAllocations rs now rows st p)).
Proof.
  induction rows as [| a0 rest IH]; intros st p.
  - cbn. split; [lia | intros a message []].
  - cbn [processAllocations filter]. rewrite processAllocation_completion.
    pose proof (getMarketState_throws rs (VaultSupplyService.market_id a0)) as Hget.
    destruct (throws rs (VaultSupplyService.market_id a0)).
    + destruct Hget as [message0 E0]. rewrite E0. cbn [negb].
      destruct (IH (store_after (processAllocation rs now a0 st)) p) as [Hc Hl].
      destruct (processAllocations rs now rest _ p) as [[st' p'] out].
      cbn [fst snd] in *. split; [exact Hc |].
      intros a message [<- | Ha] Hm.
      * apply in_or_app. right. left. congruence.
      * apply in_or_app. right. right. now apply Hl.
    + destruct Hget as [md E0]. rewrite E0. cbn [negb List.length].
      destruct (IH (store_after (processAllocation rs now a0 st)) (S p)) as [Hc Hl].
      destruct (processAllocations rs now rest _ (S p)) as [[st' p'] out].
      cbn [fst snd] in *. split; [rewrite Hc; lia |].
      intros a message [<- | Ha] Hm; [congruence |].
      apply in_or_app. right. now apply Hl.
Qed.

(** X24. A vault run survives the markets that fail. Whatever the rate
    source answers, the run returns normally; when it fetched at least
    one allocation it prints, after the lines of the loop, 'Processed
    p/n' where n is the number of allocations fetched and p the number
    of those whose market did not make [getMarketState] throw (a market
    that comes back without a state is warned about and counted as
    processed), and then the summary of the day, read from the store
    the loop left; and for every allocation whose market made it throw,
    the error is printed with the names of the vault and the market,
    and the loop goes on. *)
Theorem vault_run_survives_failing_markets :
  forall rs now st,
    let run := processDailySupplySnapshots rs now st in
    completed_as run = Normal tt
    /\ (getActiveVaultAllocations st <> [] ->
        let rows := getActiveVaultAllocations st in
        exists out,
          console run
          = LogFound (List.length rows) :: out
            ++ LogProcessed
                 (List.length
                    (filter (fun a => negb (throws rs (VaultSupplyService.market_id a)))
                       rows))
                 (List.length rows)
               :: summary_lines (SupplySummary.getTodaySummary now (store_after run))
          /\ forall a message,
               In a rows ->
               getMarketState rs (VaultSupplyService.market_id a) = Throw message ->
               In (ErrorProcessingAllocation (vault_name a) (market_name a) message) out).
Proof.
  intros rs now st. cbn zeta. unfold processDailySupplySnapshots.
  pose proof (processAllocations_counts rs now (getActiveVaultAllocations st) st 0%nat)
    as [Hc Hl].
  destruct (getActiveVaultAllocations st) as [| row rows] eqn:E.
  - cbn. split; [reflexivity | congruence].
  - cbn [List.length Nat.eqb].
    destruct (processAllocations rs now (row :: rows) st 0) as [[st' p'] out].
    cbn [fst snd completed_as console store_after] in *. split; [reflexivity |].
    intros _. exists out. rewrite Hc. cbn [Nat.add]. split; [reflexivity |].
    exact Hl.
Qed.

End VaultBatch.

(** ** Who is paid *)

Module Recipient.
Import ReimbursementService ReimbursementTerms.
Import Lifecycle.

Lemma left_join_In {A B : Type} (on : A -> B -> bool) (l : list A) (r : list B) a ob :
  In (a, ob) (left_join on l r) <->
  In a l /\ match ob with
            | None => filter (on a) r = []
            | Some b => In b r /\ on a b = true
            end.
Proof.
  unfold left_join. rewrite in_flat_map. split.
  - intros (a' & Ha' & H).
    destruct (filter (on a') r) as [| b ms] eqn:E.
    + destruct H as [H | []]. inversion H; subst. auto.
    + rewrite <- E in H. apply in_map_iff in H. destruct H as (b' & H & Hb').
      inversion H; subst. split; [exact Ha' |]. now apply filter_In in Hb'.
  - intros [Ha H]. exists a. split; [exact Ha |].
    destruct ob as [b |].
    + assert (Hb : In b (filter (on a) r)) by (apply filter_In; exact H).
      destruct (filter (on a) r) as [| b0 ms] eqn:E; [contradiction |].
      rewrite <- E. apply in_map_iff. exists b. split; [reflexivity |]. now rewrite E.
    + rewrite H. now left.
Qed.

(** The vault and the borrower a joined row carries are those the
    position names, where they are stored. *)
Lemma with_owner_owners {X : Type} (position_id : X -> Z) (xs : list X) st row :
  In row (with_owner position_id xs st) ->
  match vault_of row with
  | Some v => In v (vaults st) /\ bp_vault_id (position_of row) = Some (v_id v)
  | None => forall v, In v (vaults st) -> bp_vault_id (position_of row) <> Some (v_id v)
  end
  /\ match borrower_of row with
     | Some b => In b (borrowers st) /\ bp_borrower_id (position_of row) = Some (b_id b)
     | None => forall b, In b (borrowers st) ->
                         bp_borrower_id (position_of row) <> Some (b_id b)
     end.
Proof.
  unfold with_owner. destruct row as [[[[x bp] m] ov] ob].
  intro H. apply left_join_In in H. destruct H as [H3 Hb].
  apply left_join_In in H3. destruct H3 as [_ Hv].
  unfold vault_of, borrower_of, position_of. cbn [fst snd] in *. split.
  - destruct ov as [v |].
    + destruct Hv as [Hv Ev]. split; [exact Hv |].
      destruct (bp_vault_id bp) as [i |]; [| discriminate].
      apply Z.eqb_eq in Ev. now subst.
    + intros v Hin E.
      assert (In v (filter (fun v => match bp_vault_id bp with
                                     | Some i => (v_id v =? i)%Z
                                     | None => false
                                     end) (vaults st)))
        by (apply filter_In; split; [exact Hin | rewrite E; apply Z.eqb_refl]).
      rewrite Hv in H. contradiction.
  - destruct ob as [b |].
    + destruct Hb as [Hb Eb]. split; [exact Hb |].
      destruct (bp_borrower_id bp) as [i |]; [| discriminate].
      apply Z.eqb_eq in Eb. now subst.
    + intros b Hin E.
      assert (In b (filter (fun b => match bp_borrower_id bp with
                                     | Some i => (b_id b =? i)%Z
                                     | None => false
                                     end) (borrowers st)))
        by (apply filter_In; split; [exact Hin | rewrite E; apply Z.eqb_refl]).
      rewrite Hb in H. contradiction.
Qed.

(** X25. Who a payment goes to. For every row
    [processPendingReimbursements] selects, the position is the stored
    position of the reimbursement, and the recipient handed to the
    payment is the address of a stored vault the position names; failing
    that, the address of a stored borrower it names; and when the
    position names neither a stored vault nor a stored borrower, the
    payment is made with no recipient at all, and the reimbursement is
    completed all the same if the payment returns. *)
Theorem payment_goes_to_the_vault_else_the_borrower :
  forall limit st row,
    In row (selectPending limit st) ->
    let bp := position_of row in
    In (subject row) (reimbursements st) /\ r_status (subject row) = pending
    /\ In bp (borrower_positions st) /\ bp_id bp = r_position_id (subject row)
    /\ match recipient_address row with
       | Some a =>
           (exists v, In v (vaults st) /\ bp_vault_id bp = Some (v_id v)
                      /\ a = v_address v)
           \/ ((forall v, In v (vaults st) -> bp_vault_id bp <> Some (v_id v))
               /\ exists b, In b (borrowers st) /\ bp_borrower_id bp = Some (b_id b)
                            /\ a = b_address b)
       | None =>
           (forall v, In v (vaults st) -> bp_vault_id bp <> Some (v_id v))
           /\ (forall b, In b (borrowers st) -> bp_borrower_id bp <> Some (b_id b))
           /\ forall pay now call txHash,
                pay call None (r_amount (subject row)) = Normal txHash ->
                In (completed_with now txHash (subject row))
                  (reimbursements (paid pay now call row st))
       end.
Proof.
  intros limit st row Hrow. cbn zeta.
  unfold selectPending in Hrow. apply In_firstn in Hrow.
  apply sort_by_In in Hrow. apply filter_In in Hrow. destruct Hrow as [Hrow Hpending].
  apply Retry.ReimbursementStatus_eqb_iff in Hpending.
  destruct (with_owner_In _ _ _ _ Hrow) as (Hsub & Hbp & Eid & _).
  destruct (with_owner_owners _ _ _ _ Hrow) as [Hv Hb].
  repeat (split; [assumption |]).
  unfold recipient_address.
  destruct (vault_of row) as [v |] eqn:Ev.
  - left. exists v. destruct Hv. auto.
  - destruct (borrower_of row) as [b |] eqn:Eb.
    + right. split; [exact Hv |]. exists b. destruct Hb. auto.
    + split; [exact Hv |]. split; [exact Hb |].
      intros pay now call txHash Hpay.
      rewrite paid_rows. unfold recipient_address. rewrite Ev, Eb, Hpay.
      apply in_map_iff. exists (subject row). rewrite Z.eqb_refl. auto.
Qed.

Lemma payment_goes_to_the_vault_else_the_borrower_witness :
  In (Sample.pending_reimbursement 1, fst Sample.alice, Sample.wsteth,
      @None Vault, Some (Sample.borrower 1))
    (selectPending 10 Sample.twelve_pending)
  /\ In (fst Sample.alice) (borrower_positions Sample.twelve_pending).
Proof.
  assert (H : In (Sample.pending_reimbursement 1, fst Sample.alice, Sample.wsteth,
                  @None Vault, Some (Sample.borrower 1))
                (selectPending 10 Sample.twelve_pending))
    by (vm_compute; left; reflexivity).
  split; [exact H |].
  destruct (payment_goes_to_the_vault_else_the_borrower 10 Sample.twelve_pending _ H)
    as (_ & _ & Hbp & _).
  exact Hbp.
Defined.

End Recipient.
